(** * GOLFIN Visual QA: the comparison and reporting engine of [QA/visual_qa.py]

    A shallow embedding of [pixel_diff], [compare_screens] and
    [generate_markdown_report], and the properties of the engine that the
    design document states about them.

    Conventions of the embedding.
    - Python and numpy floating-point values are modelled by the rational
      numbers they denote ([Q]); comparisons are exact, and [round(x, 2)]
      is rounding to the nearest hundredth, ties to even.  The two scores
      that [pixel_diff] reports are also computed in floating point: over
      any arithmetic that rounds to nearest ([Float64], [Float64Laws]),
      and in IEEE 754 binary64 ([Binary64]).
    - 8-bit samples, pixel counts and coordinates are integers.
    - Pillow, hashlib and the formatting of floats are external libraries:
      they are the fields of the class [Externals].
    - The file system is read through [Inputs] (the two screenshot
      directories, keyed by screen name) and written as a list of [Write]
      events (the reports directory).  What the script prints on the
      console is left out of the runs; the line that judges a compared
      screen is [console_line].
    - [datetime.now()] is read twice by [compare_screens]; the two readings
      are the fields of [Clock]. *)

From Stdlib Require Import ZArith QArith Qround Qabs Bool String Ascii List Lia Lqa.
From Stdlib.Strings Require Import Byte.
From Stdlib Require DecimalString.
From Stdlib Require PrimFloat FloatOps SpecFloat Uint63.
Import ListNotations.

Local Open Scope Z_scope.

(** ** Numbers *)

Module Num.

(** [numpy.rint]: the nearest integer, ties to the even one. *)
Definition rint (x : Q) : Z :=
  let f := Qfloor x in
  match Qcompare (x - inject_Z f) (1 # 2) with
  | Lt => f
  | Gt => f + 1
  | Eq => if Z.even f then f else f + 1
  end.

(** [round(x, 2)]: [rint(x * 100) / 100], on exact values.  The roundings
    of the two scores in floating point are in [reported_scores]. *)
Definition round2 (x : Q) : Q := Qmake (rint (x * 100)) 100.

(** [a > b] on floats. *)
Definition gt (a b : Q) : bool := negb (Qle_bool a b).

(** [a <= b] on floats. *)
Definition le (a b : Q) : bool := Qle_bool a b.

(** An integer as a float. *)
Definition of_nat (n : nat) : Q := inject_Z (Z.of_nat n).

End Num.

(** ** Images *)

(** An RGBA pixel: four 8-bit samples. *)
Record Pixel := mkPixel { red : Z; green : Z; blue : Z; alpha : Z }.

(** A decoded raster image in mode RGBA.  [im_rows] holds [im_height] rows
    of [im_width] pixels. *)
Record Image := mkImage {
  im_width : nat;
  im_height : nat;
  im_rows : list (list Pixel)
}.

(** [img.size]: the pair (width, height). *)
Definition size (img : Image) : nat * nat := (im_width img, im_height img).

Definition sample_ok (v : Z) : bool := (0 <=? v) && (v <=? 255).

Definition pixel_ok (p : Pixel) : bool :=
  sample_ok (red p) && sample_ok (green p) && sample_ok (blue p) && sample_ok (alpha p).

(** The rows of an image are as many as its height, each as long as its
    width, and every sample is an 8-bit value. *)
Definition wf_image (img : Image) : bool :=
  (length (im_rows img) =? im_height img)%nat &&
  forallb (fun row => (length row =? im_width img)%nat && forallb pixel_ok row)
          (im_rows img).

(** ** Python's order on pairs *)

(** [a < b] on 2-tuples of ints: lexicographic. *)
Definition tuple_lt (a b : nat * nat) : bool :=
  (fst a <? fst b)%nat || ((fst a =? fst b)%nat && (snd a <? snd b)%nat).

(** [max(a, b)]: the first argument unless the second is greater. *)
Definition py_max (a b : nat * nat) : nat * nat :=
  if tuple_lt a b then b else a.

(** [a != b] on 2-tuples of ints. *)
Definition tuple_neq (a b : nat * nat) : bool :=
  negb ((fst a =? fst b)%nat && (snd a =? snd b)%nat).

(** ** External libraries *)

(** What the engine takes from Pillow, hashlib and Python's formatting.
    - [image_open]: [Image.open(path).convert("RGBA")] on the content of a
      file; [None] when Pillow raises.
    - [image_resize]: [img.resize(target, Image.LANCZOS)].
    - [md5_hexdigest]: [hashlib.md5(bytes).hexdigest()].
    - [float_repr]: the text of a float inside an f-string.
    - [have_imaging]: whether [PIL] and [numpy] can be imported. *)
Class Externals := {
  image_open : list byte -> option Image;
  image_resize : Image -> nat * nat -> Image;
  md5_hexdigest : list byte -> string;
  float_repr : Q -> string;
  have_imaging : bool
}.

(** What Pillow guarantees: a decoded image is well formed, and a resized
    image is well formed and has the size asked for. *)
Class PillowLaws (Ext : Externals) : Prop := {
  image_open_wf : forall b img, image_open b = Some img -> wf_image img = true;
  image_resize_size : forall img t, size (image_resize img t) = t;
  image_resize_wf : forall img t, wf_image (image_resize img t) = true
}.

(** ** Normalisation (lines 168-173 of [pixel_diff]) *)

Section Normalizer.
Context `{Ext : Externals}.

Definition resize_to_match (img1 img2 : Image) : Image * Image :=
  if tuple_neq (size img1) (size img2) then
    let target := py_max (size img1) (size img2) in
    (image_resize img1 target, image_resize img2 target)
  else (img1, img2).

End Normalizer.

(** ** numpy arrays *)

Module Np.

(** An array of shape (H, W, 4): rows of pixels of samples.  The absolute
    differences of 8-bit samples are integers, exact in float32. *)
Definition array3 := list (list (list Z)).

(** A boolean array of shape (H, W). *)
Definition mask := list (list bool).

Fixpoint map2 {A B C : Type} (f : A -> B -> C) (l : list A) (m : list B) : list C :=
  match l, m with
  | a :: l', b :: m' => f a b :: map2 f l' m'
  | _, _ => []
  end.

(** [np.array(img)]: shape (height, width, 4). *)
Definition of_image (img : Image) : array3 :=
  map (map (fun p => [red p; green p; blue p; alpha p])) (im_rows img).

(** [np.abs(a - b)] on arrays of one shape. *)
Definition abs_sub (a b : array3) : array3 :=
  map2 (map2 (map2 (fun x y => Z.abs (x - y)))) a b.

Definition flatten (a : array3) : list Z := concat (concat a).

Definition sum (l : list Z) : Z := fold_right Z.add 0 l.

(** [.mean()] of a list of samples. *)
Definition mean (l : list Z) : Q :=
  inject_Z (sum l) / inject_Z (Z.of_nat (length l)).

(** [.max()], which raises on an array without elements. *)
Definition max (l : list Z) : option Z :=
  match l with
  | [] => None
  | x :: r => Some (fold_left Z.max r x)
  end.

(** [a.mean(axis=2) > t]. *)
Definition mean_axis2_gt (a : array3) (t : Z) : mask :=
  map (map (fun px => Num.gt (mean px) (inject_Z t))) a.

(** [m.sum()] of a boolean array: how many entries are true. *)
Definition count_true (m : mask) : nat := length (filter id (concat m)).

(** [m.size]. *)
Definition mask_size (m : mask) : nat := length (concat m).

(** [m.any(axis=1)]: per row. *)
Definition any_axis1 (m : mask) : list bool := map (existsb id) m.

(** [m.any(axis=0)]: per column, for an array of [w] columns. *)
Definition any_axis0 (w : nat) (m : mask) : list bool :=
  map (fun j => existsb (fun row => nth j row false) m) (seq 0 w).

(** [v.any()]. *)
Definition any (v : list bool) : bool := existsb id v.

(** [np.argmax(v)] of a boolean vector: the index of the first true entry,
    and 0 when there is none. *)
Fixpoint argmax (v : list bool) : nat :=
  match v with
  | [] => 0
  | true :: _ => 0
  | false :: r => if existsb id r then S (argmax r) else 0
  end.

(** [np.uint8(np.clip(a * 3, 0, 255))]. *)
Definition amplify (a : array3) : array3 :=
  map (map (map (fun d => Z.min 255 (Z.max 0 (d * 3))))) a.

End Np.

(** ** Results *)

(** One bounding box of [regions]. *)
Record Region := mkRegion {
  y_start : Z;
  y_end : Z;
  x_start : Z;
  x_end : Z;
  area_percent : Q
}.

(** The dictionary [pixel_diff] returns after a comparison. *)
Record DiffStats := mkDiffStats {
  mean_diff : Q;
  max_diff : Q;
  diff_percent : Q;
  diff_image : string;
  resolution : nat * nat;
  regions : list Region;
  match_score : Q
}.

(** What [pixel_diff] returns: the error dictionary of the failed import,
    or the statistics. *)
Inductive DiffOutcome :=
| DiffError (msg : string)
| DiffOk (d : DiffStats).

(** The exceptions that escape the engine. *)
Inductive Exn :=
| FileNotFound (path : string)
| CannotIdentifyImage (path : string)
| ZeroSizeReduction.

(** The source paths and content fingerprints [compare_screens] adds to
    what [pixel_diff] returned. *)
Record Sources := mkSources {
  unity_path : string;
  figma_path : string;
  unity_hash : string;
  figma_hash : string
}.

(** The dictionary recorded for a screen in [results]:
    [{"status": s}], or the dictionary of [pixel_diff] with the keys of
    [Sources] added. *)
Inductive ScreenRecord :=
| Missing (status : string)
| Uncompared (error : string) (src : Sources)
| Compared (d : DiffStats) (src : Sources).

(** The [summary] of a report. *)
Record Summary := mkSummary {
  total : nat;
  passing : nat;
  warning : nat;
  failing : nat;
  missing : nat
}.

(** The [report] dictionary.  [screens] is a Python dict: keys are unique
    and keep the order of their first insertion. *)
Record Report := mkReport {
  timestamp : string;
  screens : list (string * ScreenRecord);
  summary : Summary
}.

(** A file written under the reports directory: the diff image saved by
    [pixel_diff], [json.dumps(report, indent=2)] of a report, or a text. *)
Inductive Write :=
| WriteImage (path : string) (img : Np.array3)
| WriteJson (path : string) (report : Report)
| WriteText (path : string) (text : string).

(** ** Paths and inputs *)

(** The two screenshot directories, each mapping a screen name to the
    content of [<name>.png] when that file exists. *)
Record Inputs := mkInputs {
  unity_files : string -> option (list byte);
  figma_files : string -> option (list byte)
}.

Inductive Path :=
| UnityPng (screen : string)
| FigmaPng (screen : string).

Local Open Scope string_scope.

(** [QA_DIR] is the directory of the script; the paths below are relative
    to its parent. *)
Definition QA_DIR : string := "QA".
Definition FIGMA_DIR : string := QA_DIR ++ "/Screenshots/Figma".
Definition UNITY_DIR : string := QA_DIR ++ "/Screenshots/Unity".
Definition REPORTS_DIR : string := QA_DIR ++ "/Reports".

(** [str(path)]. *)
Definition path_str (p : Path) : string :=
  match p with
  | UnityPng s => UNITY_DIR ++ "/" ++ s ++ ".png"
  | FigmaPng s => FIGMA_DIR ++ "/" ++ s ++ ".png"
  end.

(** [c in s]. *)
Fixpoint contains (c : ascii) (s : string) : bool :=
  match s with
  | EmptyString => false
  | String d rest => Ascii.eqb c d || contains c rest
  end.

(** [PurePosixPath(s).name] for a path that does not end with a separator
    or a dot component (the paths of this script end with [.png]): what
    follows the last [/]. *)
Fixpoint path_name (s : string) : string :=
  match s with
  | EmptyString => EmptyString
  | String _ rest => if contains "/" s then path_name rest else s
  end.

(** [name[:i], name[i+1:]] for [i = name.rfind(".")], when [name] has a
    dot. *)
Fixpoint rpartition_dot (name : string) : option (string * string) :=
  match name with
  | EmptyString => None
  | String c rest =>
      match rpartition_dot rest with
      | Some (a, b) => Some (String c a, b)
      | None => if Ascii.eqb c "." then Some (EmptyString, rest) else None
      end
  end.

(** [PurePath.stem] of a file name: the name without its suffix, where
    the suffix starts at the last dot, unless that dot is the first or
    the last character of the name. *)
Definition name_stem (name : string) : string :=
  match rpartition_dot name with
  | Some (String c a, String _ _) => String c a
  | _ => name
  end.

(** [Path(path).stem]. *)
Definition stem (p : Path) : string := name_stem (path_name (path_str p)).

Arguments stem : simpl never.

(** The content of a file, if it exists. *)
Definition read_bytes (inp : Inputs) (p : Path) : option (list byte) :=
  match p with
  | UnityPng s => unity_files inp s
  | FigmaPng s => figma_files inp s
  end.

(** [path.exists()]. *)
Definition exists_ (inp : Inputs) (p : Path) : bool :=
  match read_bytes inp p with Some _ => true | None => false end.

Local Close Scope string_scope.

(** ** The error monad of the engine *)

Definition Res (A : Type) : Type := Exn + A.

Definition ok {A : Type} (a : A) : Res A := inr a.
Definition raise {A : Type} (e : Exn) : Res A := inl e.

Definition bind {A B : Type} (m : Res A) (k : A -> Res B) : Res B :=
  match m with
  | inl e => inl e
  | inr a => k a
  end.

Notation "'let*' x ':=' m 'in' k" := (bind m (fun x => k))
  (at level 10, x name, m at level 100, k at level 200).

(** ** Pixel comparison *)

Section PixelDiff.
Context `{Ext : Externals}.

Local Open Scope string_scope.

(** [Image.open(path).convert("RGBA")]. *)
Definition open_rgba (inp : Inputs) (p : Path) : Res Image :=
  match read_bytes inp p with
  | None => raise (FileNotFound (path_str p))
  | Some b =>
      match image_open b with
      | None => raise (CannotIdentifyImage (path_str p))
      | Some img => ok img
      end
  end.

Definition threshold : Z := 30.

(** Lines 194-209: the bounding box of the differing pixels, for a mask of
    [w] columns. *)
Definition detect_regions (w : nat) (diff_mask : Np.mask) (diff_percent : Q)
  : list Region :=
  if Num.gt diff_percent (1 # 2) then
    let row_diff := Np.any_axis1 diff_mask in
    let col_diff := Np.any_axis0 w diff_mask in
    if Np.any row_diff then
      [ {| y_start := Z.of_nat (Np.argmax row_diff);
           y_end := Z.of_nat (length row_diff) - Z.of_nat (Np.argmax (rev row_diff));
           x_start := Z.of_nat (Np.argmax col_diff);
           x_end := Z.of_nat (length col_diff) - Z.of_nat (Np.argmax (rev col_diff));
           area_percent := Num.round2 diff_percent |} ]
    else []
  else [].

(** Lines 168-219, on the two decoded images; [name] is the stem of the
    first path. *)
Definition pixel_diff_images (name : string) (img1 img2 : Image)
  : Res (DiffStats * Write) :=
  let '(img1, img2) := resize_to_match img1 img2 in
  let arr1 := Np.of_image img1 in
  let arr2 := Np.of_image img2 in
  let diff := Np.abs_sub arr1 arr2 in
  let mean_diff := Np.mean (Np.flatten diff) in
  match Np.max (Np.flatten diff) with
  | None => raise ZeroSizeReduction
  | Some max_diff =>
      let diff_mask := Np.mean_axis2_gt diff threshold in
      let diff_percent :=
        (Num.of_nat (Np.count_true diff_mask) / Num.of_nat (Np.mask_size diff_mask) * 100)%Q in
      let diff_img := Np.amplify diff in
      let diff_path := REPORTS_DIR ++ "/diff_" ++ name ++ ".png" in
      let regions := detect_regions (im_width img1) diff_mask diff_percent in
      ok ({| mean_diff := Num.round2 mean_diff;
             max_diff := Num.round2 (inject_Z max_diff);
             diff_percent := Num.round2 diff_percent;
             diff_image := diff_path;
             resolution := size img1;
             regions := regions;
             match_score := Num.round2 (100 - diff_percent) |},
          WriteImage diff_path diff_img)
  end.

Definition pixel_diff (inp : Inputs) (img1_path img2_path : Path)
  : Res (DiffOutcome * list Write) :=
  if negb have_imaging then
    ok (DiffError "pip install Pillow numpy for pixel comparison", [])
  else
    let* img1 := open_rgba inp img1_path in
    let* img2 := open_rgba inp img2_path in
    let* r := pixel_diff_images (stem img1_path) img1 img2 in
    ok (DiffOk (fst r), [snd r]).

End PixelDiff.

(** ** Classification *)

Module Classify.

Local Open Scope string_scope.

(** [score > 95]. *)
Definition is_passing (score : Q) : bool := Num.gt score 95.

(** [80 < score <= 95]. *)
Definition is_warning (score : Q) : bool := Num.gt score 80 && Num.le score 95.

(** [score <= 80]. *)
Definition is_failing (score : Q) : bool := Num.le score 80.

Definition PASS : string := "✅".
Definition WARN : string := "🟡".
Definition FAIL : string := "🔴".

(** ["✅" if score > 95 else "🟡" if score > 80 else "🔴"]. *)
Definition emoji (score : Q) : string :=
  if Num.gt score 95 then PASS else if Num.gt score 80 then WARN else FAIL.

End Classify.

(** ** Dictionaries *)

Module Dict.

(** [d[k] = v]: replaces the value of an existing key in place, appends a
    new key. *)
Fixpoint set {V : Type} (k : string) (v : V) (d : list (string * V))
  : list (string * V) :=
  match d with
  | [] => [(k, v)]
  | (k', v') :: r =>
      if String.eqb k' k then (k', v) :: r else (k', v') :: set k v r
  end.

Fixpoint get {V : Type} (k : string) (d : list (string * V)) : option V :=
  match d with
  | [] => None
  | (k', v') :: r => if String.eqb k' k then Some v' else get k r
  end.

(** [d.values()]. *)
Definition values {V : Type} (d : list (string * V)) : list V := map snd d.

(** [sum(1 for r in vs if p(r))]. *)
Definition count {V : Type} (p : V -> bool) (vs : list V) : nat :=
  length (filter p vs).

End Dict.

(** ** The fields of a screen's record *)

(** [r.get("match_score", 0)]; [None] stands for the integer default. *)
Definition get_match_score (r : ScreenRecord) : option Q :=
  match r with
  | Compared d _ => Some (match_score d)
  | _ => None
  end.

(** [r.get("diff_percent", 0)]. *)
Definition get_diff_percent (r : ScreenRecord) : option Q :=
  match r with
  | Compared d _ => Some (diff_percent d)
  | _ => None
  end.

(** The value of a number that defaults to 0. *)
Definition or_zero (x : option Q) : Q :=
  match x with Some q => q | None => 0 end.

(** ["status" in r]. *)
Definition has_status (r : ScreenRecord) : bool :=
  match r with Missing _ => true | _ => false end.

(** ** The comparison report *)

Section Report.
Context `{Ext : Externals}.

Local Open Scope string_scope.

(** The keys of [SCREEN_MAP], in order. *)
Definition SCREEN_MAP_keys : list string :=
  ["LogoScreen"; "SplashScreen"; "LoadingScreen"].

(** An integer inside an f-string. *)
Definition str_of_nat (n : nat) : string :=
  DecimalString.NilEmpty.string_of_uint (Nat.to_uint n).

(** A number read with default 0 inside an f-string. *)
Definition str_of_num (x : option Q) : string :=
  match x with
  | Some q => float_repr q
  | None => "0"
  end.

Definition NL : string := String (ascii_of_nat 10) EmptyString.

(** ["\n".join(lines)]. *)
Fixpoint join_lines (lines : list string) : string :=
  match lines with
  | [] => ""
  | [l] => l
  | l :: r => l ++ NL ++ join_lines r
  end.

(** The row of one screen in the table. *)
Definition markdown_row (name : string) (data : ScreenRecord) : string :=
  match data with
  | Missing st => "| " ++ name ++ " | — | — | ⚠️ " ++ st ++ " |"
  | _ =>
      let score := get_match_score data in
      let emoji := Classify.emoji (or_zero score) in
      "| " ++ name ++ " | " ++ str_of_num score ++ "% | "
           ++ str_of_num (get_diff_percent data) ++ "% | " ++ emoji ++ " |"
  end.

Definition generate_markdown_report (report : Report) : string :=
  let lines :=
    [ "# GOLFIN Visual QA Report";
      "**Generated:** " ++ timestamp report;
      "**Screens:** " ++ str_of_nat (total (summary report)) ++ " total | "
        ++ "✅ " ++ str_of_nat (passing (summary report)) ++ " passing | "
        ++ "🟡 " ++ str_of_nat (warning (summary report)) ++ " warning | "
        ++ "🔴 " ++ str_of_nat (failing (summary report)) ++ " failing";
      "";
      "## Results";
      "";
      "| Screen | Match | Diff % | Status |";
      "|--------|-------|--------|--------|" ] in
  let lines := app lines (map (fun '(name, data) => markdown_row name data) (screens report)) in
  let lines := app lines
    [ "";
      "## How to Fix";
      "";
      "1. Open diff images in `QA/Reports/diff_*.png` to see highlighted differences";
      "2. For AI-powered analysis, upload Unity + Figma screenshots to the chat";
      "3. Run `Tools → Create GOLFIN UI Scene` in Unity after code fixes";
      "4. Recapture with `Tools → QA → Capture All Screens`";
      "5. Re-run `python3 visual_qa.py --compare` to verify" ] in
  join_lines lines.

(** The two readings of [datetime.now()] in [compare_screens]: the
    [isoformat()] of the first and the [strftime('%Y%m%d_%H%M%S')] of the
    second. *)
Record Clock := mkClock {
  now_isoformat : string;
  now_stamp : string
}.

(** [hashlib.md5(path.read_bytes()).hexdigest()[:12]]. *)
Definition fingerprint (inp : Inputs) (p : Path) : Res string :=
  match read_bytes inp p with
  | None => raise (FileNotFound (path_str p))
  | Some b => ok (substring 0 12 (md5_hexdigest b))
  end.

(** The body of the loop of [compare_screens] for one screen: the record
    stored in [results] and the files written meanwhile. *)
Definition compare_screen (inp : Inputs) (screen_name : string)
  : Res (ScreenRecord * list Write) :=
  let unity_path := UnityPng screen_name in
  let figma_path := FigmaPng screen_name in
  if negb (exists_ inp unity_path) then ok (Missing "missing_unity", [])
  else if negb (exists_ inp figma_path) then ok (Missing "missing_figma", [])
  else
    let* r := pixel_diff inp unity_path figma_path in
    let* uh := fingerprint inp unity_path in
    let* fh := fingerprint inp figma_path in
    let src := {| unity_path := path_str unity_path;
                  figma_path := path_str figma_path;
                  unity_hash := uh;
                  figma_hash := fh |} in
    match fst r with
    | DiffError msg => ok (Uncompared msg src, snd r)
    | DiffOk d => ok (Compared d src, snd r)
    end.

(** The line printed for a screen once it is compared (lines 262-265);
    [diff] is the record just stored in [results]. *)
Definition console_line (screen_name : string) (diff : ScreenRecord) : string :=
  let score := get_match_score diff in
  let emoji := Classify.emoji (or_zero score) in
  "  " ++ emoji ++ " " ++ screen_name ++ ": " ++ str_of_num score ++ "% match ("
       ++ str_of_num (get_diff_percent diff) ++ "% pixels differ)".

(** The loop over [targets], threading [results] and the files written. *)
Fixpoint compare_loop (inp : Inputs) (targets : list string)
  (results : list (string * ScreenRecord)) (written : list Write)
  : Res (list (string * ScreenRecord) * list Write) :=
  match targets with
  | [] => ok (results, written)
  | screen_name :: rest =>
      let* r := compare_screen inp screen_name in
      compare_loop inp rest (Dict.set screen_name (fst r) results) (app written (snd r))
  end.

(** The [summary] dictionary of the report. *)
Definition summarize (results : list (string * ScreenRecord)) : Summary :=
  let score r := or_zero (get_match_score r) in
  {| total := length results;
     passing := Dict.count (fun r => Classify.is_passing (score r)) (Dict.values results);
     warning := Dict.count (fun r => Classify.is_warning (score r)) (Dict.values results);
     failing := Dict.count (fun r => Classify.is_failing (score r)) (Dict.values results);
     missing := Dict.count has_status (Dict.values results) |}.

Definition latest_json : string := REPORTS_DIR ++ "/qa_report_latest.json".
Definition latest_md : string := REPORTS_DIR ++ "/qa_report_latest.md".

(** [compare_screens(screens)]: the report returned and the files written,
    in order.  [None] and the empty list both select every screen. *)
Definition compare_screens (inp : Inputs) (clock : Clock) (screens : option (list string))
  : Res (Report * list Write) :=
  let targets :=
    match screens with
    | Some (s :: r) => s :: r
    | _ => SCREEN_MAP_keys
    end in
  let* lr := compare_loop inp targets [] [] in
  let results := fst lr in
  let report := {| timestamp := now_isoformat clock;
                   screens := results;
                   summary := summarize results |} in
  let report_path := REPORTS_DIR ++ "/qa_report_" ++ now_stamp clock ++ ".json" in
  let md := generate_markdown_report report in
  ok (report,
      app (snd lr) [ WriteJson report_path report;
                     WriteJson latest_json report;
                     WriteText latest_md md ]).

End Report.

(** ** A small instance of the external libraries

    Enough of Pillow, hashlib and float formatting to run the engine on
    concrete inputs: a raw grey-scale file format ([width], [height], then
    one sample per pixel, row by row), nearest-neighbour resampling, a
    digest that spells out the first sixteen bytes, and decimal printing of
    hundredths. *)

Module Sample.

Local Open Scope string_scope.

Definition clamp8 (v : Z) : Z := Z.min 255 (Z.max 0 v).

Definition grey (v : Z) : Pixel :=
  {| red := clamp8 v; green := clamp8 v; blue := clamp8 v; alpha := 255 |}.

Definition clamp_pixel (p : Pixel) : Pixel :=
  {| red := clamp8 (red p); green := clamp8 (green p);
     blue := clamp8 (blue p); alpha := clamp8 (alpha p) |}.

(** The image of [w] by [h] pixels whose pixel at row [y], column [x] is
    [f y x]. *)
Definition raster (w h : nat) (f : nat -> nat -> Pixel) : Image :=
  mkImage w h (map (fun y => map (fun x => clamp_pixel (f y x)) (seq 0 w)) (seq 0 h)).

Definition byte_val (b : byte) : Z := Z.of_N (Byte.to_N b).

Definition decode (bs : list byte) : option Image :=
  match bs with
  | bw :: bh :: body =>
      let w := Z.to_nat (byte_val bw) in
      let h := Z.to_nat (byte_val bh) in
      if ((0 <? w) && (0 <? h))%nat then
        Some (raster w h (fun y x => grey (byte_val (nth (y * w + x) body x00))))
      else None
  | _ => None
  end.

Definition black : Pixel := {| red := 0; green := 0; blue := 0; alpha := 0 |}.

Definition pixel_at (img : Image) (y x : nat) : Pixel :=
  nth x (nth y (im_rows img) []) black.

Definition nearest (img : Image) (t : nat * nat) : Image :=
  raster (fst t) (snd t)
    (fun y x => pixel_at img (y * im_height img / snd t) (x * im_width img / fst t)).

Definition hex_digit (n : N) : ascii :=
  match n with
  | 0%N => "0" | 1%N => "1" | 2%N => "2" | 3%N => "3" | 4%N => "4"
  | 5%N => "5" | 6%N => "6" | 7%N => "7" | 8%N => "8" | 9%N => "9"
  | 10%N => "a" | 11%N => "b" | 12%N => "c" | 13%N => "d" | 14%N => "e"
  | _ => "f"
  end%char.

Definition hex_byte (b : byte) : string :=
  String (hex_digit (Byte.to_N b / 16)) (String (hex_digit (Byte.to_N b mod 16)) "").

Fixpoint digest_of (n : nat) (bs : list byte) : string :=
  match n with
  | O => ""
  | S n' =>
      match bs with
      | [] => "00" ++ digest_of n' []
      | b :: r => hex_byte b ++ digest_of n' r
      end
  end.

Definition digest (bs : list byte) : string := digest_of 16 bs.

Definition str_of_Z (z : Z) : string :=
  DecimalString.NilZero.string_of_int (Z.to_int z).

(** A number of hundredths in decimal, with one or two digits after the
    point. *)
Definition repr_hundredths (q : Q) : string :=
  let k := Qfloor (q * 100) in
  let a := Z.abs k in
  let frac := (a mod 100)%Z in
  (if (k <? 0)%Z then "-" else "") ++ str_of_Z (a / 100) ++ "." ++
  (if (frac mod 10 =? 0)%Z then str_of_Z (frac / 10)
   else str_of_Z (frac / 10) ++ str_of_Z (frac mod 10)).

Definition ext : Externals := {|
  image_open := decode;
  image_resize := nearest;
  md5_hexdigest := digest;
  float_repr := repr_hundredths;
  have_imaging := true
|}.

(** The same libraries on a machine without Pillow and numpy. *)
Definition ext_without_imaging : Externals := {|
  image_open := decode;
  image_resize := nearest;
  md5_hexdigest := digest;
  float_repr := repr_hundredths;
  have_imaging := false
|}.

(** An image file in the raw format. *)
Definition file (w h : nat) (samples : list nat) : list byte :=
  map (fun n => match Byte.of_nat n with Some b => b | None => xff end)
      (w :: h :: samples).

(** A directory holding the listed files. *)
Fixpoint dir (files : list (string * list byte)) (name : string) : option (list byte) :=
  match files with
  | [] => None
  | (n, b) :: r => if String.eqb n name then Some b else dir r name
  end.

(** Three screens: [A] with identical images, [B] with no captured image,
    [C] with one differing pixel out of four. *)
Definition inputs : Inputs :=
  {| unity_files := dir [("A", file 2 2 [10; 20; 30; 40]%nat);
                         ("C", file 2 2 [0; 0; 0; 0]%nat)];
     figma_files := dir [("A", file 2 2 [10; 20; 30; 40]%nat);
                         ("B", file 2 2 [1; 2; 3; 4]%nat);
                         ("C", file 2 2 [0; 200; 0; 0]%nat)] |}.

(** A screenshot directory without files. *)
Definition empty_dir : string -> option (list byte) := fun _ => None.

End Sample.

(** ** The scores in floating point *)

Section FloatArithmetic.
Local Open Scope Q_scope.

(** The float arithmetic that lines 187, 214 and 218 of [pixel_diff] use,
    over a type [F] of floats.  [value] is the rational number a finite
    float denotes. *)
Class Float64 (F : Type) := {
  of_count : nat -> F;      (* an integer count, converted by [/] *)
  hundred : F;              (* the literal [100] *)
  fdiv : F -> F -> F;       (* [x / y] *)
  fmul : F -> F -> F;       (* [x * y] *)
  fsub : F -> F -> F;       (* [x - y] *)
  fround2 : F -> F;         (* [round(x, 2)] *)
  finite : F -> bool;       (* neither an infinity nor NaN *)
  value : F -> Q
}.

Section Scores.
Context {F : Type} {A : Float64 F}.

(** Line 187: [(diff_mask.sum() / diff_mask.size) * 100]. *)
Definition float_diff_percent (count size : nat) : F :=
  fmul (fdiv (of_count count) (of_count size)) hundred.

(** Lines 214 and 218: [round(diff_percent, 2)] and
    [round(100 - diff_percent, 2)], the reported [diff_percent] and
    [match_score]. *)
Definition reported_scores (count size : nat) : F * F :=
  let diff_percent := float_diff_percent count size in
  (fround2 diff_percent, fround2 (fsub hundred diff_percent)).

End Scores.

(** The exact arithmetic of the embedding. *)
Definition exact_arith : Float64 Q := {|
  of_count := Num.of_nat;
  hundred := 100;
  fdiv := Qdiv;
  fmul := Qmult;
  fsub := Qminus;
  fround2 := Num.round2;
  finite := fun _ => true;
  value := fun x => x
|}.

End FloatArithmetic.

Module Binary64.

Local Open Scope Q_scope.

(** The rational a double denotes. *)
Definition to_Q (x : PrimFloat.float) : Q :=
  match FloatOps.Prim2SF x with
  | SpecFloat.S754_finite s m e =>
      let v := match e with
               | Z0 => inject_Z (Zpos m)
               | Zpos p => inject_Z (Zpos m * 2 ^ Zpos p)
               | Zneg p => Zpos m # (2 ^ p)
               end in
      if s then - v else v
  | _ => 0
  end.

(** An integer of magnitude below [2^63] as a double. *)
Definition of_Z (z : Z) : PrimFloat.float :=
  if (z <? 0)%Z then PrimFloat.opp (PrimFloat.of_uint63 (Uint63.of_Z (- z)))
  else PrimFloat.of_uint63 (Uint63.of_Z z).

(** [numpy.rint]: the nearest integer, ties to the even one. *)
Definition np_rint (x : PrimFloat.float) : PrimFloat.float := of_Z (Num.rint (to_Q x)).

(** [round(x, 2)] of a [numpy.float64]: numpy multiplies by [10**2], rounds
    to the nearest integer and divides by [10**2]. *)
Definition np_round2 (x : PrimFloat.float) : PrimFloat.float :=
  PrimFloat.div (np_rint (PrimFloat.mul x (of_Z 100))) (of_Z 100).

(** [round(x, 2)] of a Python [float]: the double nearest to the decimal
    rounding of the exact value of [x]. *)
Definition py_round2 (x : PrimFloat.float) : PrimFloat.float :=
  PrimFloat.div (of_Z (Num.rint (to_Q x * 100))) (of_Z 100).

(** IEEE 754 binary64, round to nearest even. *)
Definition arith : Float64 PrimFloat.float := {|
  of_count := fun n => of_Z (Z.of_nat n);
  hundred := of_Z 100;
  fdiv := PrimFloat.div;
  fmul := PrimFloat.mul;
  fsub := PrimFloat.sub;
  fround2 := np_round2;
  finite := PrimFloat.is_finite;
  value := to_Q
|}.

(** The same with Python's rounding of a float. *)
Definition py_arith : Float64 PrimFloat.float := {|
  of_count := fun n => of_Z (Z.of_nat n);
  hundred := of_Z 100;
  fdiv := PrimFloat.div;
  fmul := PrimFloat.mul;
  fsub := PrimFloat.sub;
  fround2 := py_round2;
  finite := PrimFloat.is_finite;
  value := to_Q
|}.

(** [abs(a + b - 100) <= 0.01], evaluated in doubles. *)
Definition within_tolerance (a b : PrimFloat.float) : bool :=
  PrimFloat.leb (PrimFloat.abs (PrimFloat.sub (PrimFloat.add a b) (of_Z 100)))
                (PrimFloat.div (of_Z 1) (of_Z 100)).

End Binary64.

Section FloatRounding.
Local Open Scope Q_scope.

(** The unit roundoff of binary64, its smallest positive number and its
    largest finite number. *)
Definition unit_roundoff : Q := 1 # (2 ^ 53).
Definition min_subnormal : Q := 1 # (2 ^ 1074).
Definition max_finite : Q := inject_Z ((2 ^ 53 - 1) * 2 ^ 971).

(** An operation whose exact result [e] does not overflow returns a finite
    float [r] whose error is at most the unit roundoff relative to [e], or
    the smallest positive float where [e] underflows. *)
Definition rounds_to {F : Type} {A : Float64 F} (r : F) (e : Q) : Prop :=
  (Qabs e <= max_finite ->
   finite r = true /\
   Qabs (value r - e) <= unit_roundoff * Qabs e + min_subnormal)%Q.

(** IEEE 754 arithmetic in round-to-nearest: every operation returns the
    float nearest to its exact result.  [round(x, 2)] returns the float
    nearest to [k / 100] for an integer [k] nearest to [100 x], up to the
    rounding of the product [100 x] that numpy computes first. *)
Class Float64Laws {F : Type} (A : Float64 F) : Prop := {
  of_count_exact : forall n,
    (Z.of_nat n <= 2 ^ 53)%Z ->
    finite (of_count n) = true /\ value (of_count n) == inject_Z (Z.of_nat n);
  hundred_exact : finite hundred = true /\ value hundred == 100;
  fdiv_near : forall x y,
    finite x = true -> finite y = true -> ~ value y == 0 ->
    rounds_to (fdiv x y) (value x / value y);
  fmul_near : forall x y,
    finite x = true -> finite y = true -> rounds_to (fmul x y) (value x * value y);
  fsub_near : forall x y,
    finite x = true -> finite y = true -> rounds_to (fsub x y) (value x - value y);
  fround2_near : forall x,
    finite x = true -> (Qabs (value x * 100) <= max_finite)%Q ->
    exists k : Z,
      (Qabs (inject_Z k - value x * 100)
         <= (1 # 2) + unit_roundoff * Qabs (value x * 100) + min_subnormal)%Q /\
      rounds_to (fround2 x) (inject_Z k / 100)
}.

(** The amended bound of the two scores, decided in binary64: both are
    finite, they are the doubles nearest to [k / 100] and [k' / 100] for
    the integers [k], [k'] nearest to a hundred times their values,
    [0 <= k, k' <= 10000], [k + k'] is within one of 10000, and the sum
    of the two doubles is within [0.01 + 10^-10] of 100. *)
Definition complementary_in_binary64 (A : Float64 PrimFloat.float)
  (count size : nat) : bool :=
  let r := reported_scores (A := A) count size in
  let k := Num.rint (Binary64.to_Q (fst r) * 100) in
  let k' := Num.rint (Binary64.to_Q (snd r) * 100) in
  PrimFloat.is_finite (fst r) && PrimFloat.is_finite (snd r) &&
  PrimFloat.eqb (fst r) (PrimFloat.div (Binary64.of_Z k) (Binary64.of_Z 100)) &&
  PrimFloat.eqb (snd r) (PrimFloat.div (Binary64.of_Z k') (Binary64.of_Z 100)) &&
  (0 <=? k)%Z && (k <=? 10000)%Z && (0 <=? k')%Z && (k' <=? 10000)%Z &&
  (9999 <=? k + k')%Z && (k + k' <=? 10001)%Z &&
  Qle_bool (Qabs (Binary64.to_Q (snd r) + Binary64.to_Q (fst r) - 100))
           ((1 # 100) + (1 # 10000000000)).

(** The pairs [(count, size)] with [1 <= size <= n] and [count <= size]. *)
Definition all_pairs (n : nat) : list (nat * nat) :=
  flat_map (fun s => map (fun c => (c, s)) (seq 0 (S s))) (seq 1 n).

End FloatRounding.

Module SampleTie.

Local Open Scope string_scope.

(** A screen of 80 x 50 pixels whose captured image is black and whose
    reference image has eleven bright pixels: 11 of 4000 differ. *)
Definition inputs : Inputs :=
  {| unity_files := Sample.dir [("A", Sample.file 80 50 (repeat 0%nat 4000))];
     figma_files :=
       Sample.dir [("A", Sample.file 80 50 (repeat 250%nat 11 ++ repeat 0%nat 3989))] |}.

End SampleTie.

(** ** What the statements below speak of *)

(** The larger width and the larger height, each on its own. *)
Definition per_axis_max (a b : nat * nat) : nat * nat :=
  (Nat.max (fst a) (fst b), Nat.max (snd a) (snd b)).

(** The mask has a differing pixel at row [y], column [x]. *)
Definition differs (m : Np.mask) (y x : nat) : Prop :=
  nth x (nth y m []) false = true.

Definition row_differs (m : Np.mask) (y : nat) : Prop := exists x, differs m y x.
Definition col_differs (m : Np.mask) (x : nat) : Prop := exists y, differs m y x.

(** [i] is the least index that satisfies [P]. *)
Definition first_such (P : nat -> Prop) (i : Z) : Prop :=
  exists n, i = Z.of_nat n /\ P n /\ forall k, P k -> (n <= k)%nat.

(** [i] is the greatest index that satisfies [P]. *)
Definition last_such (P : nat -> Prop) (i : Z) : Prop :=
  exists n, i = Z.of_nat n /\ P n /\ forall k, P k -> (k <= n)%nat.

(** Every row of the mask has [w] entries. *)
Definition rect (w : nat) (m : Np.mask) : bool :=
  forallb (fun row => (length row =? w)%nat) m.

Section Intermediate.
Context {Ext : Externals}.

(** The array [diff], the mask [diff_mask] and the unrounded
    [diff_percent] that [pixel_diff] computes for two decoded images. *)
Definition diff_of (img1 img2 : Image) : Np.array3 :=
  Np.abs_sub (Np.of_image (fst (resize_to_match img1 img2)))
             (Np.of_image (snd (resize_to_match img1 img2))).

Definition mask_of (img1 img2 : Image) : Np.mask :=
  Np.mean_axis2_gt (diff_of img1 img2) threshold.

Definition percent_of_mask (m : Np.mask) : Q :=
  (Num.of_nat (Np.count_true m) / Num.of_nat (Np.mask_size m) * 100)%Q.

End Intermediate.

(** The path a file is written to. *)
Definition write_path (w : Write) : string :=
  match w with
  | WriteImage p _ => p
  | WriteJson p _ => p
  | WriteText p _ => p
  end.

(** What a path holds after the writes: the last file written to it. *)
Definition last_written (path : string) (ws : list Write) : option Write :=
  find (fun w => String.eqb (write_path w) path) (rev ws).

(** ** What the further statements speak of *)

(** [targets] of [compare_screens]: the screens asked for, or every key of
    [SCREEN_MAP] when none is. *)
Definition targets_of (screens : option (list string)) : list string :=
  match screens with
  | Some (s :: r) => s :: r
  | _ => SCREEN_MAP_keys
  end.

(** The keys of a dictionary after [d[k] = ...]. *)
Definition add_key (keys : list string) (k : string) : list string :=
  if existsb (String.eqb k) keys then keys else keys ++ [k].

(** The keys of a dictionary filled by assigning to the keys of [l] in
    order: every key once, at the place of its first assignment. *)
Definition first_occurrences (l : list string) : list string :=
  fold_left add_key l [].

(** The path of the diff image of a screen. *)
Definition diff_path_of (name : string) : string :=
  (REPORTS_DIR ++ "/diff_" ++ name ++ ".png")%string.

(** The image has at least one pixel. *)
Definition nonempty (img : Image) : Prop :=
  (0 < im_width img)%nat /\ (0 < im_height img)%nat.

(** Both files of the screen exist. *)
Definition both_exist (inp : Inputs) (name : string) : Prop :=
  exists ub fb, unity_files inp name = Some ub /\ figma_files inp name = Some fb.

(** Both files of the screen decode, to images with at least one pixel. *)
Definition decodable {Ext : Externals} (inp : Inputs) (name : string) : Prop :=
  forall ub fb,
    unity_files inp name = Some ub -> figma_files inp name = Some fb ->
    exists i1 i2, image_open ub = Some i1 /\ image_open fb = Some i2 /\
                  nonempty i1 /\ nonempty i2.

(** The pixel of an image at row [y], column [x], if there is one. *)
Definition pixel_of (img : Image) (y x : nat) : option Pixel :=
  match nth_error (im_rows img) y with
  | Some row => nth_error row x
  | None => None
  end.

(** The sum over the four channels of the absolute differences of two
    pixels. *)
Definition channel_distance (p q : Pixel) : Z :=
  Z.abs (red p - red q) + Z.abs (green p - green q) +
  Z.abs (blue p - blue q) + Z.abs (alpha p - alpha q).

(** An 8-bit value. *)
Definition in_byte (v : Z) : Prop := (0 <= v <= 255)%Z.

(** ** The command line: tokens

    [get_token], over the three places it reads.  A text is a string of
    characters below U+0100. *)

Module Py.

Local Open Scope string_scope.

(** The truth value of an optional string: [None] and [""] are false. *)
Definition truthy (s : option string) : bool :=
  match s with
  | Some (String _ _) => true
  | _ => false
  end.

(** [a or b]. *)
Definition or_ (a b : option string) : option string :=
  if truthy a then a else b.

(** [c.isspace()] for a character below U+0100. *)
Definition isspace (c : ascii) : bool :=
  let n := nat_of_ascii c in
  ((9 <=? n) && (n <=? 13) || (28 <=? n) && (n <=? 32) || (n =? 133) || (n =? 160))%nat.

(** [s.lstrip()]. *)
Fixpoint lstrip (s : string) : string :=
  match s with
  | String c r => if isspace c then lstrip r else s
  | EmptyString => EmptyString
  end.

(** [s.rstrip()]. *)
Fixpoint rstrip (s : string) : string :=
  match s with
  | EmptyString => EmptyString
  | String c r =>
      match rstrip r with
      | EmptyString => if isspace c then EmptyString else String c EmptyString
      | r' => String c r'
      end
  end.

(** [s.strip()]. *)
Definition strip (s : string) : string := rstrip (lstrip s).

End Py.

(** Why a command stops before its end. *)
Inductive Abort :=
| SystemExit (code : Z)
| HTTPError (status : Z)
| RequestException
| ValueError
| BadResponse.

(** Where [get_token] looks: [args.token], the environment variable
    [FIGMA_TOKEN], and the text of the file [QA/.figma_token] if it
    exists. *)
Record TokenSources := mkTokenSources {
  arg_token : option string;
  env_token : option string;
  token_file : option string
}.

Definition get_token (src : TokenSources) : Abort + string :=
  let token := Py.or_ (arg_token src) (env_token src) in
  let token :=
    if negb (Py.truthy token) then
      match token_file src with
      | Some text => Some (Py.strip text)
      | None => token
      end
    else token in
  match token with
  | Some (String c r) => inr (String c r)
  | _ => inl (SystemExit 1)
  end.

(** The string neither starts nor ends with whitespace. *)
Definition trimmed (s : string) : Prop :=
  Py.lstrip s = s /\ Py.rstrip s = s.

(** ** The Figma export

    [export_figma_screens] over a network that is a parameter.  The bodies
    of the responses are taken in the shapes the Figma API gives them (a
    document with pages, a map of rendered images); a body of another shape
    makes [r.json()] or a subscript raise, which is [BadResponse] here.
    Whatever [requests.get] raises is [RequestException].  Creating the
    directory and printing are left out. *)

Module Figma.

Local Open Scope string_scope.

Definition FIGMA_FILE_KEY : string := "5gEAHjl6xAtW8iYY7NMvWd".
Definition FIGMA_API : string := "https://api.figma.com/v1".

(** A value of [SCREEN_MAP]. *)
Record ScreenInfo := mkScreenInfo { page : string; node_id : string }.

Definition SCREEN_MAP : list (string * ScreenInfo) :=
  [ ("LogoScreen",    {| page := "Logo";          node_id := "2622:843" |});
    ("SplashScreen",  {| page := "Splash Screen"; node_id := "2032:327" |});
    ("LoadingScreen", {| page := "Loading";       node_id := "4096:1181" |}) ].

(** A value of the [params] of a request. *)
Inductive ParamValue :=
| PStr (s : string)
| PInt (n : Z).

(** The arguments of [requests.get]. *)
Record Request := mkRequest {
  url : string;
  headers : list (string * string);
  params : list (string * ParamValue)
}.

(** A child of the document: a page, with the ids of its own children
    ([page.get("children", [])]). *)
Record PageNode := mkPageNode {
  page_name : string;
  page_id : string;
  page_children : list string
}.

(** What [r.json()] gives, as far as the export tells the shapes apart: the
    file ([{"document": {"children": pages}}]), the rendered images
    ([{"images": {node id: url or null}}]), another JSON object, or no JSON
    object at all. *)
Inductive Body :=
| FileBody (pages : list PageNode)
| ImagesBody (images : list (string * option string))
| ObjectBody
| RawBody.

(** A response.  [retry_after] is what [int(r.headers.get('Retry-After'))]
    makes of the header: [None] without the header, [Some None] when the
    header is not an integer, [Some (Some n)] otherwise. *)
Record Response := mkResponse {
  status_code : Z;
  retry_after : option (option Z);
  body : Body;
  content : list byte
}.

(** The network: the reply to a request after the requests made before it,
    [None] when [requests.get] raises. *)
Definition Network := list Request -> Request -> option Response.

(** What [export_meta.json] holds. *)
Record ExportMeta := mkExportMeta {
  exported_at : string;
  file_key : string;
  meta_scale : Z;
  meta_screens : list (string * string)
}.

(** The state an export works on: the screenshot directories, the requests
    made and the sleeps taken so far (oldest first), and the metadata files
    written. *)
Record World := mkWorld {
  files : Inputs;
  sent : list Request;
  slept : list Z;
  metas : list ExportMeta
}.

(** A step of the export: a result or an exception, and the state after. *)
Definition M (A : Type) : Type := World -> (Abort + A) * World.

Definition ret {A : Type} (a : A) : M A := fun w => (inr a, w).
Definition throw {A : Type} (e : Abort) : M A := fun w => (inl e, w).

Definition bind {A B : Type} (m : M A) (k : A -> M B) : M B :=
  fun w =>
    match m w with
    | (inl e, w') => (inl e, w')
    | (inr a, w') => k a w'
    end.

Notation "'do' x '<-' m ';' k" := (bind m (fun x => k))
  (at level 10, x name, m at level 100, k at level 200).

(** [requests.get(...)]. *)
Definition http_get (net : Network) (req : Request) : M Response :=
  fun w =>
    let w' := {| files := files w; sent := sent w ++ [req];
                 slept := slept w; metas := metas w |} in
    match net (sent w) req with
    | Some r => (inr r, w')
    | None => (inl RequestException, w')
    end.

(** [time.sleep(wait)]. *)
Definition sleep (wait : Z) : M unit :=
  fun w =>
    if (wait <? 0)%Z then (inl ValueError, w)
    else (inr tt, {| files := files w; sent := sent w;
                     slept := slept w ++ [wait]; metas := metas w |}).

(** [r.raise_for_status()]. *)
Definition raise_for_status (r : Response) : M unit :=
  if ((400 <=? status_code r) && (status_code r <? 600))%Z
  then throw (HTTPError (status_code r))
  else ret tt.

(** A request to the API, repeated once after the wait the server asks for
    when it answers 429. *)
Definition get_retrying (net : Network) (req : Request) : M Response :=
  do r <- http_get net req;
  if (status_code r =? 429)%Z then
    do wait <- match retry_after r with
               | None => ret 30%Z
               | Some None => throw ValueError
               | Some (Some n) => ret n
               end;
    do _ <- sleep wait;
    http_get net req
  else ret r.

(** [out_path.write_bytes(content)] for [FIGMA_DIR/<screen_name>.png]. *)
Definition write_figma_png (screen_name : string) (bytes : list byte) : M unit :=
  fun w =>
    (inr tt,
     {| files := {| unity_files := unity_files (files w);
                    figma_files := fun n => if String.eqb n screen_name then Some bytes
                                            else figma_files (files w) n |};
        sent := sent w; slept := slept w; metas := metas w |}).

(** [(FIGMA_DIR / "export_meta.json").write_text(json.dumps(meta))]. *)
Definition write_meta (meta : ExportMeta) : M unit :=
  fun w => (inr tt, {| files := files w; sent := sent w; slept := slept w;
                       metas := metas w ++ [meta] |}).

(** The inner loop over [targets] for one page. *)
Definition match_page (pg : PageNode) (targets : list (string * ScreenInfo))
  (node_ids : list (string * string)) : list (string * string) :=
  fold_left
    (fun ids t =>
       if String.eqb (page_name pg) (page (snd t)) then
         match page_children pg with
         | first :: _ => Dict.set (fst t) first ids
         | [] => Dict.set (fst t) (page_id pg) ids
         end
       else ids)
    targets node_ids.

(** The loop over the pages of the document. *)
Definition find_nodes (pages : list PageNode) (targets : list (string * ScreenInfo))
  : list (string * string) :=
  fold_left (fun ids pg => match_page pg targets ids) pages [].

(** [",".join(l)]. *)
Fixpoint join_comma (l : list string) : string :=
  match l with
  | [] => ""
  | [s] => s
  | s :: r => s ++ "," ++ join_comma r
  end.

(** The loop over [node_ids] that downloads the images. *)
Fixpoint download (net : Network) (images : list (string * option string))
  (node_ids : list (string * string)) (exported : list (string * string))
  : M (list (string * string)) :=
  match node_ids with
  | [] => ret exported
  | (screen_name, nid) :: rest =>
      match Dict.get nid images with
      | Some (Some (String c u)) =>
          do img_r <- http_get net {| url := String c u; headers := []; params := [] |};
          do _ <- raise_for_status img_r;
          let out_path := FIGMA_DIR ++ "/" ++ screen_name ++ ".png" in
          do _ <- write_figma_png screen_name (content img_r);
          download net images rest (Dict.set screen_name out_path exported)
      | _ => download net images rest exported
      end
  end.

Definition file_request (token : string) : Request :=
  {| url := FIGMA_API ++ "/files/" ++ FIGMA_FILE_KEY ++ "?depth=2";
     headers := [("X-Figma-Token", token)];
     params := [] |}.

Definition images_request (token ids_str : string) (scale : Z) : Request :=
  {| url := FIGMA_API ++ "/images/" ++ FIGMA_FILE_KEY;
     headers := [("X-Figma-Token", token)];
     params := [("ids", PStr ids_str); ("scale", PInt scale); ("format", PStr "png")] |}.

(** [targets]: the screens of [SCREEN_MAP] asked for, or all of them. *)
Definition export_targets (screens : option (list string)) : list (string * ScreenInfo) :=
  match screens with
  | Some (s :: r) => filter (fun kv => existsb (String.eqb (fst kv)) (s :: r)) SCREEN_MAP
  | _ => SCREEN_MAP
  end.

(** [export_figma_screens(token, screens, scale)], on a network [net] and
    with [now] the [isoformat()] of the time the metadata is written. *)
Definition export_figma_screens (net : Network) (now : string)
  (token : string) (screens : option (list string)) (scale : Z)
  : M (list (string * string)) :=
  let targets := export_targets screens in
  match targets with
  | [] => ret []
  | _ :: _ =>
      do r <- get_retrying net (file_request token);
      do _ <- raise_for_status r;
      do pages <- match body r with
                  | FileBody pages => ret pages
                  | _ => throw BadResponse
                  end;
      let node_ids := find_nodes pages targets in
      match node_ids with
      | [] => ret []
      | _ :: _ =>
          let ids_str := join_comma (Dict.values node_ids) in
          do r <- get_retrying net (images_request token ids_str scale);
          do _ <- raise_for_status r;
          do images <- match body r with
                       | ImagesBody images => ret images
                       | FileBody _ => ret []
                       | ObjectBody => ret []
                       | RawBody => throw BadResponse
                       end;
          do exported <- download net images node_ids [];
          do _ <- write_meta {| exported_at := now;
                                file_key := FIGMA_FILE_KEY;
                                meta_scale := scale;
                                meta_screens := exported |};
          ret exported
      end
  end.

End Figma.

(** From [w] to [w']: the captured screenshots are untouched, no reference
    image has gone, no metadata file has gone, and at most [nreq] requests
    and [nsleep] sleeps have been added. *)
Definition advances (w w' : Figma.World) (nreq nsleep : nat) : Prop :=
  unity_files (Figma.files w') = unity_files (Figma.files w) /\
  (forall n, figma_files (Figma.files w) n <> None ->
             figma_files (Figma.files w') n <> None) /\
  (exists reqs, Figma.sent w' = Figma.sent w ++ reqs /\ (length reqs <= nreq)%nat) /\
  (exists sl, Figma.slept w' = Figma.slept w ++ sl /\ (length sl <= nsleep)%nat).

(** The wait a 429 response asks for: 30 seconds without a [Retry-After]
    header, nothing when the header is not an integer. *)
Definition asked_wait (r : Figma.Response) : option Z :=
  match Figma.retry_after r with
  | None => Some 30%Z
  | Some None => None
  | Some (Some n) => Some n
  end.

(** The metadata file of an export that returned [exported]. *)
Definition meta_of (now : string) (scale : Z) (exported : list (string * string))
  : Figma.ExportMeta :=
  {| Figma.exported_at := now;
     Figma.file_key := Figma.FIGMA_FILE_KEY;
     Figma.meta_scale := scale;
     Figma.meta_screens := exported |}.

(** The node exported for a page: its first child, or the page itself when
    it has no children. *)
Definition node_of (pg : Figma.PageNode) : string :=
  match Figma.page_children pg with
  | first :: _ => first
  | [] => Figma.page_id pg
  end.

(** The last page of the document that bears the name. *)
Definition last_page_named (name : string) (pages : list Figma.PageNode)
  : option Figma.PageNode :=
  find (fun pg => String.eqb (Figma.page_name pg) name) (rev pages).

(** ** A small network

    A Figma file of three pages, a server that answers the first request
    with 429 and [Retry-After: 5], renders one of the two nodes asked for,
    and serves two bytes at every other address; and a server that always
    answers 429. *)

Module SampleNet.

Local Open Scope string_scope.

Definition pages : list Figma.PageNode :=
  [ Figma.mkPageNode "Logo" "1:1" ["1:2"; "1:3"];
    Figma.mkPageNode "Loading" "2:1" [];
    Figma.mkPageNode "Other" "3:1" ["3:2"] ].

Definition net : Figma.Network :=
  fun history req =>
    if String.eqb (Figma.url req) (Figma.url (Figma.file_request "")) then
      match history with
      | [] => Some (Figma.mkResponse 429 (Some (Some 5%Z)) Figma.RawBody [])
      | _ => Some (Figma.mkResponse 200 None (Figma.FileBody pages) [])
      end
    else if String.eqb (Figma.url req) (Figma.url (Figma.images_request "" "" 1)) then
      Some (Figma.mkResponse 200 None
              (Figma.ImagesBody [("1:2", Some "https://cdn.example/a.png"); ("2:1", None)]) [])
    else Some (Figma.mkResponse 200 None Figma.RawBody [x01; x02]).

Definition busy : Figma.Network :=
  fun _ _ => Some (Figma.mkResponse 429 None Figma.RawBody []).

Definition world : Figma.World :=
  Figma.mkWorld (mkInputs Sample.empty_dir Sample.empty_dir) [] [] [].

End SampleNet.

(** * Properties *)

(** ** Rounding *)

Section Rounding.
Local Open Scope Q_scope.

Lemma rint_near (x : Q) :
  inject_Z (Num.rint x) - (1 # 2) <= x /\ x <= inject_Z (Num.rint x) + (1 # 2).
Proof.
  pose proof (Qfloor_le x) as Hlo.
  pose proof (Qlt_floor x) as Hhi.
  rewrite inject_Z_plus in Hhi. change (inject_Z 1) with 1 in Hhi.
  unfold Num.rint.
  destruct (Qcompare (x - inject_Z (Qfloor x)) (1 # 2)) eqn:Hc.
  - apply Qeq_alt in Hc.
    destruct (Z.even (Qfloor x));
      [| rewrite inject_Z_plus; change (inject_Z 1) with 1]; lra.
  - apply Qlt_alt in Hc. lra.
  - apply Qgt_alt in Hc. rewrite inject_Z_plus. change (inject_Z 1) with 1. lra.
Qed.

Lemma rint_comp (x y : Q) : x == y -> Num.rint x = Num.rint y.
Proof.
  intros E. unfold Num.rint.
  rewrite (Qfloor_comp x y E).
  assert (Hc : Qcompare (x - inject_Z (Qfloor y)) (1 # 2)
               = Qcompare (y - inject_Z (Qfloor y)) (1 # 2)).
  { apply Qcompare_comp; [rewrite E|]; reflexivity. }
  rewrite Hc. reflexivity.
Qed.

Lemma rint_Z (z : Z) : Num.rint (inject_Z z) = z.
Proof.
  unfold Num.rint. rewrite Qfloor_Z.
  assert (Hc : Qcompare (inject_Z z - inject_Z z) (1 # 2) = Lt).
  { apply (proj1 (Qlt_alt _ _)). lra. }
  rewrite Hc. reflexivity.
Qed.

Lemma rint_range (x : Q) (a b : Z) :
  inject_Z a <= x -> x <= inject_Z b -> (a <= Num.rint x <= b)%Z.
Proof.
  intros Ha Hb.
  assert (Hfa : (a <= Qfloor x)%Z).
  { rewrite <- (Qfloor_Z a). apply Qfloor_resp_le. exact Ha. }
  assert (Hfb : (Qfloor x <= b)%Z).
  { rewrite <- (Qfloor_Z b). apply Qfloor_resp_le. exact Hb. }
  unfold Num.rint.
  destruct (Qcompare (x - inject_Z (Qfloor x)) (1 # 2)) eqn:Hc.
  - apply Qeq_alt in Hc.
    destruct (Z.even (Qfloor x)); [lia|].
    destruct (Z.eq_dec (Qfloor x) b) as [E|N]; [|lia].
    rewrite E in Hc. lra.
  - lia.
  - apply Qgt_alt in Hc.
    destruct (Z.eq_dec (Qfloor x) b) as [E|N]; [|lia].
    rewrite E in Hc. lra.
Qed.

Lemma hundredths (z : Z) : (z # 100) == inject_Z z * (1 # 100).
Proof. unfold Qeq. simpl. lia. Qed.

Lemma round2_comp (x y : Q) : x == y -> Num.round2 x = Num.round2 y.
Proof.
  intros E. unfold Num.round2. f_equal. apply rint_comp. rewrite E. reflexivity.
Qed.

Lemma round2_near (x : Q) :
  Num.round2 x - (1 # 200) <= x /\ x <= Num.round2 x + (1 # 200).
Proof.
  unfold Num.round2. rewrite hundredths.
  pose proof (rint_near (x * 100)). lra.
Qed.

Lemma round2_Z (z : Z) : Num.round2 (inject_Z z) == inject_Z z.
Proof.
  unfold Num.round2.
  assert (E : inject_Z z * 100 == inject_Z (z * 100)).
  { rewrite inject_Z_mult. reflexivity. }
  rewrite (rint_comp _ _ E), rint_Z, hundredths, inject_Z_mult.
  change (inject_Z 100) with 100. lra.
Qed.

Lemma round2_range (x : Q) : 0 <= x -> x <= 100 -> 0 <= Num.round2 x <= 100.
Proof.
  intros H0 H100. unfold Num.round2. rewrite hundredths.
  assert (Hr : (0 <= Num.rint (x * 100) <= 10000)%Z).
  { apply rint_range.
    - change (inject_Z 0) with 0. lra.
    - change (inject_Z 10000) with 10000. lra. }
  destruct Hr as [Hr0 Hr1].
  rewrite Zle_Qle in Hr0, Hr1.
  change (inject_Z 0) with 0 in Hr0. change (inject_Z 10000) with 10000 in Hr1.
  lra.
Qed.

Lemma gt_true (a b : Q) : Num.gt a b = true <-> b < a.
Proof.
  unfold Num.gt. rewrite negb_true_iff, <- not_true_iff_false, Qle_bool_iff.
  split; [apply Qnot_le_lt | intros H1 H2; apply (Qlt_not_le _ _ H1 H2)].
Qed.

Lemma gt_false (a b : Q) : Num.gt a b = false <-> a <= b.
Proof.
  unfold Num.gt. rewrite negb_false_iff, Qle_bool_iff. reflexivity.
Qed.

Lemma le_true (a b : Q) : Num.le a b = true <-> a <= b.
Proof. unfold Num.le. apply Qle_bool_iff. Qed.

End Rounding.

(** ** The sample libraries keep Pillow's guarantees *)

Lemma sample_ok_clamp8 (v : Z) : sample_ok (Sample.clamp8 v) = true.
Proof.
  unfold sample_ok, Sample.clamp8.
  apply andb_true_intro; split; apply Z.leb_le; lia.
Qed.

Lemma pixel_ok_clamp (p : Pixel) : pixel_ok (Sample.clamp_pixel p) = true.
Proof.
  unfold pixel_ok, Sample.clamp_pixel; simpl.
  rewrite !sample_ok_clamp8. reflexivity.
Qed.

Lemma raster_wf (w h : nat) (f : nat -> nat -> Pixel) :
  wf_image (Sample.raster w h f) = true.
Proof.
  unfold wf_image, Sample.raster; simpl.
  rewrite length_map, length_seq, Nat.eqb_refl; simpl.
  apply forallb_forall. intros row Hrow.
  apply in_map_iff in Hrow. destruct Hrow as [y [<- _]].
  rewrite length_map, length_seq, Nat.eqb_refl; simpl.
  apply forallb_forall. intros p Hp.
  apply in_map_iff in Hp. destruct Hp as [x [<- _]].
  apply pixel_ok_clamp.
Qed.

Lemma raster_size (w h : nat) (f : nat -> nat -> Pixel) :
  size (Sample.raster w h f) = (w, h).
Proof. reflexivity. Qed.

#[export] Instance sample_laws : PillowLaws Sample.ext.
Proof.
  split.
  - intros b img. simpl. unfold Sample.decode.
    destruct b as [|bw [|bh body]]; try discriminate.
    destruct (_ && _)%bool; [|discriminate].
    intros [= <-]. apply raster_wf.
  - intros img [w h]. reflexivity.
  - intros img t. apply raster_wf.
Qed.

(** ** Scoring and classification *)

Section Classification.
Local Open Scope Q_scope.

Lemma emoji_cases (score : Q) :
  (Classify.emoji score = Classify.PASS /\ Classify.is_passing score = true) \/
  (Classify.emoji score = Classify.WARN /\ Classify.is_warning score = true) \/
  (Classify.emoji score = Classify.FAIL /\ Classify.is_failing score = true).
Proof.
  unfold Classify.emoji, Classify.is_passing, Classify.is_warning, Classify.is_failing.
  destruct (Num.gt score 95) eqn:H95; [left; auto|].
  destruct (Num.gt score 80) eqn:H80.
  - right; left. split; [reflexivity|].
    apply gt_false in H95. apply andb_true_intro; split; [reflexivity|].
    apply le_true. exact H95.
  - right; right. split; [reflexivity|].
    apply gt_false in H80. apply le_true. exact H80.
Qed.

Lemma bands_exclusive (score : Q) :
  (Classify.is_passing score = true -> Classify.is_warning score = false /\ Classify.is_failing score = false) /\
  (Classify.is_warning score = true -> Classify.is_passing score = false /\ Classify.is_failing score = false) /\
  (Classify.is_failing score = true -> Classify.is_passing score = false /\ Classify.is_warning score = false).
Proof.
  unfold Classify.is_passing, Classify.is_warning, Classify.is_failing.
  destruct (Num.gt score 95) eqn:H95, (Num.gt score 80) eqn:H80,
           (Num.le score 95) eqn:L95, (Num.le score 80) eqn:L80; simpl;
    repeat split; intros; try reflexivity; try discriminate; exfalso;
    try (apply gt_true in H95); try (apply gt_false in H95);
    try (apply gt_true in H80); try (apply gt_false in H80);
    try (apply le_true in L95); try (apply le_true in L80);
    try (apply not_true_iff_false in L95; apply L95; apply le_true);
    try (apply not_true_iff_false in L80; apply L80; apply le_true);
    lra.
Qed.

(** C3, as the claim states it, fails: a match score of exactly 95.0 is not
    classified as passing; the code puts it in the warning band. *)
Lemma score_95_is_not_passing :
  ~ (Classify.is_passing 95 = true) /\
  Classify.is_warning 95 = true /\
  Classify.emoji 95 <> Classify.PASS.
Proof.
  split; [|split].
  - vm_compute. discriminate.
  - reflexivity.
  - vm_compute. discriminate.
Qed.

(** The bands: passing is [score > 95], warning is [80 < score <= 95],
    failing is [score <= 80]; every score falls in exactly one band, and
    the glyph is the band's. *)
Lemma bands_spec (score : Q) :
  (Classify.is_passing score = true <-> 95 < score) /\
  (Classify.is_warning score = true <-> 80 < score /\ score <= 95) /\
  (Classify.is_failing score = true <-> score <= 80) /\
  (Classify.emoji score = Classify.PASS <-> Classify.is_passing score = true) /\
  (Classify.emoji score = Classify.WARN <-> Classify.is_warning score = true) /\
  (Classify.emoji score = Classify.FAIL <-> Classify.is_failing score = true) /\
  Classify.emoji 95 = Classify.WARN /\
  Classify.emoji 80 = Classify.FAIL.
Proof.
  assert (Hp : Classify.is_passing score = true <-> 95 < score).
  { unfold Classify.is_passing. apply gt_true. }
  assert (Hw : Classify.is_warning score = true <-> 80 < score /\ score <= 95).
  { unfold Classify.is_warning. rewrite andb_true_iff, gt_true, le_true. reflexivity. }
  assert (Hf : Classify.is_failing score = true <-> score <= 80).
  { unfold Classify.is_failing. apply le_true. }
  pose proof (bands_exclusive score) as [Xp [Xw Xf]].
  repeat split; try tauto; try reflexivity.
  - intros E. destruct (emoji_cases score) as [[_ H]|[[H _]|[H _]]];
      [exact H | rewrite E in H; discriminate H | rewrite E in H; discriminate H].
  - intros H. destruct (emoji_cases score) as [[E _]|[[_ H']|[_ H']]];
      [exact E | | ]; destruct (Xp H) as [A B]; congruence.
  - intros E. destruct (emoji_cases score) as [[H _]|[[_ H]|[H _]]];
      [rewrite E in H; discriminate H | exact H | rewrite E in H; discriminate H].
  - intros H. destruct (emoji_cases score) as [[_ H']|[[E _]|[_ H']]];
      [ | exact E | ]; destruct (Xw H) as [A B]; congruence.
  - intros E. destruct (emoji_cases score) as [[H _]|[[H _]|[_ H]]];
      [rewrite E in H; discriminate H | rewrite E in H; discriminate H | exact H].
  - intros H. destruct (emoji_cases score) as [[_ H']|[[_ H']|[E _]]];
      [ | | exact E]; destruct (Xf H) as [A B]; congruence.
Qed.

End Classification.

(** ** Normalisation *)

Section NormalizerFacts.
Context {Ext : Externals} {Laws : PillowLaws Ext}.

Lemma tuple_neq_false (a b : nat * nat) : tuple_neq a b = false <-> a = b.
Proof.
  destruct a as [a1 a2], b as [b1 b2]. unfold tuple_neq; simpl.
  rewrite negb_false_iff, andb_true_iff, !Nat.eqb_eq.
  split; [intros [-> ->]; reflexivity | intros [= -> ->]; auto].
Qed.

Lemma tuple_neq_true (a b : nat * nat) : tuple_neq a b = true <-> a <> b.
Proof.
  rewrite <- not_false_iff_true, tuple_neq_false. reflexivity.
Qed.

Lemma py_max_either (a b : nat * nat) : py_max a b = a \/ py_max a b = b.
Proof. unfold py_max. destruct (tuple_lt a b); auto. Qed.

Lemma py_max_width (a b : nat * nat) : fst (py_max a b) = Nat.max (fst a) (fst b).
Proof.
  unfold py_max, tuple_lt.
  destruct (fst a <? fst b)%nat eqn:Hlt; simpl.
  - apply Nat.ltb_lt in Hlt. lia.
  - apply Nat.ltb_ge in Hlt.
    destruct (fst a =? fst b)%nat eqn:Heq; simpl.
    + apply Nat.eqb_eq in Heq. destruct (snd a <? snd b)%nat; lia.
    + lia.
Qed.

Lemma resize_to_match_sizes (img1 img2 : Image) :
  size (fst (resize_to_match img1 img2)) = size (snd (resize_to_match img1 img2)).
Proof.
  unfold resize_to_match.
  destruct (tuple_neq (size img1) (size img2)) eqn:Hne; simpl.
  - rewrite !image_resize_size. reflexivity.
  - apply tuple_neq_false. exact Hne.
Qed.

Lemma resize_to_match_wf (img1 img2 : Image) :
  wf_image img1 = true -> wf_image img2 = true ->
  wf_image (fst (resize_to_match img1 img2)) = true /\
  wf_image (snd (resize_to_match img1 img2)) = true.
Proof.
  intros W1 W2. unfold resize_to_match.
  destruct (tuple_neq (size img1) (size img2)); simpl; split;
    auto using image_resize_wf.
Qed.

End NormalizerFacts.

(** C1, as the claim states it, fails: images of 100x200 and 300x100 are
    both resized to 300x100, the size of the second image, not to the
    per-axis maximum 300x200. *)
Lemma normalizer_not_per_axis_max :
  ~ (forall (Ext : Externals) (Laws : PillowLaws Ext) (img1 img2 : Image),
       wf_image img1 = true -> wf_image img2 = true ->
       size img1 <> size img2 ->
       size (fst (resize_to_match img1 img2)) = per_axis_max (size img1) (size img2) /\
       size (snd (resize_to_match img1 img2)) = per_axis_max (size img1) (size img2)).
Proof.
  intros H.
  destruct (H Sample.ext sample_laws
              (Sample.raster 100 200 (fun _ _ => Sample.black))
              (Sample.raster 300 100 (fun _ _ => Sample.black))) as [H1 _].
  - apply raster_wf.
  - apply raster_wf.
  - discriminate.
  - discriminate H1.
Qed.

(** C1, amended: when the dimensions differ, both images are resized to the
    size of one of the two inputs, the one that is greater in Python's order
    on pairs: the wider image, or the taller one when the widths are equal.
    The common width is the larger width; the common height is that image's
    height.  When the dimensions already match, the inputs are returned
    unchanged. *)
Theorem normalizer_target (Ext : Externals) (Laws : PillowLaws Ext) (img1 img2 : Image) :
  (size img1 <> size img2 ->
     size (fst (resize_to_match img1 img2)) = py_max (size img1) (size img2) /\
     size (snd (resize_to_match img1 img2)) = py_max (size img1) (size img2)) /\
  (size img1 = size img2 -> resize_to_match img1 img2 = (img1, img2)) /\
  (py_max (size img1) (size img2) = size img1 \/
   py_max (size img1) (size img2) = size img2) /\
  fst (py_max (size img1) (size img2)) = Nat.max (im_width img1) (im_width img2) /\
  ((im_width img1 < im_width img2)%nat -> py_max (size img1) (size img2) = size img2) /\
  ((im_width img2 < im_width img1)%nat -> py_max (size img1) (size img2) = size img1) /\
  (im_width img1 = im_width img2 ->
     snd (py_max (size img1) (size img2)) = Nat.max (im_height img1) (im_height img2)).
Proof.
  repeat split.
  - unfold resize_to_match. apply tuple_neq_true in H. rewrite H. simpl.
    apply image_resize_size.
  - unfold resize_to_match. apply tuple_neq_true in H. rewrite H. simpl.
    apply image_resize_size.
  - intros E. unfold resize_to_match. apply tuple_neq_false in E. rewrite E. reflexivity.
  - apply py_max_either.
  - apply py_max_width.
  - intros Hlt. unfold py_max, tuple_lt, size; simpl.
    apply Nat.ltb_lt in Hlt. rewrite Hlt. reflexivity.
  - intros Hlt. unfold py_max, tuple_lt, size; simpl.
    destruct (im_width img1 <? im_width img2)%nat eqn:H1; [apply Nat.ltb_lt in H1; lia|].
    destruct (im_width img1 =? im_width img2)%nat eqn:H2; [apply Nat.eqb_eq in H2; lia|].
    reflexivity.
  - intros E. unfold py_max, tuple_lt, size; simpl. rewrite E.
    rewrite Nat.ltb_irrefl, Nat.eqb_refl; simpl.
    destruct (im_height img1 <? im_height img2)%nat eqn:H1; simpl.
    + apply Nat.ltb_lt in H1. lia.
    + apply Nat.ltb_ge in H1. lia.
Qed.

(** The amended C1 at 100x200 and 300x100: both buffers are 300x100. *)
Lemma normalizer_target_witness :
  let img1 := Sample.raster 100 200 (fun _ _ => Sample.black) in
  let img2 := Sample.raster 300 100 (fun _ _ => Sample.black) in
  size (fst (@resize_to_match Sample.ext img1 img2)) = (300, 100)%nat /\
  size (snd (@resize_to_match Sample.ext img1 img2)) = (300, 100)%nat.
Proof.
  intros img1 img2.
  apply (proj1 (normalizer_target Sample.ext sample_laws img1 img2)).
  discriminate.
Defined.

(** ** The pixel differencer *)

Section Differencer.
Context {Ext : Externals}.

Lemma pixel_diff_images_inv (name : string) (img1 img2 : Image) (d : DiffStats) (w : Write) :
  pixel_diff_images name img1 img2 = ok (d, w) ->
  exists mx,
    Np.max (Np.flatten (diff_of img1 img2)) = Some mx /\
    mean_diff d = Num.round2 (Np.mean (Np.flatten (diff_of img1 img2))) /\
    max_diff d = Num.round2 (inject_Z mx) /\
    diff_percent d = Num.round2 (percent_of_mask (mask_of img1 img2)) /\
    match_score d = Num.round2 (100 - percent_of_mask (mask_of img1 img2)) /\
    resolution d = size (fst (resize_to_match img1 img2)) /\
    regions d = detect_regions (im_width (fst (resize_to_match img1 img2)))
                  (mask_of img1 img2) (percent_of_mask (mask_of img1 img2)).
Proof.
  unfold pixel_diff_images, mask_of, diff_of, percent_of_mask.
  destruct (resize_to_match img1 img2) as [i1 i2]; simpl.
  destruct (Np.max _) as [mx|]; [|discriminate].
  intros [= <- _]. exists mx. simpl. repeat split; reflexivity.
Qed.

Lemma pixel_diff_ok_inv (inp : Inputs) (p1 p2 : Path) (d : DiffStats) (ws : list Write) :
  pixel_diff inp p1 p2 = ok (DiffOk d, ws) ->
  exists img1 img2 w,
    open_rgba inp p1 = ok img1 /\ open_rgba inp p2 = ok img2 /\
    pixel_diff_images (stem p1) img1 img2 = ok (d, w) /\ ws = [w].
Proof.
  unfold pixel_diff.
  destruct (negb have_imaging); [discriminate|].
  destruct (open_rgba inp p1) as [e|img1]; [discriminate|]; simpl.
  destruct (open_rgba inp p2) as [e|img2]; [discriminate|]; simpl.
  destruct (pixel_diff_images (stem p1) img1 img2) as [e|[d' w]] eqn:E; [discriminate|]; simpl.
  intros [= <- <-]. exists img1, img2, w. auto.
Qed.

Lemma count_le_size (m : Np.mask) : (Np.count_true m <= Np.mask_size m)%nat.
Proof. unfold Np.count_true, Np.mask_size. apply filter_length_le. Qed.

Lemma percent_range (m : Np.mask) :
  (0 <= percent_of_mask m /\ percent_of_mask m <= 100)%Q.
Proof.
  unfold percent_of_mask, Num.of_nat.
  pose proof (count_le_size m) as Hle.
  set (c := Np.count_true m) in *. set (s := Np.mask_size m) in *.
  destruct (Nat.eq_dec s 0) as [E|N].
  - rewrite E. simpl. assert (c = 0%nat) as -> by lia. simpl. split; discriminate.
  - assert (Hs : (0 < inject_Z (Z.of_nat s))%Q).
    { rewrite <- (Zlt_Qlt 0). lia. }
    assert (Hc0 : (0 <= inject_Z (Z.of_nat c))%Q).
    { rewrite <- (Zle_Qle 0). lia. }
    assert (Hcs : (inject_Z (Z.of_nat c) <= inject_Z (Z.of_nat s))%Q).
    { rewrite <- Zle_Qle. lia. }
    assert (H0 : (0 <= inject_Z (Z.of_nat c) / inject_Z (Z.of_nat s))%Q).
    { apply Qle_shift_div_l; [exact Hs|]. lra. }
    assert (H1 : (inject_Z (Z.of_nat c) / inject_Z (Z.of_nat s) <= 1)%Q).
    { apply Qle_shift_div_r; [exact Hs|]. lra. }
    lra.
Qed.

(** C9: for every result of a comparison, the reported diff percentage and
    the reported match score both lie between 0 and 100. *)
Theorem percent_and_score_in_range
  (inp : Inputs) (p1 p2 : Path) (d : DiffStats) (ws : list Write) :
  pixel_diff inp p1 p2 = ok (DiffOk d, ws) ->
  (0 <= diff_percent d /\ diff_percent d <= 100 /\
   0 <= match_score d /\ match_score d <= 100)%Q.
Proof.
  intros H.
  apply pixel_diff_ok_inv in H. destruct H as (img1 & img2 & w & _ & _ & H & _).
  apply pixel_diff_images_inv in H.
  destruct H as (mx & _ & _ & _ & Hp & Hs & _).
  rewrite Hp, Hs.
  pose proof (percent_range (mask_of img1 img2)) as [H0 H1].
  set (dp := percent_of_mask (mask_of img1 img2)) in *.
  pose proof (round2_range dp H0 H1).
  assert (A : (0 <= 100 - dp)%Q) by lra.
  assert (B : (100 - dp <= 100)%Q) by lra.
  pose proof (round2_range (100 - dp) A B).
  tauto.
Qed.

End Differencer.

(** ** The scores in floating point *)

Section FloatFacts.
Local Open Scope Q_scope.

Lemma roundoff_small (e : Q) :
  -(20000) <= e /\ e <= 20000 ->
  Qabs e <= max_finite /\
  unit_roundoff * Qabs e + min_subnormal <= 1 # 100000000000.
Proof.
  intros [H1 H2].
  assert (Ha : Qabs e <= 20000).
  { apply Qabs_Qle_condition. split; assumption. }
  split.
  - apply (Qle_trans _ 20000); [exact Ha|]. vm_compute. discriminate.
  - apply (Qle_trans _ (unit_roundoff * 20000 + min_subnormal)).
    + apply Qplus_le_compat; [|apply Qle_refl].
      apply Qmult_le_l; [reflexivity | exact Ha].
    + vm_compute. discriminate.
Qed.

End FloatFacts.

Section FloatScores.
Context {F : Type} {A : Float64 F} {L : Float64Laws A}.
Local Open Scope Q_scope.

Lemma rounds_to_compat (r : F) (e e' : Q) :
  e == e' -> rounds_to r e -> rounds_to r e'.
Proof.
  unfold rounds_to. intros E H. rewrite <- E. exact H.
Qed.

Lemma rounds_to_small (r : F) (e : Q) :
  rounds_to r e -> -(20000) <= e /\ e <= 20000 ->
  finite r = true /\
  e - (1 # 100000000000) <= value r /\ value r <= e + (1 # 100000000000).
Proof.
  intros H B. destruct (roundoff_small e B) as [M S].
  destruct (H M) as [Fi N]. split; [exact Fi|].
  assert (N' : Qabs (value r - e) <= 1 # 100000000000) by (eapply Qle_trans; eassumption).
  apply Qabs_Qle_condition in N'. destruct N'. split; lra.
Qed.

Lemma Zlt_of_Q (a b : Z) : inject_Z a < inject_Z b -> (a < b)%Z.
Proof. intros H. rewrite Zlt_Qlt. exact H. Qed.

(** What [round(x, 2)] returns for [0 <= x <= 100], up to the rounding
    error [d] of [x]: the float nearest to [k / 100] for an integer [k]
    within a half of [100 x]. *)
Lemma fround2_small (x : F) (lo hi : Q) :
  finite x = true ->
  -(1) <= lo -> hi <= 101 -> lo <= value x -> value x <= hi ->
  exists k : Z,
    finite (fround2 x) = true /\
    Qabs (value (fround2 x) - inject_Z k / 100) <= 1 # 100000000000 /\
    lo * 100 - (1 # 2) - (1 # 100000000000) <= inject_Z k /\
    inject_Z k <= hi * 100 + (1 # 2) + (1 # 100000000000).
Proof.
  intros Fx Hlo Hhi H1 H2.
  assert (B : -(20000) <= value x * 100 /\ value x * 100 <= 20000) by (split; lra).
  destruct (roundoff_small _ B) as [M S].
  destruct (fround2_near x Fx M) as (k & Hk & Hr).
  assert (Hk' : Qabs (inject_Z k - value x * 100) <= (1 # 2) + (1 # 100000000000)).
  { eapply Qle_trans; [exact Hk|]. lra. }
  apply Qabs_Qle_condition in Hk'. destruct Hk' as [K1 K2].
  set (kq := inject_Z k / 100) in *.
  assert (E : inject_Z k == kq * 100) by (unfold kq; field).
  assert (B' : -(20000) <= kq /\ kq <= 20000) by (split; lra).
  destruct (rounds_to_small _ _ Hr B') as (Fr & R1 & R2).
  exists k. split; [exact Fr|]. split.
  - fold kq. apply Qabs_Qle_condition. split; lra.
  - split; lra.
Qed.

Lemma reported_scores_hundredths (count size : nat) :
  (0 < size)%nat -> (count <= size)%nat -> (Z.of_nat size <= 2 ^ 53)%Z ->
  exists k k' : Z,
    finite (fst (reported_scores count size)) = true /\
    finite (snd (reported_scores count size)) = true /\
    Qabs (value (fst (reported_scores count size)) - inject_Z k / 100)
      <= 1 # 100000000000 /\
    Qabs (value (snd (reported_scores count size)) - inject_Z k' / 100)
      <= 1 # 100000000000 /\
    (0 <= k <= 10000)%Z /\ (0 <= k' <= 10000)%Z /\
    (-1 <= k + k' - 10000 <= 1)%Z.
Proof.
  intros Hs Hc Hb.
  unfold reported_scores, float_diff_percent. cbn [fst snd].
  destruct (of_count_exact count ltac:(lia)) as [FC VC].
  destruct (of_count_exact size Hb) as [FS VS].
  destruct hundred_exact as [FH VH].
  assert (Hc0 : 0 <= inject_Z (Z.of_nat count)).
  { change 0 with (inject_Z 0). rewrite <- Zle_Qle. lia. }
  assert (Hcs : inject_Z (Z.of_nat count) <= inject_Z (Z.of_nat size)).
  { rewrite <- Zle_Qle. lia. }
  assert (Hs1 : 0 < inject_Z (Z.of_nat size)).
  { change 0 with (inject_Z 0). rewrite <- Zlt_Qlt. lia. }
  set (c := inject_Z (Z.of_nat count)) in *.
  set (s := inject_Z (Z.of_nat size)) in *.
  assert (Hq : 0 <= c / s /\ c / s <= 1).
  { split.
    - apply Qle_shift_div_l; [exact Hs1 | lra].
    - apply Qle_shift_div_r; [exact Hs1 | lra]. }
  set (q := c / s) in *.
  (* the quotient *)
  assert (NZ : ~ value (of_count size) == 0) by (rewrite VS; lra).
  pose proof (fdiv_near _ _ FC FS NZ) as D.
  apply (rounds_to_compat _ _ q) in D; [|unfold q; rewrite VC, VS; reflexivity].
  apply rounds_to_small in D; [|split; lra].
  destruct D as (Fa & A1 & A2).
  set (a := fdiv (of_count count) (of_count size)) in *.
  (* the percentage *)
  pose proof (fmul_near _ _ Fa FH) as M.
  apply (rounds_to_compat _ _ (value a * 100)) in M; [|rewrite VH; reflexivity].
  apply rounds_to_small in M; [|split; lra].
  destruct M as (Fd & D1 & D2).
  set (d := fmul a hundred) in *.
  (* its complement *)
  pose proof (fsub_near _ _ FH Fd) as Z.
  apply (rounds_to_compat _ _ (100 - value d)) in Z; [|rewrite VH; reflexivity].
  apply rounds_to_small in Z; [|split; lra].
  destruct Z as (Fz & Z1 & Z2).
  set (z := fsub hundred d) in *.
  (* the two roundings *)
  destruct (fround2_small d (value d) (value d) Fd) as (k & Fk & Nk & K1 & K2);
    try lra.
  destruct (fround2_small z (value z) (value z) Fz) as (k' & Fk' & Nk' & K1' & K2');
    try lra.
  exists k, k'.
  split; [exact Fk|]. split; [exact Fk'|]. split; [exact Nk|]. split; [exact Nk'|].
  assert (G1 : inject_Z (-1) < inject_Z k) by (change (inject_Z (-1)) with (-(1)); lra).
  assert (G2 : inject_Z k < inject_Z 10001) by (change (inject_Z 10001) with 10001; lra).
  assert (G3 : inject_Z (-1) < inject_Z k') by (change (inject_Z (-1)) with (-(1)); lra).
  assert (G4 : inject_Z k' < inject_Z 10001) by (change (inject_Z 10001) with 10001; lra).
  assert (G5 : inject_Z 9998 < inject_Z (k + k')).
  { rewrite inject_Z_plus. change (inject_Z 9998) with 9998. lra. }
  assert (G6 : inject_Z (k + k') < inject_Z 10002).
  { rewrite inject_Z_plus. change (inject_Z 10002) with 10002. lra. }
  apply Zlt_of_Q in G1, G2, G3, G4, G5, G6.
  clear - G1 G2 G3 G4 G5 G6. lia.
Qed.

End FloatScores.

Section ExactArithmetic.
Local Open Scope Q_scope.

Lemma rounds_to_exact (r e : Q) : r == e -> rounds_to (A := exact_arith) r e.
Proof.
  intros E _. split; [reflexivity|]. cbn [value exact_arith].
  assert (Z : Qabs (r - e) == 0).
  { assert (E0 : r - e == 0) by lra. rewrite E0. reflexivity. }
  rewrite Z.
  pose proof (Qabs_nonneg e) as N.
  assert (U : 0 <= unit_roundoff * Qabs e).
  { apply Qmult_le_0_compat; [discriminate | exact N]. }
  assert (M : 0 <= min_subnormal) by discriminate.
  lra.
Qed.

(** The exact arithmetic rounds nowhere but in [round(x, 2)]. *)
#[export] Instance exact_laws : Float64Laws exact_arith.
Proof.
  constructor.
  - intros n _. split; reflexivity.
  - split; reflexivity.
  - intros x y _ _ _. apply rounds_to_exact. reflexivity.
  - intros x y _ _. apply rounds_to_exact. reflexivity.
  - intros x y _ _. apply rounds_to_exact. reflexivity.
  - intros x _ _. exists (Num.rint (x * 100)). cbn [value fround2 exact_arith]. split.
    + pose proof (rint_near (x * 100)) as [N1 N2].
      pose proof (Qabs_nonneg (x * 100)) as N.
      assert (U : 0 <= unit_roundoff * Qabs (x * 100)).
      { apply Qmult_le_0_compat; [discriminate | exact N]. }
      assert (M : 0 <= min_subnormal) by discriminate.
      apply Qabs_Qle_condition. split; lra.
    + apply rounds_to_exact. unfold Num.round2. rewrite hundredths. field.
Qed.

End ExactArithmetic.

Section ScoresOfAComparison.
Context {Ext : Externals}.

Lemma mask_nonempty (a : Np.array3) (t : Z) (mx : Z) :
  Np.max (Np.flatten a) = Some mx -> (0 < Np.mask_size (Np.mean_axis2_gt a t))%nat.
Proof.
  unfold Np.mask_size, Np.mean_axis2_gt, Np.flatten.
  induction a as [|row rest IH]; simpl; [discriminate|].
  destruct row as [|px row].
  - simpl. exact IH.
  - intros _. simpl. lia.
Qed.

(** With exact arithmetic, the two scores are those of the dictionary that
    [pixel_diff_images] returns. *)
Lemma exact_scores (name : string) (img1 img2 : Image) (d : DiffStats) (w : Write) :
  pixel_diff_images name img1 img2 = ok (d, w) ->
  (0 < Np.mask_size (mask_of img1 img2))%nat /\
  reported_scores (A := exact_arith)
    (Np.count_true (mask_of img1 img2)) (Np.mask_size (mask_of img1 img2))
  = (diff_percent d, match_score d).
Proof.
  intros H. destruct (pixel_diff_images_inv _ _ _ _ _ H) as (mx & Hm & _ & _ & Hd & Hs & _).
  split.
  - unfold mask_of. apply (mask_nonempty _ _ mx Hm).
  - rewrite Hd, Hs. reflexivity.
Qed.

End ScoresOfAComparison.

Section FloatComparison.
Context {Ext : Externals} {F : Type} {A : Float64 F} {L : Float64Laws A}.
Local Open Scope Q_scope.


End FloatComparison.


(** ** An image against itself *)

Section Identical.
Context {Ext : Externals}.

Lemma map2_diag {A C : Type} (f : A -> A -> C) (l : list A) :
  Np.map2 f l l = map (fun x => f x x) l.
Proof. induction l as [|a l IH]; simpl; [|rewrite IH]; reflexivity. Qed.

Lemma abs_sub_diag (a : Np.array3) :
  Np.abs_sub a a = map (map (map (fun _ => 0%Z))) a.
Proof.
  unfold Np.abs_sub. rewrite map2_diag.
  apply map_ext. intros row. rewrite map2_diag.
  apply map_ext. intros px. rewrite map2_diag.
  apply map_ext. intros x. rewrite Z.sub_diag. reflexivity.
Qed.

Lemma sum_zeros (l : list Z) : Forall (fun x => x = 0%Z) l -> Np.sum l = 0%Z.
Proof.
  induction 1 as [|x l Hx _ IH]; [reflexivity|].
  change (Np.sum (x :: l)) with (x + Np.sum l)%Z. lia.
Qed.

Lemma mean_zeros (l : list Z) : Forall (fun x => x = 0%Z) l -> (Np.mean l == 0)%Q.
Proof.
  intros H. unfold Np.mean. rewrite (sum_zeros l H).
  unfold Qdiv. change (inject_Z 0) with 0%Q. lra.
Qed.

Lemma fold_max_zeros (l : list Z) :
  Forall (fun x => x = 0%Z) l -> fold_left Z.max l 0%Z = 0%Z.
Proof. induction 1 as [|x l -> _ IH]; simpl; auto. Qed.

Lemma max_zeros (l : list Z) :
  Forall (fun x => x = 0%Z) l -> l <> [] -> Np.max l = Some 0%Z.
Proof.
  intros H N. destruct l as [|x r]; [congruence|].
  inversion H; subst. simpl. f_equal. apply fold_max_zeros. assumption.
Qed.

Lemma zeros_flat (a : Np.array3) :
  Forall (fun x => x = 0%Z) (Np.flatten (map (map (map (fun _ => 0%Z))) a)).
Proof.
  unfold Np.flatten. apply Forall_concat. apply Forall_concat.
  apply Forall_forall. intros row Hrow. apply in_map_iff in Hrow.
  destruct Hrow as [r [<- _]].
  apply Forall_forall. intros px Hpx. apply in_map_iff in Hpx.
  destruct Hpx as [p [<- _]].
  apply Forall_forall. intros x Hx. apply in_map_iff in Hx.
  destruct Hx as [? [<- _]]. reflexivity.
Qed.

Lemma zeros_mask (a : Np.array3) :
  Np.mean_axis2_gt (map (map (map (fun _ => 0%Z))) a) threshold
  = map (map (fun _ => false)) a.
Proof.
  unfold Np.mean_axis2_gt. rewrite map_map. apply map_ext. intros row.
  rewrite map_map. apply map_ext. intros px.
  apply gt_false.
  rewrite mean_zeros.
  - discriminate.
  - apply Forall_forall. intros x Hx. apply in_map_iff in Hx.
    destruct Hx as [? [<- _]]. reflexivity.
Qed.

Lemma count_true_all_false {A : Type} (a : list (list A)) :
  Np.count_true (map (map (fun _ => false)) a) = 0%nat.
Proof.
  unfold Np.count_true.
  induction a as [|row a IH]; simpl; [reflexivity|].
  rewrite filter_app, length_app, IH, Nat.add_0_r.
  clear IH. induction row as [|p row IH]; simpl; auto.
Qed.

Lemma resize_to_match_same (img : Image) : resize_to_match img img = (img, img).
Proof.
  unfold resize_to_match.
  assert (E : tuple_neq (size img) (size img) = false) by (apply tuple_neq_false; reflexivity).
  rewrite E. reflexivity.
Qed.

Lemma flatten_nonempty (img : Image) :
  wf_image img = true -> (0 < im_width img)%nat -> (0 < im_height img)%nat ->
  Np.flatten (map (map (map (fun _ : Z => 0%Z))) (Np.of_image img)) <> [].
Proof.
  unfold wf_image. intros W Hw Hh.
  apply andb_true_iff in W. destruct W as [Hlen Hrows].
  apply Nat.eqb_eq in Hlen.
  destruct (im_rows img) as [|row rows] eqn:E; [simpl in Hlen; lia|].
  simpl in Hrows. apply andb_true_iff in Hrows. destruct Hrows as [Hrow _].
  apply andb_true_iff in Hrow. destruct Hrow as [Hrl _]. apply Nat.eqb_eq in Hrl.
  destruct row as [|p row]; [simpl in Hrl; lia|].
  unfold Np.of_image. rewrite E. simpl. discriminate.
Qed.

Lemma percent_all_false {A : Type} (a : list (list A)) :
  (percent_of_mask (map (map (fun _ => false)) a) == 0)%Q.
Proof.
  unfold percent_of_mask. rewrite count_true_all_false.
  unfold Qdiv, Num.of_nat. change (inject_Z (Z.of_nat 0)) with 0%Q. lra.
Qed.

Lemma detect_regions_small (w : nat) (m : Np.mask) (dp : Q) :
  (dp <= 1 # 2)%Q -> detect_regions w m dp = [].
Proof.
  intros H. unfold detect_regions.
  apply gt_false in H. rewrite H. reflexivity.
Qed.

(** C6: comparing an image with an identical copy of itself yields a
    result, whose diff percentage, mean difference and maximum difference
    are 0, whose match score is 100, and which has no region. *)
Theorem identical_images_match (name : string) (img : Image) :
  wf_image img = true -> (0 < im_width img)%nat -> (0 < im_height img)%nat ->
  exists d w,
    pixel_diff_images name img img = ok (d, w) /\
    (diff_percent d == 0)%Q /\ (mean_diff d == 0)%Q /\ (max_diff d == 0)%Q /\
    (match_score d == 100)%Q /\ regions d = [].
Proof.
  intros W Hw Hh.
  pose proof (flatten_nonempty img W Hw Hh) as Hne.
  pose proof (zeros_flat (Np.of_image img)) as Hz.
  unfold pixel_diff_images.
  rewrite resize_to_match_same, abs_sub_diag.
  rewrite (max_zeros _ Hz Hne), zeros_mask.
  fold (percent_of_mask (map (map (fun _ : list Z => false)) (Np.of_image img))).
  pose proof (percent_all_false (Np.of_image img)) as Hp.
  set (dp := percent_of_mask _) in *.
  eexists. eexists. split; [reflexivity|]. simpl.
  split; [|split; [|split; [|split]]].
  - rewrite (round2_comp dp 0 Hp). reflexivity.
  - rewrite (round2_comp _ 0 (mean_zeros _ Hz)). reflexivity.
  - reflexivity.
  - assert (E : (100 - dp == 100)%Q) by lra.
    rewrite (round2_comp _ 100 E). reflexivity.
  - apply detect_regions_small. lra.
Qed.

End Identical.

(** ** The region detector *)

Section Regions.

Lemma argmax_first (v : list bool) :
  existsb id v = true ->
  nth (Np.argmax v) v false = true /\
  forall i, (i < Np.argmax v)%nat -> nth i v false = false.
Proof.
  induction v as [|b r IH]; simpl; [discriminate|].
  destruct b; simpl.
  - intros _. split; [reflexivity | intros i Hi; lia].
  - intros Hr. rewrite Hr. destruct (IH Hr) as [Ht Hf].
    split; [exact Ht|].
    intros [|i] Hi; [reflexivity|]. apply Hf. lia.
Qed.

Lemma nth_true_lt (v : list bool) (n : nat) :
  nth n v false = true -> (n < length v)%nat.
Proof.
  intros H. destruct (Nat.lt_ge_cases n (length v)) as [L|G]; [exact L|].
  rewrite nth_overflow in H by exact G. discriminate.
Qed.

Lemma existsb_nth_true (v : list bool) :
  existsb id v = true <-> exists n, nth n v false = true.
Proof.
  rewrite existsb_exists. split.
  - intros [b [Hin Hb]]. unfold id in Hb. subst b.
    destruct (In_nth v true false Hin) as [n [_ Hn]]. eauto.
  - intros [n Hn]. exists true. split; [|reflexivity].
    rewrite <- Hn. apply nth_In. apply nth_true_lt. exact Hn.
Qed.

Lemma existsb_id_rev (v : list bool) : existsb id (rev v) = existsb id v.
Proof.
  induction v as [|b r IH]; simpl; [reflexivity|].
  rewrite existsb_app, IH. simpl. rewrite orb_false_r. apply orb_comm.
Qed.

(** The first and the last true entry of a vector, as [detect_regions]
    computes them. *)
Lemma argmax_bounds (v : list bool) (P : nat -> Prop) :
  (forall n, nth n v false = true <-> P n) ->
  existsb id v = true ->
  first_such P (Z.of_nat (Np.argmax v)) /\
  last_such P (Z.of_nat (length v) - Z.of_nat (Np.argmax (rev v)) - 1).
Proof.
  intros HP Hex. split.
  - destruct (argmax_first v Hex) as [Ht Hf].
    exists (Np.argmax v). split; [reflexivity|]. split; [apply HP; exact Ht|].
    intros k Hk. apply HP in Hk.
    destruct (Nat.le_gt_cases (Np.argmax v) k) as [L|G]; [exact L|].
    rewrite (Hf k G) in Hk. discriminate.
  - assert (Hex' : existsb id (rev v) = true) by (rewrite existsb_id_rev; exact Hex).
    destruct (argmax_first (rev v) Hex') as [Ht Hf].
    pose proof (nth_true_lt _ _ Ht) as Hlt. rewrite length_rev in Hlt.
    set (a := Np.argmax (rev v)) in *.
    exists (length v - S a)%nat. split; [lia|]. split.
    + apply HP. rewrite rev_nth in Ht by exact Hlt. exact Ht.
    + intros k Hk. apply HP in Hk.
      pose proof (nth_true_lt _ _ Hk) as Hkl.
      destruct (Nat.le_gt_cases k (length v - S a)) as [L|G]; [exact L|].
      assert (Hi : (length v - S k < a)%nat) by lia.
      specialize (Hf _ Hi).
      rewrite rev_nth in Hf by lia.
      replace (length v - S (length v - S k))%nat with k in Hf by lia.
      rewrite Hf in Hk. discriminate.
Qed.

Lemma any_axis1_nth (m : Np.mask) (y : nat) :
  nth y (Np.any_axis1 m) false = true <-> row_differs m y.
Proof.
  unfold Np.any_axis1, row_differs, differs.
  change false with (existsb id (@nil bool)) at 1.
  rewrite map_nth. apply existsb_nth_true.
Qed.

Lemma rect_row (w : nat) (m : Np.mask) (y : nat) :
  rect w m = true -> (y < length m)%nat -> length (nth y m []) = w.
Proof.
  unfold rect. intros H Hy. rewrite forallb_forall in H.
  apply Nat.eqb_eq. apply H. apply nth_In. exact Hy.
Qed.

Lemma differs_in_range (w : nat) (m : Np.mask) (y x : nat) :
  rect w m = true -> differs m y x -> (y < length m)%nat /\ (x < w)%nat.
Proof.
  unfold differs. intros R D.
  assert (Hy : (y < length m)%nat).
  { destruct (Nat.lt_ge_cases y (length m)) as [L|G]; [exact L|].
    rewrite (nth_overflow m [] G) in D. destruct x; discriminate. }
  split; [exact Hy|].
  rewrite <- (rect_row w m y R Hy). apply nth_true_lt. exact D.
Qed.

Lemma any_axis0_nth (w : nat) (m : Np.mask) (x : nat) :
  rect w m = true ->
  nth x (Np.any_axis0 w m) false = true <-> col_differs m x.
Proof.
  intros R. unfold Np.any_axis0, col_differs. split.
  - intros H.
    assert (Hx : (x < w)%nat).
    { apply nth_true_lt in H. rewrite length_map, length_seq in H. exact H. }
    rewrite (nth_indep _ false (existsb (fun row => nth 0 row false) m)) in H
      by (rewrite length_map, length_seq; exact Hx).
    rewrite (map_nth (fun j => existsb (fun row => nth j row false) m) (seq 0 w) 0%nat x) in H.
    rewrite seq_nth in H by exact Hx. simpl in H.
    apply existsb_exists in H. destruct H as [row [Hin Hrow]].
    destruct (In_nth m row [] Hin) as [y [_ Hy]].
    exists y. unfold differs. rewrite Hy. exact Hrow.
  - intros [y D].
    destruct (differs_in_range w m y x R D) as [Hy Hx].
    rewrite (nth_indep _ false (existsb (fun row => nth 0 row false) m))
      by (rewrite length_map, length_seq; exact Hx).
    rewrite (map_nth (fun j => existsb (fun row => nth j row false) m) (seq 0 w) 0%nat x).
    rewrite seq_nth by exact Hx. simpl.
    apply existsb_exists. exists (nth y m []). split; [apply nth_In; exact Hy | exact D].
Qed.


End Regions.

Lemma first_le_last (P : nat -> Prop) (i j : Z) :
  first_such P i -> last_such P j -> (0 <= i <= j)%Z.
Proof.
  intros (n & -> & Pn & Hn) (k & -> & Pk & Hk).
  specialize (Hn k Pk). lia.
Qed.

Lemma any_rows_of_pixel (m : Np.mask) (y x : nat) :
  differs m y x -> Np.any (Np.any_axis1 m) = true.
Proof.
  intros D. unfold Np.any. apply existsb_nth_true.
  exists y. apply any_axis1_nth. exists x. exact D.
Qed.

Lemma any_rows_inv (m : Np.mask) :
  Np.any (Np.any_axis1 m) = true -> exists y x, differs m y x.
Proof.
  unfold Np.any. intros H. apply existsb_nth_true in H.
  destruct H as [y Hy]. apply any_axis1_nth in Hy. destruct Hy as [x D]. eauto.
Qed.

Lemma any_cols_of_pixel (w : nat) (m : Np.mask) (y x : nat) :
  rect w m = true -> differs m y x -> existsb id (Np.any_axis0 w m) = true.
Proof.
  intros R D. apply existsb_nth_true.
  exists x. apply any_axis0_nth; [exact R|]. exists y. exact D.
Qed.

(** The box of [detect_regions], when it emits one. *)
Lemma detect_regions_box (w : nat) (m : Np.mask) (dp : Q) (r : Region) :
  rect w m = true ->
  In r (detect_regions w m dp) ->
  (1 # 2 < dp)%Q /\
  detect_regions w m dp = [r] /\
  first_such (row_differs m) (y_start r) /\
  last_such (row_differs m) (y_end r - 1) /\
  first_such (col_differs m) (x_start r) /\
  last_such (col_differs m) (x_end r - 1) /\
  (y_end r <= Z.of_nat (length m))%Z /\
  (x_end r <= Z.of_nat w)%Z /\
  area_percent r = Num.round2 dp.
Proof.
  intros R. unfold detect_regions.
  destruct (Num.gt dp (1 # 2)) eqn:Hgt; [|intros []].
  destruct (Np.any (Np.any_axis1 m)) eqn:Hany; [|intros []].
  intros [<-|[]]. simpl.
  apply gt_true in Hgt.
  destruct (any_rows_inv m Hany) as (y & x & D).
  pose proof (any_cols_of_pixel w m y x R D) as Hcols.
  destruct (argmax_bounds (Np.any_axis1 m) (row_differs m) (any_axis1_nth m) Hany)
    as [Hrf Hrl].
  destruct (argmax_bounds (Np.any_axis0 w m) (col_differs m)
              (fun n => any_axis0_nth w m n R) Hcols) as [Hcf Hcl].
  assert (Lr : length (Np.any_axis1 m) = length m).
  { unfold Np.any_axis1. apply length_map. }
  assert (Lc : length (Np.any_axis0 w m) = w).
  { unfold Np.any_axis0. rewrite length_map. apply length_seq. }
  repeat split; try assumption; try reflexivity.
  - rewrite Lr. lia.
  - rewrite Lc. lia.
Qed.

Lemma map2_length {A B C : Type} (f : A -> B -> C) (l : list A) (m : list B) :
  length (Np.map2 f l m) = Nat.min (length l) (length m).
Proof.
  revert m. induction l as [|a l IH]; intros [|b m]; simpl; auto.
Qed.

Lemma map2_rows {A B C : Type} (f : A -> B -> C) (w : nat)
  (l : list (list A)) (m : list (list B)) :
  Forall (fun r => length r = w) l -> Forall (fun r => length r = w) m ->
  Forall (fun r => length r = w) (Np.map2 (Np.map2 f) l m).
Proof.
  intros Hl. revert m. induction Hl as [|r l Hr _ IH]; intros m Hm; simpl.
  - constructor.
  - destruct Hm as [|r' m Hr' Hm]; constructor.
    + rewrite map2_length, Hr, Hr'. apply Nat.min_id.
    + apply IH. exact Hm.
Qed.

Lemma wf_rows (img : Image) :
  wf_image img = true ->
  length (im_rows img) = im_height img /\
  Forall (fun r => length r = im_width img) (im_rows img).
Proof.
  unfold wf_image. intros W. apply andb_true_iff in W. destruct W as [Hl Hr].
  split; [apply Nat.eqb_eq; exact Hl|].
  apply Forall_forall. intros row Hin.
  rewrite forallb_forall in Hr. specialize (Hr row Hin).
  apply andb_true_iff in Hr. apply Nat.eqb_eq. apply Hr.
Qed.

Lemma of_image_rows (img : Image) (w : nat) :
  Forall (fun r => length r = w) (im_rows img) ->
  Forall (fun r => length r = w) (Np.of_image img).
Proof.
  intros H. unfold Np.of_image. apply Forall_map.
  eapply Forall_impl; [|exact H]. intros r Hr. simpl. rewrite length_map. exact Hr.
Qed.

Lemma mask_shape (i1 i2 : Image) (t : Z) :
  wf_image i1 = true -> wf_image i2 = true -> size i1 = size i2 ->
  length (Np.mean_axis2_gt (Np.abs_sub (Np.of_image i1) (Np.of_image i2)) t)
    = im_height i1 /\
  rect (im_width i1)
    (Np.mean_axis2_gt (Np.abs_sub (Np.of_image i1) (Np.of_image i2)) t) = true.
Proof.
  intros W1 W2 S. unfold size in S. injection S as Sw Sh.
  destruct (wf_rows i1 W1) as [L1 R1]. destruct (wf_rows i2 W2) as [L2 R2].
  rewrite <- Sw in R2.
  unfold Np.mean_axis2_gt, Np.abs_sub. split.
  - rewrite length_map, map2_length. unfold Np.of_image. rewrite !length_map. lia.
  - unfold rect. apply forallb_forall. intros row Hin.
    apply in_map_iff in Hin. destruct Hin as [r [<- Hin]].
    rewrite length_map. apply Nat.eqb_eq.
    pose proof (map2_rows (Np.map2 (fun x y => Z.abs (x - y))) (im_width i1)
                  (Np.of_image i1) (Np.of_image i2)
                  (of_image_rows i1 _ R1) (of_image_rows i2 _ R2)) as HF.
    rewrite Forall_forall in HF. apply HF. exact Hin.
Qed.

Section Box.
Context {Ext : Externals} {Laws : PillowLaws Ext}.

Lemma mask_of_shape (img1 img2 : Image) :
  wf_image img1 = true -> wf_image img2 = true ->
  length (mask_of img1 img2) = im_height (fst (resize_to_match img1 img2)) /\
  rect (im_width (fst (resize_to_match img1 img2))) (mask_of img1 img2) = true.
Proof.
  intros W1 W2. unfold mask_of, diff_of.
  destruct (resize_to_match_wf img1 img2 W1 W2) as [V1 V2].
  apply mask_shape; [exact V1 | exact V2 | apply resize_to_match_sizes].
Qed.

(** C4: in every comparison, with [dp] the diff percentage computed from
    the mask: if [dp <= 0.5] no region is produced; there is never more than
    one region; and if [dp > 0.5] and some pixel of the mask differs, exactly
    one region is produced, whose rows run from the first differing row to
    the last differing row and whose columns run from the first differing
    column to the last differing column, so that it encloses every differing
    pixel and no smaller box does.  [y_end] and [x_end] are stored as
    exclusive ends: one past the last differing row and column. *)
Theorem region_is_bounding_box
  (name : string) (img1 img2 : Image) (d : DiffStats) (w : Write) :
  wf_image img1 = true -> wf_image img2 = true ->
  pixel_diff_images name img1 img2 = ok (d, w) ->
  let m := mask_of img1 img2 in
  let dp := percent_of_mask m in
  ((dp <= 1 # 2)%Q -> regions d = []) /\
  (length (regions d) <= 1)%nat /\
  ((1 # 2 < dp)%Q -> (exists y x, differs m y x) ->
   exists r, regions d = [r] /\
     first_such (row_differs m) (y_start r) /\
     last_such (row_differs m) (y_end r - 1) /\
     first_such (col_differs m) (x_start r) /\
     last_such (col_differs m) (x_end r - 1) /\
     forall y x, differs m y x ->
       (y_start r <= Z.of_nat y < y_end r)%Z /\
       (x_start r <= Z.of_nat x < x_end r)%Z).
Proof.
  intros W1 W2 H m dp.
  apply pixel_diff_images_inv in H.
  destruct H as (mx & _ & _ & _ & _ & _ & _ & Hreg).
  fold m in Hreg. fold dp in Hreg.
  destruct (mask_of_shape img1 img2 W1 W2) as [_ R]. fold m in R.
  set (wd := im_width (fst (resize_to_match img1 img2))) in *.
  rewrite Hreg. split; [|split].
  - apply detect_regions_small.
  - unfold detect_regions.
    destruct (Num.gt dp (1 # 2)); [|simpl; lia].
    destruct (Np.any (Np.any_axis1 m)); simpl; lia.
  - intros Hgt (y0 & x0 & D0).
    assert (Hin : exists r, In r (detect_regions wd m dp)).
    { unfold detect_regions.
      apply gt_true in Hgt. rewrite Hgt.
      rewrite (any_rows_of_pixel m y0 x0 D0). eexists. left. reflexivity. }
    destruct Hin as [r Hin]. exists r.
    destruct (detect_regions_box wd m dp r R Hin)
      as (_ & E & Hrf & Hrl & Hcf & Hcl & _).
    split; [exact E|]. repeat (split; [assumption|]).
    intros y x D.
    destruct Hrf as (a & Ea & _ & Ha). destruct Hrl as (b & Eb & _ & Hb).
    destruct Hcf as (c & Ec & _ & Hc). destruct Hcl as (e & Ee & _ & He).
    assert (Ry : row_differs m y) by (exists x; exact D).
    assert (Cx : col_differs m x) by (exists y; exact D).
    specialize (Ha y Ry). specialize (Hb y Ry).
    specialize (Hc x Cx). specialize (He x Cx). lia.
Qed.

(** C8: the mask of a comparison has the height H and the width W of the
    reported resolution, and a region emitted for it satisfies
    [0 <= y_start < y_end <= H] and [0 <= x_start < x_end <= W]; its
    [area_percent] is the reported [diff_percent] of the result. *)
Theorem region_within_bounds
  (name : string) (img1 img2 : Image) (d : DiffStats) (w : Write) (r : Region) :
  wf_image img1 = true -> wf_image img2 = true ->
  pixel_diff_images name img1 img2 = ok (d, w) ->
  In r (regions d) ->
  length (mask_of img1 img2) = snd (resolution d) /\
  rect (fst (resolution d)) (mask_of img1 img2) = true /\
  (0 <= y_start r < y_end r)%Z /\ (y_end r <= Z.of_nat (snd (resolution d)))%Z /\
  (0 <= x_start r < x_end r)%Z /\ (x_end r <= Z.of_nat (fst (resolution d)))%Z /\
  area_percent r = diff_percent d.
Proof.
  intros W1 W2 H Hin.
  apply pixel_diff_images_inv in H.
  destruct H as (mx & _ & _ & _ & Hp & _ & Hres & Hreg).
  destruct (mask_of_shape img1 img2 W1 W2) as [L R].
  rewrite Hreg in Hin. rewrite Hres, Hp.
  destruct (detect_regions_box _ _ _ r R Hin)
    as (_ & _ & Hrf & Hrl & Hcf & Hcl & Hy & Hx & Ha).
  pose proof (first_le_last _ _ _ Hrf Hrl).
  pose proof (first_le_last _ _ _ Hcf Hcl).
  rewrite L in Hy. simpl.
  split; [exact L|]. split; [exact R|].
  repeat split; try lia. exact Ha.
Qed.

End Box.

(** ** The batch report *)

Section Dictionaries.
Context {V : Type}.

Lemma get_set_same (k : string) (v : V) (d : list (string * V)) :
  Dict.get k (Dict.set k v d) = Some v.
Proof.
  induction d as [|[k' v'] d IH]; simpl.
  - rewrite String.eqb_refl. reflexivity.
  - destruct (String.eqb k' k) eqn:E; simpl; rewrite E; [reflexivity | exact IH].
Qed.

Lemma get_set_other (k k' : string) (v : V) (d : list (string * V)) :
  k <> k' -> Dict.get k (Dict.set k' v d) = Dict.get k d.
Proof.
  intros N. induction d as [|[k0 v0] d IH]; simpl.
  - destruct (String.eqb k' k) eqn:E; [|reflexivity].
    apply String.eqb_eq in E. congruence.
  - destruct (String.eqb k0 k') eqn:E; simpl.
    + apply String.eqb_eq in E. subst k0.
      destruct (String.eqb k' k) eqn:E'; [|reflexivity].
      apply String.eqb_eq in E'. congruence.
    + rewrite IH. reflexivity.
Qed.

End Dictionaries.

Section Batch.
Context {Ext : Externals}.

Lemma compare_screen_no_unity (inp : Inputs) (name : string) :
  unity_files inp name = None ->
  compare_screen inp name = ok (Missing "missing_unity", []).
Proof.
  intros H. unfold compare_screen, exists_. simpl. rewrite H. reflexivity.
Qed.

(** A screen keeps in [results] the record its own comparison gives. *)
Lemma compare_loop_get (inp : Inputs) (name : string) (v : ScreenRecord) (wv : list Write) :
  compare_screen inp name = ok (v, wv) ->
  forall targets results written results' written',
    compare_loop inp targets results written = ok (results', written') ->
    In name targets \/ Dict.get name results = Some v ->
    Dict.get name results' = Some v.
Proof.
  intros Hv. induction targets as [|s rest IH]; intros results written results' written' H Hin.
  - simpl in H. injection H as <- _. destruct Hin as [[]|Hg]. exact Hg.
  - simpl in H.
    destruct (compare_screen inp s) as [e|r] eqn:Hs; [discriminate|]. simpl in H.
    apply (IH _ _ _ _ H).
    destruct (string_dec s name) as [E|N].
    + right. subst s. rewrite Hv in Hs. injection Hs as <-. simpl. apply get_set_same.
    + destruct Hin as [[E|Hin]|Hg]; [congruence | left; exact Hin | right].
      rewrite get_set_other by congruence. exact Hg.
Qed.

(** C10: the captured (Unity) image is looked for before the reference
    (Figma) image, so a screen that lacks both is recorded with the status
    "missing_unity", not "missing_figma"; its comparison returns at once,
    without opening an image or writing a diff image, and that status is
    what the report of any batch that names it holds for it. *)
Theorem missing_both_is_missing_unity (inp : Inputs) (name : string) :
  unity_files inp name = None -> figma_files inp name = None ->
  compare_screen inp name = ok (Missing "missing_unity", []) /\
  forall clock targets report ws,
    In name targets ->
    compare_screens inp clock (Some targets) = ok (report, ws) ->
    Dict.get name (screens report) = Some (Missing "missing_unity").
Proof.
  intros Hu _.
  pose proof (compare_screen_no_unity inp name Hu) as Hc.
  split; [exact Hc|].
  intros clock targets report ws Hin H.
  unfold compare_screens in H.
  destruct targets as [|s r]; [destruct Hin|].
  destruct (compare_loop inp (s :: r) [] []) as [e|lr] eqn:Hl; [discriminate|].
  simpl in H. injection H as <- _. simpl.
  destruct lr as [res wr]. simpl.
  apply (compare_loop_get inp name _ _ Hc _ _ _ _ _ Hl). left. exact Hin.
Qed.

Lemma missing_counted_failing (results : list (string * ScreenRecord)) :
  (missing (summarize results) <= failing (summarize results))%nat.
Proof.
  unfold summarize, Dict.count, Dict.values; simpl.
  induction (map snd results) as [|r l IH]; simpl; [lia|].
  destruct r as [st|err src|d src]; simpl.
  - change (Classify.is_failing 0) with true. simpl. lia.
  - change (Classify.is_failing 0) with true. simpl. lia.
  - destruct (Classify.is_failing (match_score d)); simpl; lia.
Qed.

Lemma one_band (score : Q) :
  (Nat.b2n (Classify.is_passing score) + Nat.b2n (Classify.is_warning score)
   + Nat.b2n (Classify.is_failing score) = 1)%nat.
Proof.
  destruct (bands_exclusive score) as [Xp [Xw Xf]].
  destruct (emoji_cases score) as [[_ H]|[[_ H]|[_ H]]]; rewrite H.
  - destruct (Xp H) as [-> ->]. reflexivity.
  - destruct (Xw H) as [-> ->]. reflexivity.
  - destruct (Xf H) as [-> ->]. reflexivity.
Qed.

(** X1: the three bands of the summary cover every record, the missing ones
    included: passing + warning + failing = total. *)
Lemma summary_bands_cover (results : list (string * ScreenRecord)) :
  (passing (summarize results) + warning (summarize results)
   + failing (summarize results) = total (summarize results))%nat.
Proof.
  unfold summarize, Dict.count, Dict.values; simpl.
  rewrite <- (length_map snd results).
  induction (map snd results) as [|r l IH]; simpl; [reflexivity|].
  pose proof (one_band (or_zero (get_match_score r))) as H1.
  destruct (Classify.is_passing _), (Classify.is_warning _), (Classify.is_failing _);
    simpl in *; lia.
Qed.

Lemma compare_screens_eq (inp : Inputs) (clock : Clock) (targets : option (list string))
  (report : Report) (ws : list Write) :
  compare_screens inp clock targets = ok (report, ws) ->
  exists results written,
    report = {| timestamp := now_isoformat clock;
                screens := results;
                summary := summarize results |} /\
    ws = written ++
         [ WriteJson (REPORTS_DIR ++ "/qa_report_" ++ now_stamp clock ++ ".json") report;
           WriteJson latest_json report;
           WriteText latest_md (generate_markdown_report report) ] /\
    forall clock',
      compare_screens inp clock' targets =
      ok ({| timestamp := now_isoformat clock';
             screens := results;
             summary := summarize results |},
          written ++
          [ WriteJson (REPORTS_DIR ++ "/qa_report_" ++ now_stamp clock' ++ ".json")
              {| timestamp := now_isoformat clock';
                 screens := results; summary := summarize results |};
            WriteJson latest_json
              {| timestamp := now_isoformat clock';
                 screens := results; summary := summarize results |};
            WriteText latest_md
              (generate_markdown_report
                 {| timestamp := now_isoformat clock';
                    screens := results; summary := summarize results |}) ]).
Proof.
  unfold compare_screens.
  destruct (compare_loop inp _ [] []) as [e|[results written]]; [discriminate|].
  simpl. intros [= <- <-]. exists results, written. repeat split; reflexivity.
Qed.

Lemma last_written_latest (written : list Write) (p : string) (r : Report) (md : string) :
  last_written latest_json (written ++ [WriteJson p r; WriteJson latest_json r; WriteText latest_md md])
    = Some (WriteJson latest_json r) /\
  last_written latest_md (written ++ [WriteJson p r; WriteJson latest_json r; WriteText latest_md md])
    = Some (WriteText latest_md md).
Proof.
  unfold last_written. rewrite rev_app_distr. simpl rev. simpl app.
  split.
  - cbn [find write_path].
    replace (String.eqb latest_md latest_json) with false by (vm_compute; reflexivity).
    rewrite String.eqb_refl. reflexivity.
  - cbn [find write_path]. rewrite String.eqb_refl. reflexivity.
Qed.

(** The fingerprints of a compared screen are the first twelve characters
    of the digests of its two files. *)
Lemma compare_screen_hashes (inp : Inputs) (name : string)
  (d : DiffStats) (src : Sources) (ws : list Write) :
  compare_screen inp name = ok (Compared d src, ws) ->
  exists ub fb,
    unity_files inp name = Some ub /\ figma_files inp name = Some fb /\
    unity_hash src = substring 0 12 (md5_hexdigest ub) /\
    figma_hash src = substring 0 12 (md5_hexdigest fb).
Proof.
  unfold compare_screen, exists_, fingerprint. simpl.
  destruct (unity_files inp name) as [ub|]; [|discriminate].
  destruct (figma_files inp name) as [fb|]; [|discriminate]. simpl.
  destruct (pixel_diff inp (UnityPng name) (FigmaPng name)) as [e|[o w]]; [discriminate|].
  simpl. destruct o as [msg|d']; [discriminate|].
  intros [= _ <- _]. exists ub, fb. simpl. auto.
Qed.

(** Every record of [results] is what the comparison of its screen gives. *)
Lemma compare_loop_records (inp : Inputs) :
  forall targets results written results' written',
    compare_loop inp targets results written = ok (results', written') ->
    (forall k v, Dict.get k results = Some v ->
                 exists w, compare_screen inp k = ok (v, w)) ->
    forall k v, Dict.get k results' = Some v ->
                exists w, compare_screen inp k = ok (v, w).
Proof.
  induction targets as [|s rest IH]; intros results written results' written' H Inv.
  - simpl in H. injection H as <- _. exact Inv.
  - simpl in H.
    destruct (compare_screen inp s) as [e|[v0 w0]] eqn:Hs; [discriminate|]. simpl in H.
    apply (IH _ _ _ _ H).
    intros k v Hg.
    destruct (string_dec k s) as [->|N].
    + rewrite get_set_same in Hg. injection Hg as <-. eauto.
    + rewrite get_set_other in Hg by exact N. apply Inv. exact Hg.
Qed.

Lemma report_records (inp : Inputs) (clock : Clock) (targets : option (list string))
  (report : Report) (ws : list Write) :
  compare_screens inp clock targets = ok (report, ws) ->
  forall k v, Dict.get k (screens report) = Some v ->
              exists w, compare_screen inp k = ok (v, w).
Proof.
  unfold compare_screens.
  destruct (compare_loop inp _ [] []) as [e|[results written]] eqn:Hl; [discriminate|].
  simpl. intros [= <- _]. simpl.
  apply (compare_loop_records inp _ _ _ _ _ Hl).
  intros k v Hg. discriminate Hg.
Qed.

Lemma substring_length_le (n : nat) (s : string) :
  (String.length (substring 0 n s) <= n)%nat.
Proof.
  revert s. induction n as [|n IH]; intros [|c s]; simpl; try lia.
  specialize (IH s). lia.
Qed.

(** C7, amended: a run succeeds or fails whatever the clock says; two runs
    on unchanged inputs produce the same per-screen records (statistics,
    paths and content fingerprints, each fingerprint being the first twelve
    characters of the digest of the file's content) and the same summary,
    and each leaves in the "latest" JSON and markdown files its own report;
    the reports, and so the latest files, differ at most in the timestamp,
    and are identical when the two timestamps are. *)
Theorem report_determined_by_inputs_and_clock
  (inp : Inputs) (c1 c2 : Clock) (targets : option (list string))
  (r1 : Report) (w1 : list Write) :
  compare_screens inp c1 targets = ok (r1, w1) ->
  exists r2 w2,
    compare_screens inp c2 targets = ok (r2, w2) /\
    screens r2 = screens r1 /\
    summary r2 = summary r1 /\
    (forall name d src,
       Dict.get name (screens r1) = Some (Compared d src) ->
       exists ub fb,
         unity_files inp name = Some ub /\ figma_files inp name = Some fb /\
         unity_hash src = substring 0 12 (md5_hexdigest ub) /\
         figma_hash src = substring 0 12 (md5_hexdigest fb)) /\
    timestamp r1 = now_isoformat c1 /\
    timestamp r2 = now_isoformat c2 /\
    last_written latest_json w1 = Some (WriteJson latest_json r1) /\
    last_written latest_json w2 = Some (WriteJson latest_json r2) /\
    last_written latest_md w1 = Some (WriteText latest_md (generate_markdown_report r1)) /\
    last_written latest_md w2 = Some (WriteText latest_md (generate_markdown_report r2)) /\
    (now_isoformat c2 = now_isoformat c1 ->
       r2 = r1 /\
       last_written latest_json w2 = last_written latest_json w1 /\
       last_written latest_md w2 = last_written latest_md w1).
Proof.
  intros H.
  pose proof (report_records inp c1 targets r1 w1 H) as Hrec.
  destruct (compare_screens_eq inp c1 targets r1 w1 H) as (results & written & -> & -> & Hc).
  eexists. eexists. split; [apply (Hc c2)|].
  simpl. split; [reflexivity|]. split; [reflexivity|]. split.
  { intros name d src Hg. simpl in Hrec.
    destruct (Hrec name _ Hg) as [w Hw].
    apply (compare_screen_hashes inp name d src w Hw). }
  repeat (split; [first [reflexivity | apply last_written_latest]|]).
  intros E. rewrite E.
  split; [reflexivity|].
  rewrite !(proj1 (last_written_latest _ _ _ _)), !(proj2 (last_written_latest _ _ _ _)).
  split; reflexivity.
Qed.

End Batch.

(** ** One set of bands, three places *)

Section Judging.
Context {Ext : Externals}.
Local Open Scope Q_scope.

Lemma count_snoc {V : Type} (p : V -> bool) (results : list (string * V))
  (name : string) (r : V) :
  Dict.count p (Dict.values (results ++ [(name, r)])) =
  (Dict.count p (Dict.values results) + Nat.b2n (p r))%nat.
Proof.
  unfold Dict.count, Dict.values.
  rewrite map_app, filter_app, length_app. simpl.
  destruct (p r); reflexivity.
Qed.

(** C3, amended: the three places that judge a compared screen (the
    console line, the summary counts and the markdown row) use one set of
    bands on its match score: passing is [score > 95], warning is
    [80 < score <= 95], failing is [score <= 80].  The console line and
    the markdown row of a compared screen carry the glyph of the band of
    its match score, and adding the screen to a batch adds one to the
    summary count of that band and nothing to the two others.  A score of
    exactly 95.0 is a warning, a score of exactly 80.0 is failing, and
    anything strictly between 80 and 95 is a warning. *)
Theorem classification_is_uniform
  (score : Q) (name : string) (d : DiffStats) (src : Sources)
  (results : list (string * ScreenRecord)) :
  ((Classify.is_passing score = true <-> 95 < score) /\
   (Classify.is_warning score = true <-> 80 < score /\ score <= 95) /\
   (Classify.is_failing score = true <-> score <= 80) /\
   (Classify.emoji score = Classify.PASS <-> Classify.is_passing score = true) /\
   (Classify.emoji score = Classify.WARN <-> Classify.is_warning score = true) /\
   (Classify.emoji score = Classify.FAIL <-> Classify.is_failing score = true) /\
   Classify.emoji 95 = Classify.WARN /\
   Classify.emoji 80 = Classify.FAIL) /\
  let r := Compared d src in
  let before := summarize results in
  let after := summarize (results ++ [(name, r)]) in
  exists glyph : string,
    (glyph = Classify.PASS <-> 95 < match_score d) /\
    (glyph = Classify.WARN <-> 80 < match_score d /\ match_score d <= 95) /\
    (glyph = Classify.FAIL <-> match_score d <= 80) /\
    console_line name r =
      ("  " ++ glyph ++ " " ++ name ++ ": " ++ float_repr (match_score d) ++ "% match ("
            ++ float_repr (diff_percent d) ++ "% pixels differ)")%string /\
    markdown_row name r =
      ("| " ++ name ++ " | " ++ float_repr (match_score d) ++ "% | "
            ++ float_repr (diff_percent d) ++ "% | " ++ glyph ++ " |")%string /\
    (95 < match_score d ->
       passing after = S (passing before) /\
       warning after = warning before /\ failing after = failing before) /\
    (80 < match_score d /\ match_score d <= 95 ->
       passing after = passing before /\
       warning after = S (warning before) /\ failing after = failing before) /\
    (match_score d <= 80 ->
       passing after = passing before /\
       warning after = warning before /\ failing after = S (failing before)) /\
    total after = S (total before) /\ missing after = missing before.
Proof.
  split; [exact (bands_spec score)|].
  intros r before after.
  destruct (bands_spec (match_score d)) as (Bp & Bw & Bf & Ep & Ew & Ef & _ & _).
  exists (Classify.emoji (match_score d)).
  split; [rewrite Ep; exact Bp|].
  split; [rewrite Ew; exact Bw|].
  split; [rewrite Ef; exact Bf|].
  split; [reflexivity|].
  split; [reflexivity|].
  assert (P : passing after =
              (passing before + Nat.b2n (Classify.is_passing (match_score d)))%nat).
  { unfold after, before, summarize. cbn [passing]. rewrite count_snoc. reflexivity. }
  assert (W : warning after =
              (warning before + Nat.b2n (Classify.is_warning (match_score d)))%nat).
  { unfold after, before, summarize. cbn [warning]. rewrite count_snoc. reflexivity. }
  assert (F : failing after =
              (failing before + Nat.b2n (Classify.is_failing (match_score d)))%nat).
  { unfold after, before, summarize. cbn [failing]. rewrite count_snoc. reflexivity. }
  assert (T : total after = S (total before)).
  { unfold after, before, summarize. cbn [total]. rewrite length_app. simpl. lia. }
  assert (M : missing after = missing before).
  { unfold after, before, summarize. cbn [missing]. rewrite count_snoc. simpl. lia. }
  destruct (bands_exclusive (match_score d)) as (Xp & Xw & Xf).
  rewrite P, W, F.
  split; [|split; [|split; [|split; [exact T | exact M]]]].
  - intros H. apply Bp in H. destruct (Xp H) as [A B]. rewrite H, A, B. simpl. lia.
  - intros H. apply Bw in H. destruct (Xw H) as [A B]. rewrite H, A, B. simpl. lia.
  - intros H. apply Bf in H. destruct (Xf H) as [A B]. rewrite H, A, B. simpl. lia.
Qed.

End Judging.

(** C7, as the claim states it, fails: two runs on the same inputs, five
    seconds apart, leave different "latest" JSON reports, because the report
    carries the time of the run. *)
Lemma latest_outputs_depend_on_clock :
  ~ (forall (Ext : Externals) (inp : Inputs) (c1 c2 : Clock)
            (targets : option (list string)) (r1 r2 : Report) (w1 w2 : list Write),
       compare_screens inp c1 targets = ok (r1, w1) ->
       compare_screens inp c2 targets = ok (r2, w2) ->
       last_written latest_json w1 = last_written latest_json w2 /\
       last_written latest_md w1 = last_written latest_md w2).
Proof.
  intros H.
  destruct (H Sample.ext Sample.inputs
              (mkClock "2026-01-01T09:00:00" "20260101_090000")
              (mkClock "2026-01-01T09:00:05" "20260101_090005")
              (Some ["A"%string]) _ _ _ _ eq_refl eq_refl) as [HJ _].
  vm_compute in HJ. discriminate HJ.
Qed.

(** C2, on the code: a record with a status has no match score, the summary
    reads it as 0, and 0 is in the failing band; so every missing screen is
    counted as failing too.  A batch of one screen whose captured image is
    missing reports [failing = 1] and [missing = 1]. *)
Theorem missing_screen_counted_as_failing :
  (forall results, (missing (summarize results) <= failing (summarize results))%nat) /\
  forall (Ext : Externals) (clock : Clock),
    exists report ws,
      compare_screens
        {| unity_files := Sample.empty_dir;
           figma_files := Sample.dir [("LoadingScreen"%string, Sample.file 1 1 [7%nat])] |}
        clock (Some ["LoadingScreen"%string]) = ok (report, ws) /\
      screens report = [("LoadingScreen"%string, Missing "missing_unity")] /\
      summary report =
        {| total := 1; passing := 0; warning := 0; failing := 1; missing := 1 |}.
Proof.
  split; [apply missing_counted_failing|].
  intros Ext clock. eexists. eexists. split; [reflexivity|]. split; reflexivity.
Qed.

(** ** The theorems at concrete inputs *)

(** C3 at a screen whose match score is exactly 95.0, alone in its batch:
    it is counted as a warning. *)
Lemma classification_is_uniform_witness :
  let d := {| mean_diff := 3; max_diff := 200; diff_percent := 5;
              diff_image := "QA/Reports/diff_A.png"; resolution := (10, 10)%nat;
              regions := []; match_score := 95 |} in
  let src := {| unity_path := "QA/Screenshots/Unity/A.png";
                figma_path := "QA/Screenshots/Figma/A.png";
                unity_hash := "0a0a01010101"; figma_hash := "0a0a01010102" |} in
  let s := summarize [("A"%string, Compared d src)] in
  passing s = 0%nat /\ warning s = 1%nat /\ failing s = 0%nat.
Proof.
  intros d src s.
  destruct (classification_is_uniform (Ext := Sample.ext) 95 "A" d src [])
    as (_ & glyph & _ & _ & _ & _ & _ & _ & H & _).
  apply H. split; vm_compute; [reflexivity | discriminate].
Defined.

(** In binary64 itself, with numpy's rounding and with Python's, the
    amended bound holds for every mask of at most 64 pixels. *)
Lemma binary64_scores_checked (count size : nat) :
  (0 < size <= 64)%nat -> (count <= size)%nat ->
  complementary_in_binary64 Binary64.arith count size = true /\
  complementary_in_binary64 Binary64.py_arith count size = true.
Proof.
  intros Hs Hc.
  set (ok2 := fun cs : nat * nat =>
                complementary_in_binary64 Binary64.arith (fst cs) (snd cs) &&
                complementary_in_binary64 Binary64.py_arith (fst cs) (snd cs)).
  assert (All : forallb ok2 (all_pairs 64) = true) by (vm_compute; reflexivity).
  assert (G : ok2 (count, size) = true).
  { rewrite forallb_forall in All. apply All.
    unfold all_pairs. apply in_flat_map. exists size. split.
    - apply in_seq. lia.
    - apply in_map_iff. exists count. split; [reflexivity|]. apply in_seq. lia. }
  unfold ok2 in G. cbn [fst snd] in G. apply andb_true_iff in G. exact G.
Qed.


(** C9 at screen [C] of the sample inputs. *)
Lemma percent_and_score_in_range_witness :
  exists d ws,
    pixel_diff (Ext := Sample.ext) Sample.inputs (UnityPng "C") (FigmaPng "C")
      = ok (DiffOk d, ws) /\
    (0 <= diff_percent d /\ diff_percent d <= 100 /\
     0 <= match_score d /\ match_score d <= 100)%Q.
Proof.
  eexists. eexists. split; [vm_compute; reflexivity|].
  eapply (percent_and_score_in_range (Ext := Sample.ext)
            Sample.inputs (UnityPng "C") (FigmaPng "C")).
  vm_compute. reflexivity.
Defined.

(** C6 at a 2x2 image. *)
Lemma identical_images_match_witness :
  exists d w,
    pixel_diff_images (Ext := Sample.ext) "A"
      (Sample.raster 2 2 (fun y x => Sample.grey (Z.of_nat (10 * y + x))))
      (Sample.raster 2 2 (fun y x => Sample.grey (Z.of_nat (10 * y + x))))
      = ok (d, w) /\
    (diff_percent d == 0)%Q /\ (mean_diff d == 0)%Q /\ (max_diff d == 0)%Q /\
    (match_score d == 100)%Q /\ regions d = [].
Proof.
  apply (identical_images_match (Ext := Sample.ext) "A"
           (Sample.raster 2 2 (fun y x => Sample.grey (Z.of_nat (10 * y + x))))).
  - reflexivity.
  - simpl. lia.
  - simpl. lia.
Defined.

(** C4 at a 3x3 pair that differs in the pixels (1,1) and (2,1): the box is
    rows 1..2, column 1. *)
Lemma region_is_bounding_box_witness :
  let img1 := Sample.raster 3 3 (fun _ _ => Sample.grey 0) in
  let img2 := Sample.raster 3 3 (fun y x =>
                Sample.grey (if ((1 <=? y) && (x =? 1))%nat then 250 else 0)) in
  exists d w r,
    pixel_diff_images (Ext := Sample.ext) "C" img1 img2 = ok (d, w) /\
    regions d = [r] /\
    first_such (row_differs (mask_of (Ext := Sample.ext) img1 img2)) (y_start r) /\
    last_such (row_differs (mask_of (Ext := Sample.ext) img1 img2)) (y_end r - 1) /\
    first_such (col_differs (mask_of (Ext := Sample.ext) img1 img2)) (x_start r) /\
    last_such (col_differs (mask_of (Ext := Sample.ext) img1 img2)) (x_end r - 1).
Proof.
  intros img1 img2.
  assert (E : exists d w, pixel_diff_images (Ext := Sample.ext) "C" img1 img2 = ok (d, w)).
  { eexists. eexists. vm_compute. reflexivity. }
  destruct E as (d & w & E).
  destruct (region_is_bounding_box (Ext := Sample.ext) (Laws := sample_laws)
              "C" img1 img2 d w eq_refl eq_refl E) as (_ & _ & H).
  destruct H as (r & Hr & H1 & H2 & H3 & H4 & _).
  - vm_compute. reflexivity.
  - exists 1%nat, 1%nat. vm_compute. reflexivity.
  - exists d, w, r. tauto.
Defined.

(** C8 at the same pair. *)
Lemma region_within_bounds_witness :
  let img1 := Sample.raster 3 3 (fun _ _ => Sample.grey 0) in
  let img2 := Sample.raster 3 3 (fun y x =>
                Sample.grey (if ((1 <=? y) && (x =? 1))%nat then 250 else 0)) in
  exists d w r,
    pixel_diff_images (Ext := Sample.ext) "C" img1 img2 = ok (d, w) /\
    In r (regions d) /\
    (0 <= y_start r < y_end r)%Z /\ (y_end r <= Z.of_nat (snd (resolution d)))%Z /\
    (0 <= x_start r < x_end r)%Z /\ (x_end r <= Z.of_nat (fst (resolution d)))%Z /\
    area_percent r = diff_percent d.
Proof.
  intros img1 img2.
  eexists. eexists. eexists.
  split; [vm_compute; reflexivity|].
  split; [vm_compute; left; reflexivity|].
  eapply (fun d w r W1 W2 E I =>
            proj2 (proj2 (region_within_bounds (Ext := Sample.ext) (Laws := sample_laws)
                            "C" img1 img2 d w r W1 W2 E I))).
  - reflexivity.
  - reflexivity.
  - vm_compute. reflexivity.
  - vm_compute. left. reflexivity.
Defined.

(** C10 at a screen of which the sample inputs hold no image. *)
Lemma missing_both_is_missing_unity_witness :
  compare_screen (Ext := Sample.ext) Sample.inputs "Z" = ok (Missing "missing_unity", []) /\
  forall clock targets report ws,
    In "Z"%string targets ->
    compare_screens (Ext := Sample.ext) Sample.inputs clock (Some targets) = ok (report, ws) ->
    Dict.get "Z" (screens report) = Some (Missing "missing_unity").
Proof.
  apply (missing_both_is_missing_unity (Ext := Sample.ext) Sample.inputs "Z");
    reflexivity.
Defined.

(** C7, amended, at the sample inputs and two clocks five seconds apart. *)
Lemma report_determined_by_inputs_and_clock_witness :
  let c1 := mkClock "2026-01-01T09:00:00" "20260101_090000" in
  let c2 := mkClock "2026-01-01T09:00:05" "20260101_090005" in
  exists r1 w1 r2 w2,
    compare_screens (Ext := Sample.ext) Sample.inputs c1 (Some ["A"; "B"; "C"]%string)
      = ok (r1, w1) /\
    compare_screens (Ext := Sample.ext) Sample.inputs c2 (Some ["A"; "B"; "C"]%string)
      = ok (r2, w2) /\
    screens r2 = screens r1 /\ summary r2 = summary r1.
Proof.
  intros c1 c2.
  assert (E : exists r1 w1,
             compare_screens (Ext := Sample.ext) Sample.inputs c1
               (Some ["A"; "B"; "C"]%string) = ok (r1, w1)).
  { eexists. eexists. vm_compute. reflexivity. }
  destruct E as (r1 & w1 & E).
  destruct (report_determined_by_inputs_and_clock (Ext := Sample.ext)
              Sample.inputs c1 c2 _ r1 w1 E) as (r2 & w2 & H2 & Hs & Hm & _).
  exists r1, w1, r2, w2. tauto.
Defined.

(** * Further properties of the engine and of the export *)

(** ** The keys of the report *)

Section Keys.
Context {V : Type}.

Lemma existsb_eqb_In (k : string) (l : list string) :
  existsb (String.eqb k) l = true <-> In k l.
Proof.
  rewrite existsb_exists. split.
  - intros [x [Hin E]]. apply String.eqb_eq in E. subst. exact Hin.
  - intros Hin. exists k. split; [exact Hin | apply String.eqb_refl].
Qed.

Lemma keys_set (k : string) (v : V) (d : list (string * V)) :
  map fst (Dict.set k v d) = add_key (map fst d) k.
Proof.
  unfold add_key. induction d as [|[k' v'] d IH]; simpl; [reflexivity|].
  rewrite (String.eqb_sym k k').
  destruct (String.eqb k' k) eqn:E; simpl; [reflexivity|].
  rewrite IH. destruct (existsb (String.eqb k) (map fst d)); reflexivity.
Qed.

Lemma add_key_In (keys : list string) (k x : string) :
  In x (add_key keys k) <-> In x keys \/ x = k.
Proof.
  unfold add_key. destruct (existsb (String.eqb k) keys) eqn:E.
  - apply existsb_eqb_In in E. split; [auto | intros [H | ->]; assumption].
  - rewrite in_app_iff. simpl. split; intros [H | H]; auto.
    + destruct H as [<- | []]. auto.
Qed.

Lemma add_key_NoDup (keys : list string) (k : string) :
  NoDup keys -> NoDup (add_key keys k).
Proof.
  intros H. unfold add_key. destruct (existsb (String.eqb k) keys) eqn:E; [exact H|].
  assert (N : ~ In k keys).
  { intros Hin. apply existsb_eqb_In in Hin. congruence. }
  clear E. induction H as [|x l Hx Hl IH]; simpl.
  - constructor; [intros [] | constructor].
  - constructor.
    + rewrite in_app_iff. simpl. intros [H1 | [H1 | []]]; [auto | subst; apply N; left; reflexivity].
    + apply IH. intros Hin. apply N. right. exact Hin.
Qed.

Lemma fold_add_key_In (l keys : list string) (x : string) :
  In x (fold_left add_key l keys) <-> In x keys \/ In x l.
Proof.
  revert keys. induction l as [|k l IH]; intros keys; simpl.
  - tauto.
  - rewrite IH, add_key_In. split; intros H; intuition (subst; auto).
Qed.

Lemma fold_add_key_NoDup (l keys : list string) :
  NoDup keys -> NoDup (fold_left add_key l keys).
Proof.
  revert keys. induction l as [|k l IH]; intros keys H; simpl; [exact H|].
  apply IH. apply add_key_NoDup. exact H.
Qed.

End Keys.

Section ReportKeys.
Context {Ext : Externals}.

Lemma compare_loop_keys (inp : Inputs) :
  forall targets results written results' written',
    compare_loop inp targets results written = ok (results', written') ->
    map fst results' = fold_left add_key targets (map fst results).
Proof.
  induction targets as [|s rest IH]; intros results written results' written' H; simpl in H.
  - injection H as <- _. reflexivity.
  - destruct (compare_screen inp s) as [e|r]; [discriminate|]. simpl in H.
    rewrite (IH _ _ _ _ H), keys_set. reflexivity.
Qed.

Lemma compare_screens_loop (inp : Inputs) (clock : Clock) (screens0 : option (list string))
  (report : Report) (ws : list Write) :
  compare_screens inp clock screens0 = ok (report, ws) ->
  exists written,
    compare_loop inp (targets_of screens0) [] [] = ok (screens report, written) /\
    summary report = summarize (screens report) /\
    timestamp report = now_isoformat clock /\
    ws = written ++
         [ WriteJson (REPORTS_DIR ++ "/qa_report_" ++ now_stamp clock ++ ".json") report;
           WriteJson latest_json report;
           WriteText latest_md (generate_markdown_report report) ].
Proof.
  unfold compare_screens. fold (targets_of screens0).
  destruct (compare_loop inp (targets_of screens0) [] []) as [e|[results written]];
    [discriminate|].
  simpl. intros [= <- <-]. exists written. simpl. auto.
Qed.

(** The screens of a report are requested screens. *)
Lemma report_keys_requested
  (inp : Inputs) (clock : Clock) (screens0 : option (list string))
  (report : Report) (ws : list Write) :
  compare_screens inp clock screens0 = ok (report, ws) ->
  forall k, In k (map fst (screens report)) -> In k (targets_of screens0).
Proof.
  intros H k Hin.
  destruct (compare_screens_loop _ _ _ _ _ H) as (written & Hl & _).
  rewrite (compare_loop_keys inp _ _ _ _ _ Hl) in Hin.
  apply fold_add_key_In in Hin. destruct Hin as [[] | Hin]. exact Hin.
Qed.

(** X3: the report of a batch lists every requested screen exactly once, in
    the order of first request, however often it was requested; [total]
    counts the distinct screens. *)
Theorem report_lists_each_screen_once
  (inp : Inputs) (clock : Clock) (screens0 : option (list string))
  (report : Report) (ws : list Write) :
  compare_screens inp clock screens0 = ok (report, ws) ->
  map fst (screens report) = first_occurrences (targets_of screens0) /\
  NoDup (map fst (screens report)) /\
  (forall k, In k (map fst (screens report)) <-> In k (targets_of screens0)) /\
  total (summary report) = length (first_occurrences (targets_of screens0)).
Proof.
  intros H. destruct (compare_screens_loop _ _ _ _ _ H) as (written & Hl & Hs & _).
  pose proof (compare_loop_keys inp _ _ _ _ _ Hl) as K. simpl in K.
  fold (first_occurrences (targets_of screens0)) in K.
  split; [exact K|]. rewrite K. split; [|split].
  - apply fold_add_key_NoDup. constructor.
  - intros k. unfold first_occurrences. rewrite fold_add_key_In. simpl. tauto.
  - rewrite Hs. unfold summarize; simpl. rewrite <- K. symmetry. apply length_map.
Qed.

End ReportKeys.

(** ** The files a batch writes *)

Section Writes.
Context {Ext : Externals}.

Lemma compare_screen_no_figma (inp : Inputs) (name : string) (ub : list byte) :
  unity_files inp name = Some ub -> figma_files inp name = None ->
  compare_screen inp name = ok (Missing "missing_figma", []).
Proof.
  intros Hu Hf. unfold compare_screen, exists_. simpl. rewrite Hu, Hf. reflexivity.
Qed.

(** X2: a screen whose captured image exists and whose reference image
    does not is recorded with the status "missing_figma"; the captured
    image is not opened and nothing is written. *)
Theorem missing_reference_is_missing_figma
  (inp : Inputs) (name : string) (ub : list byte) :
  unity_files inp name = Some ub -> figma_files inp name = None ->
  compare_screen inp name = ok (Missing "missing_figma", []) /\
  forall clock targets report ws,
    In name targets ->
    compare_screens inp clock (Some targets) = ok (report, ws) ->
    Dict.get name (screens report) = Some (Missing "missing_figma").
Proof.
  intros Hu Hf.
  pose proof (compare_screen_no_figma inp name ub Hu Hf) as Hc.
  split; [exact Hc|].
  intros clock targets report ws Hin H.
  destruct (compare_screens_loop _ _ _ _ _ H) as (written & Hl & _).
  assert (T : targets_of (Some targets) = targets).
  { destruct targets; [destruct Hin | reflexivity]. }
  rewrite T in Hl.
  apply (compare_loop_get inp name _ _ Hc _ _ _ _ _ Hl). left. exact Hin.
Qed.

(** The stem of a screenshot path is the last component of the screen
    name; an empty last component leaves the file name [.png], which has
    no suffix. *)
Lemma contains_app (c : ascii) (a b : string) :
  contains c (a ++ b)%string = contains c a || contains c b.
Proof.
  induction a as [|d a IH]; simpl; [reflexivity|].
  rewrite IH. apply orb_assoc.
Qed.

Lemma path_name_app (a b : string) :
  path_name (a ++ String "/" b)%string = path_name b.
Proof.
  induction a as [|c a IH].
  - reflexivity.
  - change (String c a ++ String "/" b)%string with (String c (a ++ String "/" b)).
    cbn [path_name contains].
    rewrite contains_app. cbn [contains]. rewrite Ascii.eqb_refl.
    rewrite orb_true_r, orb_true_r. exact IH.
Qed.

Lemma path_name_suffix (s : string) :
  path_name (s ++ ".png")%string = (path_name s ++ ".png")%string.
Proof.
  induction s as [|c s IH].
  - reflexivity.
  - change (String c s ++ ".png")%string with (String c (s ++ ".png")).
    cbn [path_name contains]. rewrite contains_app, orb_false_r.
    destruct (Ascii.eqb "/" c || contains "/" s); [exact IH | reflexivity].
Qed.

Lemma rpartition_dot_png (t : string) :
  rpartition_dot (t ++ ".png")%string = Some (t, "png"%string).
Proof.
  induction t as [|c t IH]; [reflexivity|].
  change (String c t ++ ".png")%string with (String c (t ++ ".png")).
  cbn [rpartition_dot]. rewrite IH. reflexivity.
Qed.

Lemma name_stem_png (t : string) :
  name_stem (t ++ ".png")%string =
  match t with EmptyString => ".png"%string | _ => t end.
Proof.
  unfold name_stem. rewrite rpartition_dot_png. destruct t; reflexivity.
Qed.

Lemma stem_last_component (name : string) :
  stem (UnityPng name) =
    match path_name name with EmptyString => ".png"%string | t => t end /\
  stem (FigmaPng name) = stem (UnityPng name).
Proof.
  unfold stem, path_str.
  change (UNITY_DIR ++ "/" ++ name ++ ".png")%string
    with (UNITY_DIR ++ String "/" (name ++ ".png"))%string.
  change (FIGMA_DIR ++ "/" ++ name ++ ".png")%string
    with (FIGMA_DIR ++ String "/" (name ++ ".png"))%string.
  rewrite !path_name_app, path_name_suffix, name_stem_png.
  split; [destruct (path_name name); reflexivity | reflexivity].
Qed.

Lemma path_name_plain (name : string) :
  contains "/" name = false -> path_name name = name.
Proof.
  destruct name as [|c r]; [reflexivity|]. intros H. cbn [path_name]. rewrite H. reflexivity.
Qed.

(** What [pixel_diff] writes: the diff image, at the path it reports. *)
Lemma pixel_diff_images_write (name : string) (img1 img2 : Image) (d : DiffStats) (w : Write) :
  pixel_diff_images name img1 img2 = ok (d, w) ->
  diff_image d = diff_path_of name /\
  w = WriteImage (diff_path_of name) (Np.amplify (diff_of img1 img2)).
Proof.
  unfold pixel_diff_images, diff_of, diff_path_of.
  destruct (resize_to_match img1 img2) as [i1 i2]; simpl.
  destruct (Np.max _) as [mx|]; [|discriminate].
  intros [= <- <-]. simpl. split; reflexivity.
Qed.

(** What the comparison of one screen writes: nothing, or the diff image
    of a compared screen. *)
Lemma compare_screen_writes (inp : Inputs) (name : string) (v : ScreenRecord) (ws : list Write) :
  compare_screen inp name = ok (v, ws) ->
  match v with
  | Compared d src =>
      diff_image d = diff_path_of (stem (UnityPng name)) /\
      exists img, ws = [WriteImage (diff_path_of (stem (UnityPng name))) img]
  | _ => ws = []
  end.
Proof.
  unfold compare_screen.
  destruct (negb (exists_ inp (UnityPng name))); [intros [= <- <-]; reflexivity|].
  destruct (negb (exists_ inp (FigmaPng name))); [intros [= <- <-]; reflexivity|].
  destruct (pixel_diff inp (UnityPng name) (FigmaPng name)) as [e|[o w]] eqn:Hp;
    [discriminate|]. simpl.
  destruct (fingerprint inp (UnityPng name)) as [e|uh]; [discriminate|]. simpl.
  destruct (fingerprint inp (FigmaPng name)) as [e|fh]; [discriminate|]. simpl.
  destruct o as [msg|d].
  - intros [= <- <-].
    unfold pixel_diff in Hp. destruct (negb have_imaging).
    + injection Hp as _ <-. reflexivity.
    + destruct (open_rgba inp (UnityPng name)) as [e|i1]; [discriminate|]. simpl in Hp.
      destruct (open_rgba inp (FigmaPng name)) as [e|i2]; [discriminate|]. simpl in Hp.
      destruct (pixel_diff_images _ i1 i2) as [e|r]; discriminate.
  - intros [= <- <-].
    apply pixel_diff_ok_inv in Hp.
    destruct Hp as (i1 & i2 & w0 & _ & _ & Hd & ->).
    apply pixel_diff_images_write in Hd. destruct Hd as [Hd ->].
    split; [exact Hd | eauto].
Qed.

(** Every file the loop writes is the diff image of a target. *)
Lemma compare_loop_writes (inp : Inputs) :
  forall targets results written results' written',
    compare_loop inp targets results written = ok (results', written') ->
    exists more,
      written' = written ++ more /\
      Forall (fun w => exists name img,
                In name targets /\
                w = WriteImage (diff_path_of (stem (UnityPng name))) img) more /\
      forall name r, In name targets -> compare_screen inp name = ok r ->
                     incl (snd r) more.
Proof.
  induction targets as [|s rest IH]; intros results written results' written' H; simpl in H.
  - injection H as _ <-. exists []. rewrite app_nil_r.
    split; [reflexivity|]. split; [constructor|]. intros name r [].
  - destruct (compare_screen inp s) as [e|[v w]] eqn:Hs; [discriminate|]. simpl in H.
    destruct (IH _ _ _ _ H) as (more & -> & Hall & Hincl).
    exists (w ++ more). split; [rewrite app_assoc; reflexivity|]. split.
    + apply Forall_app. split.
      * pose proof (compare_screen_writes inp s v w Hs) as Hw.
        destruct v as [st|err src|d src].
        -- rewrite Hw. constructor.
        -- rewrite Hw. constructor.
        -- destruct Hw as (_ & img & ->). constructor; [|constructor].
           exists s, img. split; [left; reflexivity | reflexivity].
      * eapply Forall_impl; [|exact Hall].
        intros x (name & img & Hin & ->). exists name, img. split; [right; exact Hin | reflexivity].
    + intros name r [<- | Hin] Hr.
      * rewrite Hs in Hr. injection Hr as <-. simpl. apply incl_appl. apply incl_refl.
      * apply incl_appr. apply (Hincl name r Hin Hr).
Qed.

(** X4: a batch writes the diff images of requested screens and then three
    files: the time-stamped JSON report, the latest JSON report and the
    latest markdown report; both JSON files hold the report that is
    returned, and the diff image named by every compared record has been
    written.  The diff image of a screen is [diff_<stem>.png] in the
    reports directory, where the stem is that of the captured image's
    path: the last component of the screen name, or [.png] when that
    component is empty; it is the screen name itself when the name is not
    empty and has no separator. *)
Theorem batch_writes
  (inp : Inputs) (clock : Clock) (screens0 : option (list string))
  (report : Report) (ws : list Write) :
  compare_screens inp clock screens0 = ok (report, ws) ->
  exists images,
    ws = images ++
         [ WriteJson (REPORTS_DIR ++ "/qa_report_" ++ now_stamp clock ++ ".json") report;
           WriteJson latest_json report;
           WriteText latest_md (generate_markdown_report report) ] /\
    Forall (fun w => exists name img,
              In name (targets_of screens0) /\
              w = WriteImage (REPORTS_DIR ++ "/diff_" ++ stem (UnityPng name) ++ ".png") img)
           images /\
    (forall name d src,
       Dict.get name (screens report) = Some (Compared d src) ->
       diff_image d = (REPORTS_DIR ++ "/diff_" ++ stem (UnityPng name) ++ ".png")%string /\
       exists img, In (WriteImage (diff_image d) img) images) /\
    (forall name,
       stem (UnityPng name) =
         match path_name name with EmptyString => ".png"%string | t => t end) /\
    (forall name,
       contains "/" name = false -> name <> EmptyString -> stem (UnityPng name) = name).
Proof.
  intros H.
  pose proof (report_records inp clock screens0 report ws H) as Hrec.
  pose proof (report_keys_requested inp clock screens0 report ws H) as Hk.
  destruct (compare_screens_loop _ _ _ _ _ H) as (written & Hl & _ & _ & ->).
  destruct (compare_loop_writes inp _ _ _ _ _ Hl) as (more & E & Hall & Hincl).
  simpl in E. subst written.
  exists more. split; [reflexivity|]. split; [exact Hall|]. split; [|split].
  - intros name d src Hg.
    destruct (Hrec name _ Hg) as [w Hw].
    pose proof (compare_screen_writes inp name _ w Hw) as (Hd & img & ->).
    split; [exact Hd|]. exists img. rewrite Hd.
    assert (Hin : In name (targets_of screens0)).
    { apply Hk. clear -Hg. induction (screens report) as [|[k v] l IH]; simpl in *; [discriminate|].
      destruct (String.eqb k name) eqn:E; [left; apply String.eqb_eq; exact E | right; auto]. }
    apply (Hincl name _ Hin Hw). left. reflexivity.
  - intros name. apply stem_last_component.
  - intros name Hs Hn. rewrite (proj1 (stem_last_component name)), (path_name_plain name Hs).
    destruct name; [congruence | reflexivity].
Qed.

End Writes.

(** ** Batches that cannot compare, and batches that can *)

Section NoImaging.
Context {Ext : Externals}.

Lemma compare_screen_without_imaging (inp : Inputs) (name : string) :
  have_imaging = false ->
  exists v, compare_screen inp name = ok (v, []) /\
            get_match_score v = None /\
            (both_exist inp name -> exists msg src, v = Uncompared msg src).
Proof.
  intros Hi. unfold compare_screen, exists_, pixel_diff, fingerprint, both_exist. simpl.
  rewrite Hi. simpl.
  destruct (unity_files inp name) as [ub|]; simpl.
  - destruct (figma_files inp name) as [fb|]; simpl.
    + eexists. split; [reflexivity|]. split; [reflexivity|]. intros _. eauto.
    + eexists. split; [reflexivity|]. split; [reflexivity|].
      intros (u & f & _ & Hf). discriminate.
  - eexists. split; [reflexivity|]. split; [reflexivity|].
    intros (u & f & Hu & _). discriminate.
Qed.

Lemma compare_loop_without_imaging (inp : Inputs) :
  have_imaging = false ->
  forall targets results written,
    Forall (fun kv => get_match_score (snd kv) = None) results ->
    exists results',
      compare_loop inp targets results written = ok (results', written) /\
      Forall (fun kv => get_match_score (snd kv) = None) results'.
Proof.
  intros Hi. induction targets as [|s rest IH]; intros results written Inv; simpl.
  - exists results. split; [reflexivity | exact Inv].
  - destruct (compare_screen_without_imaging inp s Hi) as (v & -> & Hv & _). simpl.
    rewrite app_nil_r. apply IH.
    clear IH. induction Inv as [|[k v0] l Hk Hl IHl]; simpl.
    + constructor; [exact Hv | constructor].
    + destruct (String.eqb k s); constructor; simpl; auto.
Qed.

Lemma all_failing (results : list (string * ScreenRecord)) :
  Forall (fun kv => get_match_score (snd kv) = None) results ->
  passing (summarize results) = 0%nat /\
  warning (summarize results) = 0%nat /\
  failing (summarize results) = total (summarize results).
Proof.
  unfold summarize, Dict.count, Dict.values; simpl.
  induction 1 as [|[k v] l Hv _ IH]; simpl; [auto|].
  simpl in Hv. rewrite Hv. simpl.
  change (Classify.is_passing 0) with false.
  change (Classify.is_warning 0) with false.
  change (Classify.is_failing 0) with true. simpl.
  destruct IH as (-> & -> & ->). auto.
Qed.

(** X5: without Pillow and numpy a batch never fails and writes only the
    three report files; no screen is passing or warning, every screen is
    counted as failing, and a screen with both images is recorded with the
    error of [pixel_diff]. *)
Theorem batch_without_imaging
  (inp : Inputs) (clock : Clock) (screens0 : option (list string)) :
  have_imaging = false ->
  exists report,
    compare_screens inp clock screens0 =
      ok (report,
          [ WriteJson (REPORTS_DIR ++ "/qa_report_" ++ now_stamp clock ++ ".json") report;
            WriteJson latest_json report;
            WriteText latest_md (generate_markdown_report report) ]) /\
    passing (summary report) = 0%nat /\
    warning (summary report) = 0%nat /\
    failing (summary report) = total (summary report) /\
    forall name, In name (targets_of screens0) -> both_exist inp name ->
                 exists msg src, Dict.get name (screens report) = Some (Uncompared msg src).
Proof.
  intros Hi.
  destruct (compare_loop_without_imaging inp Hi (targets_of screens0) [] [] (Forall_nil _))
    as (results & Hl & Hall).
  unfold compare_screens. fold (targets_of screens0). rewrite Hl. simpl.
  eexists. split; [reflexivity|]. simpl.
  destruct (all_failing results Hall) as (Hp & Hw & Hf).
  repeat (split; [assumption|]).
  intros name Hin Hb.
  destruct (compare_screen_without_imaging inp name Hi) as (v & Hv & _ & Hu).
  destruct (Hu Hb) as (msg & src & ->).
  exists msg, src.
  apply (compare_loop_get inp name _ _ Hv _ _ _ _ _ Hl). left. exact Hin.
Qed.

End NoImaging.

Section Abort.
Context {Ext : Externals}.

Lemma compare_loop_raises (inp : Inputs) (name : string) (e : Exn) :
  compare_screen inp name = raise e ->
  forall targets results written,
    In name targets ->
    exists e', compare_loop inp targets results written = raise e'.
Proof.
  intros He. induction targets as [|s rest IH]; intros results written Hin; [destruct Hin|].
  simpl. destruct (compare_screen inp s) as [e0|r] eqn:Hs; simpl.
  - eauto.
  - destruct Hin as [<- | Hin]; [rewrite He in Hs; discriminate|].
    apply IH. exact Hin.
Qed.

(** X6: with Pillow and numpy present, a requested screen whose two files
    exist but one of which cannot be decoded makes the whole batch fail: the
    screen's comparison raises, for the captured image first, and
    [compare_screens] raises instead of returning a report. *)
Theorem undecodable_image_aborts_batch
  (inp : Inputs) (clock : Clock) (targets : list string)
  (name : string) (ub fb : list byte) :
  have_imaging = true ->
  In name targets ->
  unity_files inp name = Some ub -> figma_files inp name = Some fb ->
  image_open ub = None \/ image_open fb = None ->
  compare_screen inp name =
    raise (CannotIdentifyImage
             (match image_open ub with
              | None => path_str (UnityPng name)
              | Some _ => path_str (FigmaPng name)
              end)) /\
  exists e, compare_screens inp clock (Some targets) = raise e.
Proof.
  intros Hi Hin Hu Hf Hbad.
  assert (Hc : compare_screen inp name =
    raise (CannotIdentifyImage
             (match image_open ub with
              | None => path_str (UnityPng name)
              | Some _ => path_str (FigmaPng name)
              end))).
  { unfold compare_screen, exists_, pixel_diff, open_rgba. simpl.
    rewrite Hu, Hf, Hi. simpl.
    destruct (image_open ub) as [i1|]; simpl; [|reflexivity].
    destruct Hbad as [Hbad | ->]; [discriminate|]. reflexivity. }
  split; [exact Hc|].
  destruct (compare_loop_raises inp name _ Hc targets [] [] Hin) as [e He].
  exists e. unfold compare_screens.
  destruct targets as [|s r]; [destruct Hin|]. rewrite He. reflexivity.
Qed.

End Abort.

Section MoreRounding.
Local Open Scope Q_scope.

Lemma rint_mono (x y : Q) : x <= y -> (Num.rint x <= Num.rint y)%Z.
Proof.
  intros Hxy.
  destruct (Z_le_gt_dec (Num.rint x) (Num.rint y)) as [L|G]; [exact L|].
  exfalso.
  assert (H1 : (Num.rint y + 1 <= Num.rint x)%Z) by (clear Hxy; lia).
  assert (E : x == y).
  { rewrite Zle_Qle, inject_Z_plus in H1. change (inject_Z 1) with 1 in H1.
    pose proof (rint_near x) as [Hx1 Hx2]. pose proof (rint_near y) as [Hy1 Hy2].
    apply Qle_antisym; lra. }
  pose proof (rint_comp x y E) as R. clear E Hxy. lia.
Qed.

Lemma round2_mono (x y : Q) : x <= y -> Num.round2 x <= Num.round2 y.
Proof.
  intros Hxy. unfold Num.round2.
  rewrite (hundredths (Num.rint (x * 100))), (hundredths (Num.rint (y * 100))).
  assert (H : (Num.rint (x * 100) <= Num.rint (y * 100))%Z) by (apply rint_mono; lra).
  rewrite Zle_Qle in H. lra.
Qed.

End MoreRounding.

Section Totality.
Context {Ext : Externals} {Laws : PillowLaws Ext}.

Lemma resize_to_match_nonempty (img1 img2 : Image) :
  nonempty img1 -> nonempty img2 ->
  nonempty (fst (resize_to_match img1 img2)) /\
  nonempty (snd (resize_to_match img1 img2)).
Proof.
  intros N1 N2.
  assert (Hs : forall img, nonempty img <-> (0 < fst (size img))%nat /\ (0 < snd (size img))%nat).
  { intros img. unfold nonempty, size. simpl. tauto. }
  assert (Hfst : nonempty (fst (resize_to_match img1 img2))).
  { apply Hs. unfold resize_to_match.
    destruct (tuple_neq (size img1) (size img2)); cbn [fst snd].
    - rewrite image_resize_size.
      destruct (py_max_either (size img1) (size img2)) as [-> | ->]; apply Hs; assumption.
    - apply Hs; assumption. }
  split; [exact Hfst|].
  apply Hs. rewrite <- resize_to_match_sizes. apply Hs. exact Hfst.
Qed.

Lemma first_pixel (img : Image) :
  wf_image img = true -> nonempty img ->
  exists p row rows, im_rows img = (p :: row) :: rows.
Proof.
  intros W [Hw Hh]. destruct (wf_rows img W) as [L R].
  destruct (im_rows img) as [|r rows]; [simpl in L; lia|].
  inversion R as [|? ? Hr _]; subst.
  destruct r as [|p row]; [simpl in Hr; lia|]. eauto.
Qed.

Lemma pixel_diff_images_total (name : string) (img1 img2 : Image) :
  wf_image img1 = true -> wf_image img2 = true ->
  nonempty img1 -> nonempty img2 ->
  exists d w, pixel_diff_images name img1 img2 = ok (d, w).
Proof.
  intros W1 W2 N1 N2.
  destruct (resize_to_match_wf img1 img2 W1 W2) as [V1 V2].
  destruct (resize_to_match_nonempty img1 img2 N1 N2) as [M1 M2].
  unfold pixel_diff_images.
  destruct (resize_to_match img1 img2) as [n1 n2]. simpl in *.
  destruct (first_pixel n1 V1 M1) as (p & r1 & rs1 & E1).
  destruct (first_pixel n2 V2 M2) as (q & r2 & rs2 & E2).
  unfold Np.of_image. rewrite E1, E2. simpl. eauto.
Qed.

Lemma compare_screen_total (inp : Inputs) (name : string) :
  decodable inp name ->
  exists v ws, compare_screen inp name = ok (v, ws) /\
    (have_imaging = true -> both_exist inp name -> exists d src, v = Compared d src).
Proof.
  intros D. unfold compare_screen, exists_, fingerprint, both_exist. simpl.
  destruct (unity_files inp name) as [ub|] eqn:Hu; simpl.
  2:{ eexists. eexists. split; [reflexivity|]. intros _ (u & f & H & _). discriminate. }
  destruct (figma_files inp name) as [fb|] eqn:Hf; simpl.
  2:{ eexists. eexists. split; [reflexivity|]. intros _ (u & f & _ & H). discriminate. }
  destruct (D ub fb Hu Hf) as (i1 & i2 & O1 & O2 & N1 & N2).
  unfold pixel_diff, open_rgba. simpl. rewrite Hu, Hf, O1, O2.
  destruct have_imaging; simpl.
  - destruct (pixel_diff_images_total (stem (UnityPng name)) i1 i2
                (image_open_wf _ _ O1) (image_open_wf _ _ O2) N1 N2) as (d & w & ->).
    simpl. eexists. eexists. split; [reflexivity|]. eauto.
  - eexists. eexists. split; [reflexivity|]. intros H; discriminate.
Qed.

Lemma compare_loop_total (inp : Inputs) :
  forall targets results written,
    (forall name, In name targets -> decodable inp name) ->
    exists results' written', compare_loop inp targets results written = ok (results', written').
Proof.
  induction targets as [|s rest IH]; intros results written D; simpl; [eauto|].
  destruct (compare_screen_total inp s (D s (or_introl eq_refl))) as (v & ws & -> & _). simpl.
  apply IH. intros name Hin. apply D. right. exact Hin.
Qed.

(** X7: when the existing image pairs of the requested screens decode to
    images with at least one pixel, the batch returns a report; with Pillow
    and numpy present, every requested screen with both images is
    compared. *)
Theorem decodable_batch_succeeds
  (inp : Inputs) (clock : Clock) (screens0 : option (list string)) :
  (forall name, In name (targets_of screens0) -> decodable inp name) ->
  exists report ws,
    compare_screens inp clock screens0 = ok (report, ws) /\
    (have_imaging = true ->
     forall name, In name (targets_of screens0) -> both_exist inp name ->
       exists d src, Dict.get name (screens report) = Some (Compared d src)).
Proof.
  intros D.
  destruct (compare_loop_total inp (targets_of screens0) [] [] D) as (results & written & Hl).
  unfold compare_screens. fold (targets_of screens0). rewrite Hl. simpl.
  eexists. eexists. split; [reflexivity|]. simpl.
  intros Hi name Hin Hb.
  destruct (compare_screen_total inp name (D name Hin)) as (v & ws & Hv & Hc).
  destruct (Hc Hi Hb) as (d & src & ->).
  exists d, src.
  apply (compare_loop_get inp name _ _ Hv _ _ _ _ _ Hl). left. exact Hin.
Qed.

End Totality.

(** ** More on the differencer *)

Section RegionGuard.
Context {Ext : Externals}.

Lemma count_positive_differs (m : Np.mask) :
  (0 < Np.count_true m)%nat -> exists y x, differs m y x.
Proof.
  unfold Np.count_true. intros H.
  destruct (filter id (concat m)) as [|b l] eqn:E; [simpl in H; lia|].
  assert (Hin : In b (filter id (concat m))) by (rewrite E; left; reflexivity).
  apply filter_In in Hin. destruct Hin as [Hin Hb]. unfold id in Hb. subst b.
  apply in_concat in Hin. destruct Hin as (row & Hrow & Ht).
  destruct (In_nth m row [] Hrow) as (y & _ & Hy).
  destruct (In_nth row true false Ht) as (x & _ & Hx).
  exists y, x. unfold differs. rewrite Hy. exact Hx.
Qed.

Lemma percent_positive_count (m : Np.mask) :
  (0 < percent_of_mask m)%Q -> (0 < Np.count_true m)%nat.
Proof.
  intros H. destruct (Np.count_true m) as [|c] eqn:E; [|lia].
  exfalso. unfold percent_of_mask in H. rewrite E in H.
  unfold Num.of_nat, Qdiv in H. change (inject_Z (Z.of_nat 0)) with 0%Q in H. lra.
Qed.

Lemma round2_half : (Num.round2 (1 # 2) == 1 # 2)%Q.
Proof. reflexivity. Qed.

(** X8: the guard [row_diff.any()] never fails: a result has no region
    exactly when the unrounded diff percentage is at most 0.5.  On the
    reported values: a [diff_percent] above 0.5 comes with exactly one
    region, and a result without region has [diff_percent] at most 0.5. *)
Theorem region_emitted_iff_above_noise
  (name : string) (img1 img2 : Image) (d : DiffStats) (w : Write) :
  pixel_diff_images name img1 img2 = ok (d, w) ->
  let dp := percent_of_mask (mask_of img1 img2) in
  (regions d = [] <-> (dp <= 1 # 2)%Q) /\
  ((1 # 2 < dp)%Q -> exists r, regions d = [r]) /\
  ((1 # 2 < diff_percent d)%Q -> exists r, regions d = [r]) /\
  (regions d = [] -> (diff_percent d <= 1 # 2)%Q).
Proof.
  intros H dp.
  apply pixel_diff_images_inv in H.
  destruct H as (mx & _ & _ & _ & Hp & _ & _ & Hreg).
  fold dp in Hreg, Hp.
  assert (Hgt : (1 # 2 < dp)%Q -> exists r, regions d = [r]).
  { intros G. rewrite Hreg. unfold detect_regions.
    assert (P : (0 < dp)%Q) by lra.
    destruct (count_positive_differs _ (percent_positive_count _ P)) as (y & x & D).
    apply gt_true in G. rewrite G.
    rewrite (any_rows_of_pixel _ y x D). eauto. }
  assert (Hiff : regions d = [] <-> (dp <= 1 # 2)%Q).
  { split.
    - intros E. destruct (Qlt_le_dec (1 # 2) dp) as [G|L]; [|exact L].
      destruct (Hgt G) as [r Hr]. rewrite Hr in E. discriminate.
    - intros L. rewrite Hreg. apply detect_regions_small. exact L. }
  assert (Hrep : (1 # 2 < diff_percent d)%Q -> (1 # 2 < dp)%Q).
  { intros G. destruct (Qlt_le_dec (1 # 2) dp) as [G'|L]; [exact G'|].
    exfalso. rewrite Hp in G. pose proof (round2_mono _ _ L) as M.
    rewrite round2_half in M. lra. }
  split; [exact Hiff|]. split; [exact Hgt|]. split.
  - intros G. apply Hgt, Hrep, G.
  - intros E. destruct (Qlt_le_dec (1 # 2) (diff_percent d)) as [G|L]; [|exact L].
    destruct (Hgt (Hrep G)) as [r Hr]. rewrite Hr in E. discriminate.
Qed.

End RegionGuard.

Section Symmetry.
Context {Ext : Externals} {Laws : PillowLaws Ext}.

Lemma map2_swap {A B C : Type} (f : A -> B -> C) (l : list A) (m : list B) :
  Np.map2 f l m = Np.map2 (fun b a => f a b) m l.
Proof.
  revert m. induction l as [|a l IH]; intros [|b m]; simpl; try reflexivity.
  rewrite IH. reflexivity.
Qed.

Lemma map2_ext {A B C : Type} (f g : A -> B -> C) (l : list A) (m : list B) :
  (forall a b, f a b = g a b) -> Np.map2 f l m = Np.map2 g l m.
Proof.
  intros E. revert m. induction l as [|a l IH]; intros [|b m]; simpl; try reflexivity.
  rewrite E, IH. reflexivity.
Qed.

Lemma abs_sub_comm (a b : Np.array3) : Np.abs_sub a b = Np.abs_sub b a.
Proof.
  unfold Np.abs_sub. rewrite map2_swap. apply map2_ext. intros r1 r2.
  rewrite map2_swap. apply map2_ext. intros p1 p2.
  rewrite map2_swap. apply map2_ext. intros x y.
  rewrite <- Z.abs_opp. f_equal. lia.
Qed.

Lemma tuple_neq_sym (a b : nat * nat) : tuple_neq a b = tuple_neq b a.
Proof.
  unfold tuple_neq. rewrite (Nat.eqb_sym (fst a)), (Nat.eqb_sym (snd a)). reflexivity.
Qed.

Lemma py_max_comm (a b : nat * nat) : py_max a b = py_max b a.
Proof.
  destruct a as [a1 a2], b as [b1 b2]. unfold py_max, tuple_lt; simpl.
  destruct (a1 <? b1)%nat eqn:H1, (b1 <? a1)%nat eqn:H2,
           (a1 =? b1)%nat eqn:H3, (b1 =? a1)%nat eqn:H4,
           (a2 <? b2)%nat eqn:H5, (b2 <? a2)%nat eqn:H6; simpl; try reflexivity;
    repeat match goal with
    | H : (_ <? _)%nat = true |- _ => apply Nat.ltb_lt in H
    | H : (_ <? _)%nat = false |- _ => apply Nat.ltb_ge in H
    | H : (_ =? _)%nat = true |- _ => apply Nat.eqb_eq in H
    | H : (_ =? _)%nat = false |- _ => apply Nat.eqb_neq in H
    end; try lia; f_equal; lia.
Qed.

Lemma resize_to_match_swap (img1 img2 : Image) :
  resize_to_match img2 img1 =
  (snd (resize_to_match img1 img2), fst (resize_to_match img1 img2)).
Proof.
  unfold resize_to_match. rewrite (tuple_neq_sym (size img2)), (py_max_comm (size img2)).
  destruct (tuple_neq (size img1) (size img2)); reflexivity.
Qed.

(** X9: exchanging the two images changes nothing in what [pixel_diff]
    computes for them: the statistics, the resolution, the region and the
    diff image are the same. *)
Theorem comparison_is_symmetric (name : string) (img1 img2 : Image) :
  pixel_diff_images name img2 img1 = pixel_diff_images name img1 img2.
Proof.
  pose proof (resize_to_match_sizes img1 img2) as S.
  unfold pixel_diff_images. rewrite resize_to_match_swap.
  destruct (resize_to_match img1 img2) as [n1 n2]. cbn [fst snd] in *.
  rewrite (abs_sub_comm (Np.of_image n2) (Np.of_image n1)).
  assert (Wd : im_width n2 = im_width n1).
  { unfold size in S. injection S as -> _. reflexivity. }
  rewrite Wd, S. reflexivity.
Qed.

End Symmetry.

Section MaskCriterion.
Context {Ext : Externals}.

Lemma nth_error_map2 {A B C : Type} (f : A -> B -> C) (l : list A) (m : list B) (n : nat) :
  nth_error (Np.map2 f l m) n =
  match nth_error l n, nth_error m n with
  | Some a, Some b => Some (f a b)
  | _, _ => None
  end.
Proof.
  revert l m. induction n as [|n IH]; intros [|a l] [|b m]; simpl; try reflexivity.
  - destruct (nth_error l n); reflexivity.
  - apply IH.
Qed.

Lemma nth_true_nth_error (l : list bool) (n : nat) :
  nth n l false = true <-> nth_error l n = Some true.
Proof.
  revert l. induction n as [|n IH]; intros [|b l]; simpl; try (split; congruence).
  apply IH.
Qed.

Lemma differs_nth_error (m : Np.mask) (y x : nat) :
  differs m y x <->
  exists row, nth_error m y = Some row /\ nth_error row x = Some true.
Proof.
  unfold differs. rewrite nth_true_nth_error. split.
  - intros H. destruct (nth_error m y) as [row|] eqn:E.
    + exists row. split; [reflexivity|].
      rewrite (nth_error_nth _ _ [] E) in H. exact H.
    + apply nth_error_None in E. rewrite (nth_overflow m [] E) in H.
      destruct x; discriminate.
  - intros (row & E & H). rewrite (nth_error_nth _ _ [] E). exact H.
Qed.

Lemma pixel_over_threshold (a b c d : Z) :
  Num.gt (Np.mean [a; b; c; d]) (inject_Z threshold) = true <-> (120 < a + b + c + d)%Z.
Proof.
  rewrite gt_true. unfold Np.mean, Np.sum, threshold. simpl.
  unfold Qlt, Qdiv, Qmult, Qinv, inject_Z. simpl. lia.
Qed.

(** X10: a pixel is counted as differing exactly when both normalised
    images have it and the absolute differences of its four channels,
    alpha included, add up to more than 120. *)
Theorem pixel_differs_iff_distance (img1 img2 : Image) (y x : nat) :
  differs (mask_of img1 img2) y x <->
  exists p q,
    pixel_of (fst (resize_to_match img1 img2)) y x = Some p /\
    pixel_of (snd (resize_to_match img1 img2)) y x = Some q /\
    (120 < channel_distance p q)%Z.
Proof.
  rewrite differs_nth_error.
  unfold mask_of, diff_of, Np.mean_axis2_gt, Np.abs_sub, Np.of_image, pixel_of.
  destruct (resize_to_match img1 img2) as [n1 n2]. cbn [fst snd].
  rewrite nth_error_map, nth_error_map2, !nth_error_map.
  destruct (nth_error (im_rows n1) y) as [r1|]; simpl.
  2:{ split; [intros (row & H & _); discriminate | intros (p & q & H & _); discriminate]. }
  destruct (nth_error (im_rows n2) y) as [r2|]; simpl.
  2:{ split; [intros (row & H & _); discriminate | intros (p & q & _ & H & _); discriminate]. }
  split.
  - intros (row & [= <-] & H).
    rewrite nth_error_map, nth_error_map2, !nth_error_map in H.
    destruct (nth_error r1 x) as [p|]; simpl in H; [|discriminate].
    destruct (nth_error r2 x) as [q|]; simpl in H; [|discriminate].
    exists p, q. split; [reflexivity|]. split; [reflexivity|].
    injection H as H. apply pixel_over_threshold in H. unfold channel_distance. lia.
  - intros (p & q & Hp & Hq & D).
    eexists. split; [reflexivity|].
    rewrite nth_error_map, nth_error_map2, !nth_error_map, Hp, Hq. simpl.
    f_equal. apply pixel_over_threshold. unfold channel_distance in D. lia.
Qed.

End MaskCriterion.

Section StatBounds.
Context {Ext : Externals} {Laws : PillowLaws Ext}.

Lemma Forall_map2 {A B C : Type} (P : A -> Prop) (Q : B -> Prop) (R : C -> Prop)
  (f : A -> B -> C) (l : list A) (m : list B) :
  (forall a b, P a -> Q b -> R (f a b)) ->
  Forall P l -> Forall Q m -> Forall R (Np.map2 f l m).
Proof.
  intros Hf Hl. revert m. induction Hl as [|a l Ha _ IH]; intros m Hm; simpl.
  - constructor.
  - destruct Hm as [|b m Hb Hm]; constructor; auto.
Qed.

Lemma of_image_in_byte (img : Image) :
  wf_image img = true -> Forall (Forall (Forall in_byte)) (Np.of_image img).
Proof.
  unfold wf_image. intros W. apply andb_true_iff in W. destruct W as [_ W].
  rewrite forallb_forall in W. unfold Np.of_image.
  apply Forall_map. apply Forall_forall. intros row Hrow.
  specialize (W row Hrow). apply andb_true_iff in W. destruct W as [_ W].
  rewrite forallb_forall in W.
  apply Forall_map. apply Forall_forall. intros p Hp.
  specialize (W p Hp). unfold pixel_ok, sample_ok in W.
  repeat (apply andb_true_iff in W; destruct W as [W ?]).
  repeat match goal with H : (_ <=? _)%Z = true |- _ => apply Z.leb_le in H end.
  apply Z.leb_le in W.
  repeat constructor; lia.
Qed.

Lemma abs_sub_in_byte (a b : Np.array3) :
  Forall (Forall (Forall in_byte)) a -> Forall (Forall (Forall in_byte)) b ->
  Forall in_byte (Np.flatten (Np.abs_sub a b)).
Proof.
  intros Ha Hb. unfold Np.flatten, Np.abs_sub.
  apply Forall_concat. apply Forall_concat.
  eapply Forall_map2; [|exact Ha|exact Hb]. intros r1 r2 H1 H2.
  eapply Forall_map2; [|exact H1|exact H2]. intros p1 p2 P1 P2.
  eapply Forall_map2; [|exact P1|exact P2]. intros x y Hx Hy.
  unfold in_byte in *. lia.
Qed.

Lemma fold_max_ge (l : list Z) (x : Z) :
  (x <= fold_left Z.max l x)%Z /\ Forall (fun v => (v <= fold_left Z.max l x)%Z) l.
Proof.
  revert x. induction l as [|a l IH]; intros x; simpl.
  - split; [lia | constructor].
  - destruct (IH (Z.max x a)) as [H1 H2]. split; [lia|].
    constructor; [lia | exact H2].
Qed.

Lemma fold_max_in (l : list Z) (x : Z) :
  fold_left Z.max l x = x \/ In (fold_left Z.max l x) l.
Proof.
  revert x. induction l as [|a l IH]; intros x; simpl; [auto|].
  destruct (IH (Z.max x a)) as [H|H]; [|auto].
  rewrite H. destruct (Z.max_spec x a) as [[_ ->]|[_ ->]]; auto.
Qed.

Lemma max_spec (l : list Z) (m : Z) :
  Np.max l = Some m -> In m l /\ Forall (fun v => (v <= m)%Z) l.
Proof.
  destruct l as [|x r]; [discriminate|]. simpl. intros [= <-].
  destruct (fold_max_ge r x) as [H1 H2]. split.
  - destruct (fold_max_in r x) as [-> | H]; auto.
  - constructor; assumption.
Qed.

Lemma sum_bounds (l : list Z) (m : Z) :
  Forall (fun v => (0 <= v <= m)%Z) l ->
  (0 <= Np.sum l <= m * Z.of_nat (length l))%Z.
Proof.
  induction 1 as [|x l Hx _ IH].
  - simpl. lia.
  - change (Np.sum (x :: l)) with (x + Np.sum l)%Z.
    change (length (x :: l)) with (S (length l)). lia.
Qed.

Lemma mean_bounds (l : list Z) (m : Z) :
  l <> [] -> Forall (fun v => (0 <= v <= m)%Z) l ->
  (0 <= Np.mean l /\ Np.mean l <= inject_Z m)%Q.
Proof.
  intros N H. pose proof (sum_bounds l m H) as [S0 S1].
  unfold Np.mean.
  assert (Hn : (0 < inject_Z (Z.of_nat (length l)))%Q).
  { rewrite <- (Zlt_Qlt 0). destruct l; [congruence | simpl; lia]. }
  rewrite Zle_Qle in S0, S1. rewrite inject_Z_mult in S1.
  change (inject_Z 0) with 0%Q in S0.
  split.
  - apply Qle_shift_div_l; [exact Hn|]. lra.
  - apply Qle_shift_div_r; [exact Hn|]. lra.
Qed.

(** X11: for every result of a comparison,
    [0 <= mean_diff <= max_diff <= 255]. *)
Theorem statistics_bounds
  (inp : Inputs) (p1 p2 : Path) (d : DiffStats) (ws : list Write) :
  pixel_diff inp p1 p2 = ok (DiffOk d, ws) ->
  (0 <= mean_diff d /\ mean_diff d <= max_diff d /\ max_diff d <= 255)%Q.
Proof.
  intros H.
  apply pixel_diff_ok_inv in H. destruct H as (i1 & i2 & w & O1 & O2 & H & _).
  assert (W1 : wf_image i1 = true).
  { unfold open_rgba in O1. destruct (read_bytes inp p1) as [b|]; [|discriminate].
    destruct (image_open b) as [i|] eqn:E; [|discriminate].
    injection O1 as <-. apply (image_open_wf _ _ E). }
  assert (W2 : wf_image i2 = true).
  { unfold open_rgba in O2. destruct (read_bytes inp p2) as [b|]; [|discriminate].
    destruct (image_open b) as [i|] eqn:E; [|discriminate].
    injection O2 as <-. apply (image_open_wf _ _ E). }
  apply pixel_diff_images_inv in H.
  destruct H as (mx & Hmax & Hmean & Hmx & _).
  destruct (resize_to_match_wf i1 i2 W1 W2) as [V1 V2].
  pose proof (abs_sub_in_byte _ _ (of_image_in_byte _ V1) (of_image_in_byte _ V2)) as Hall.
  fold (diff_of i1 i2) in Hall.
  destruct (max_spec _ _ Hmax) as [Hin Hle].
  set (l := Np.flatten (diff_of i1 i2)) in *.
  assert (Hm : in_byte mx) by (rewrite Forall_forall in Hall; apply Hall; exact Hin).
  assert (Hb : Forall (fun v => (0 <= v <= mx)%Z) l).
  { rewrite Forall_forall in *. intros v Hv.
    specialize (Hall v Hv). specialize (Hle v Hv). unfold in_byte in Hall. lia. }
  assert (N : l <> []) by (intros E; rewrite E in Hin; destruct Hin).
  destruct (mean_bounds l mx N Hb) as [M0 M1].
  rewrite Hmean, Hmx.
  pose proof (round2_mono _ _ M0) as R0.
  pose proof (round2_mono _ _ M1) as R1.
  pose proof (round2_Z mx) as Rm.
  pose proof (round2_Z 0) as Rz. change (inject_Z 0) with 0%Q in Rz.
  unfold in_byte in Hm. destruct Hm as [_ Hm]. rewrite Zle_Qle in Hm.
  change (inject_Z 255) with 255%Q in Hm.
  split; [|split]; lra.
Qed.

End StatBounds.

(** ** The further theorems at concrete inputs *)

(** X2 at a screen with a captured image only. *)
Lemma missing_reference_is_missing_figma_witness :
  compare_screen (Ext := Sample.ext)
    {| unity_files := Sample.dir [("D"%string, Sample.file 1 1 [9%nat])];
       figma_files := Sample.empty_dir |} "D"
    = ok (Missing "missing_figma", []).
Proof.
  apply (proj1 (missing_reference_is_missing_figma (Ext := Sample.ext)
                  {| unity_files := Sample.dir [("D"%string, Sample.file 1 1 [9%nat])];
                     figma_files := Sample.empty_dir |}
                  "D" (Sample.file 1 1 [9%nat]) eq_refl eq_refl)).
Defined.

(** X3 at a batch that names screen [A] twice. *)
Lemma report_lists_each_screen_once_witness :
  exists report ws,
    compare_screens (Ext := Sample.ext) Sample.inputs
      (mkClock "2026-01-01T09:00:00" "20260101_090000") (Some ["A"; "B"; "A"]%string)
      = ok (report, ws) /\
    map fst (screens report) = ["A"; "B"]%string /\
    total (summary report) = 2%nat.
Proof.
  eexists. eexists. split; [vm_compute; reflexivity|].
  pose proof (report_lists_each_screen_once (Ext := Sample.ext) Sample.inputs
                (mkClock "2026-01-01T09:00:00" "20260101_090000")
                (Some ["A"; "B"; "A"]%string) _ _ eq_refl) as (H1 & _ & _ & H4).
  split; [exact H1 | exact H4].
Defined.

(** X4 at the sample inputs. *)
Lemma batch_writes_witness :
  exists report ws images,
    compare_screens (Ext := Sample.ext) Sample.inputs
      (mkClock "2026-01-01T09:00:00" "20260101_090000") (Some ["A"; "B"; "C"]%string)
      = ok (report, ws) /\
    ws = images ++
         [ WriteJson (REPORTS_DIR ++ "/qa_report_20260101_090000.json") report;
           WriteJson latest_json report;
           WriteText latest_md (generate_markdown_report (Ext := Sample.ext) report) ].
Proof.
  assert (E : exists report ws,
             compare_screens (Ext := Sample.ext) Sample.inputs
               (mkClock "2026-01-01T09:00:00" "20260101_090000")
               (Some ["A"; "B"; "C"]%string) = ok (report, ws)).
  { eexists. eexists. vm_compute. reflexivity. }
  destruct E as (report & ws & E).
  destruct (batch_writes (Ext := Sample.ext) _ _ _ report ws E) as (images & Hw & _).
  exists report, ws, images. split; [exact E | exact Hw].
Defined.

(** X5 at the sample inputs, on a machine without Pillow and numpy. *)
Lemma batch_without_imaging_witness :
  exists report,
    compare_screens (Ext := Sample.ext_without_imaging) Sample.inputs
      (mkClock "2026-01-01T09:00:00" "20260101_090000") (Some ["A"; "B"; "C"]%string)
      = ok (report,
            [ WriteJson (REPORTS_DIR ++ "/qa_report_20260101_090000.json") report;
              WriteJson latest_json report;
              WriteText latest_md
                (generate_markdown_report (Ext := Sample.ext_without_imaging) report) ]) /\
    failing (summary report) = total (summary report).
Proof.
  destruct (batch_without_imaging (Ext := Sample.ext_without_imaging) Sample.inputs
              (mkClock "2026-01-01T09:00:00" "20260101_090000")
              (Some ["A"; "B"; "C"]%string) eq_refl) as (report & H & _ & _ & Hf & _).
  exists report. split; [exact H | exact Hf].
Defined.

(** X6 at a screen whose reference file has a zero width. *)
Lemma undecodable_image_aborts_batch_witness :
  exists e,
    compare_screens (Ext := Sample.ext)
      {| unity_files := Sample.dir [("A"%string, Sample.file 1 1 [9%nat])];
         figma_files := Sample.dir [("A"%string, Sample.file 0 1 [])] |}
      (mkClock "2026-01-01T09:00:00" "20260101_090000") (Some ["A"%string])
    = raise e.
Proof.
  apply (proj2 (undecodable_image_aborts_batch (Ext := Sample.ext)
                  {| unity_files := Sample.dir [("A"%string, Sample.file 1 1 [9%nat])];
                     figma_files := Sample.dir [("A"%string, Sample.file 0 1 [])] |}
                  (mkClock "2026-01-01T09:00:00" "20260101_090000") ["A"%string] "A"
                  (Sample.file 1 1 [9%nat]) (Sample.file 0 1 [])
                  eq_refl (or_introl eq_refl) eq_refl eq_refl (or_intror eq_refl))).
Defined.

Lemma sample_inputs_decodable (name : string) :
  In name ["A"; "C"]%string -> decodable (Ext := Sample.ext) Sample.inputs name.
Proof.
  intros [<- | [<- | []]]; intros ub fb Hu Hf;
    vm_compute in Hu, Hf; injection Hu as <-; injection Hf as <-;
    eexists; eexists; (split; [vm_compute; reflexivity|]);
    (split; [vm_compute; reflexivity|]); unfold nonempty; simpl; lia.
Qed.

(** X7 at the screens [A] and [C] of the sample inputs. *)
Lemma decodable_batch_succeeds_witness :
  exists report ws,
    compare_screens (Ext := Sample.ext) Sample.inputs
      (mkClock "2026-01-01T09:00:00" "20260101_090000") (Some ["A"; "C"]%string)
    = ok (report, ws).
Proof.
  destruct (decodable_batch_succeeds (Ext := Sample.ext) (Laws := sample_laws) Sample.inputs
              (mkClock "2026-01-01T09:00:00" "20260101_090000") (Some ["A"; "C"]%string)
              sample_inputs_decodable) as (report & ws & H & _).
  exists report, ws. exact H.
Defined.

(** X8 at a 3x3 pair that differs in two pixels. *)
Lemma region_emitted_iff_above_noise_witness :
  let img1 := Sample.raster 3 3 (fun _ _ => Sample.grey 0) in
  let img2 := Sample.raster 3 3 (fun y x =>
                Sample.grey (if ((1 <=? y) && (x =? 1))%nat then 250 else 0)) in
  exists d w r,
    pixel_diff_images (Ext := Sample.ext) "C" img1 img2 = ok (d, w) /\
    regions d = [r].
Proof.
  intros img1 img2.
  assert (E : exists d w, pixel_diff_images (Ext := Sample.ext) "C" img1 img2 = ok (d, w)).
  { eexists. eexists. vm_compute. reflexivity. }
  destruct E as (d & w & E).
  destruct (region_emitted_iff_above_noise (Ext := Sample.ext) "C" img1 img2 d w E)
    as (_ & H & _).
  destruct H as [r Hr]; [vm_compute; reflexivity|].
  exists d, w, r. split; [exact E | exact Hr].
Defined.

(** X9 at images of 1x2 and 2x1 pixels. *)
Lemma comparison_is_symmetric_witness :
  pixel_diff_images (Ext := Sample.ext) "S"
    (Sample.raster 2 1 (fun _ _ => Sample.grey 200))
    (Sample.raster 1 2 (fun _ _ => Sample.grey 10))
  = pixel_diff_images (Ext := Sample.ext) "S"
      (Sample.raster 1 2 (fun _ _ => Sample.grey 10))
      (Sample.raster 2 1 (fun _ _ => Sample.grey 200)).
Proof.
  apply (comparison_is_symmetric (Ext := Sample.ext) (Laws := sample_laws)).
Defined.

(** X11 at screen [C] of the sample inputs. *)
Lemma statistics_bounds_witness :
  exists d ws,
    pixel_diff (Ext := Sample.ext) Sample.inputs (UnityPng "C") (FigmaPng "C")
      = ok (DiffOk d, ws) /\
    (0 <= mean_diff d /\ mean_diff d <= max_diff d /\ max_diff d <= 255)%Q.
Proof.
  eexists. eexists. split; [vm_compute; reflexivity|].
  eapply (statistics_bounds (Ext := Sample.ext) (Laws := sample_laws)
            Sample.inputs (UnityPng "C") (FigmaPng "C")).
  vm_compute. reflexivity.
Defined.

(** ** The token *)

Section Tokens.

Lemma rstrip_idem (s : string) : Py.rstrip (Py.rstrip s) = Py.rstrip s.
Proof.
  induction s as [|c r IH]; simpl; [reflexivity|].
  destruct (Py.rstrip r) as [|c' r'] eqn:E.
  - destruct (Py.isspace c) eqn:Hc; simpl; [reflexivity|]. rewrite Hc. reflexivity.
  - simpl. simpl in IH. rewrite IH. destruct (Py.rstrip r') eqn:E'.
    + simpl in IH. destruct (Py.isspace c'); [discriminate | reflexivity].
    + reflexivity.
Qed.

Lemma lstrip_idem (s : string) : Py.lstrip (Py.lstrip s) = Py.lstrip s.
Proof.
  induction s as [|c r IH]; simpl; [reflexivity|].
  destruct (Py.isspace c) eqn:Hc; [exact IH|]. simpl. rewrite Hc. reflexivity.
Qed.

Lemma rstrip_head (c : ascii) (r : string) :
  Py.isspace c = false -> exists r', Py.rstrip (String c r) = String c r'.
Proof.
  intros Hc. simpl. destruct (Py.rstrip r); rewrite ?Hc; eauto.
Qed.

Lemma strip_trimmed (s : string) : trimmed (Py.strip s).
Proof.
  unfold trimmed, Py.strip. split; [|apply rstrip_idem].
  induction s as [|c r IH]; simpl; [reflexivity|].
  destruct (Py.isspace c) eqn:Hc; [exact IH|].
  destruct (rstrip_head c r Hc) as [r' E]. rewrite E. simpl. rewrite Hc. reflexivity.
Qed.

(** X12: [get_token] returns the first non-empty of the command-line
    token, the environment variable and the stripped text of the token
    file, and never an empty token; a token taken from the file neither
    starts nor ends with whitespace; it exits with status 1 exactly when
    all three are missing or empty. *)
Theorem get_token_precedence (src : TokenSources) :
  match get_token src with
  | inr t =>
      t <> EmptyString /\
      (Py.truthy (arg_token src) = true -> arg_token src = Some t) /\
      (Py.truthy (arg_token src) = false -> Py.truthy (env_token src) = true ->
       env_token src = Some t) /\
      (Py.truthy (arg_token src) = false -> Py.truthy (env_token src) = false ->
       exists text, token_file src = Some text /\ t = Py.strip text /\ trimmed t)
  | inl e =>
      e = SystemExit 1 /\
      Py.truthy (arg_token src) = false /\
      Py.truthy (env_token src) = false /\
      (forall text, token_file src = Some text -> Py.strip text = EmptyString)
  end.
Proof.
  unfold get_token, Py.or_.
  destruct (arg_token src) as [[|c r]|] eqn:Ha; simpl;
  destruct (env_token src) as [[|c' r']|] eqn:He; simpl;
  try (repeat split; intros; try discriminate; try reflexivity; fail);
  destruct (token_file src) as [text|] eqn:Hf; simpl;
  try (destruct (Py.strip text) as [|c0 r0] eqn:Hs);
  repeat split; intros; try discriminate; try reflexivity; try congruence;
  try (eexists; split; [reflexivity|]; split; [congruence|];
       rewrite <- Hs; apply strip_trimmed; fail).
Qed.

End Tokens.

(** ** The export *)

Section ExportFrames.
Import Figma.

Lemma advances_refl (w : World) : advances w w 0 0.
Proof.
  unfold advances. repeat split; auto.
  - exists []. rewrite app_nil_r. auto.
  - exists []. rewrite app_nil_r. auto.
Qed.

Lemma advances_trans (w1 w2 w3 : World) (a b c d : nat) :
  advances w1 w2 a b -> advances w2 w3 c d -> advances w1 w3 (a + c) (b + d).
Proof.
  intros (U1 & F1 & (r1 & S1 & L1) & (s1 & P1 & M1))
         (U2 & F2 & (r2 & S2 & L2) & (s2 & P2 & M2)).
  unfold advances. repeat split.
  - congruence.
  - auto.
  - exists (r1 ++ r2). rewrite S2, S1, app_assoc, length_app. split; [reflexivity | lia].
  - exists (s1 ++ s2). rewrite P2, P1, app_assoc, length_app. split; [reflexivity | lia].
Qed.

Lemma advances_weaken (w w' : World) (a b a' b' : nat) :
  advances w w' a b -> (a <= a')%nat -> (b <= b')%nat -> advances w w' a' b'.
Proof.
  intros (U & F & (r & S & L) & (s & P & M)) Ha Hb.
  unfold advances. repeat split; auto.
  - exists r. split; [exact S | lia].
  - exists s. split; [exact P | lia].
Qed.

Lemma http_get_advances (net : Network) (req : Request) (w : World) :
  advances w (snd (http_get net req w)) 1 0 /\
  metas (snd (http_get net req w)) = metas w /\
  sent (snd (http_get net req w)) = sent w ++ [req] /\
  slept (snd (http_get net req w)) = slept w /\
  fst (http_get net req w) =
    match net (sent w) req with Some r => inr r | None => inl RequestException end.
Proof.
  unfold http_get. destruct (net (sent w) req); simpl;
    (split; [|auto]); unfold advances; simpl; repeat split; auto;
    try (exists [req]; split; [reflexivity | simpl; lia]);
    try (exists []; rewrite app_nil_r; split; [reflexivity | simpl; lia]).
Qed.

Lemma sleep_advances (n : Z) (w : World) :
  advances w (snd (sleep n w)) 0 1 /\ metas (snd (sleep n w)) = metas w.
Proof.
  unfold sleep. destruct (n <? 0)%Z; simpl.
  - split; [|reflexivity]. apply (advances_weaken _ _ 0 0); [apply advances_refl | lia | lia].
  - split; [|reflexivity]. unfold advances; simpl. repeat split; auto.
    + exists []. rewrite app_nil_r. split; [reflexivity | simpl; lia].
    + exists [n]. split; [reflexivity | simpl; lia].
Qed.

Lemma raise_for_status_same (r : Response) (w : World) :
  snd (raise_for_status r w) = w.
Proof.
  unfold raise_for_status. destruct (_ && _)%bool; reflexivity.
Qed.

Lemma get_retrying_advances (net : Network) (req : Request) (w : World) :
  advances w (snd (get_retrying net req w)) 2 1 /\
  metas (snd (get_retrying net req w)) = metas w.
Proof.
  unfold get_retrying, bind.
  destruct (http_get_advances net req w) as (A1 & M1 & _).
  destruct (http_get net req w) as [[e|r] w1]; simpl in *.
  - split; [|exact M1]. apply (advances_weaken _ _ 1 0); [exact A1 | lia | lia].
  - destruct (status_code r =? 429)%Z; simpl.
    2:{ split; [|exact M1]. apply (advances_weaken _ _ 1 0); [exact A1 | lia | lia]. }
    assert (Hw : forall (m : M Z) ,
               (forall w0, snd (m w0) = w0) ->
               advances w (snd (match m w1 with
                                | (inl e, w') => (inl e, w')
                                | (inr a, w') =>
                                    match sleep a w' with
                                    | (inl e, w'') => (inl e, w'')
                                    | (inr _, w'') => http_get net req w''
                                    end
                                end)) 2 1 /\
               metas (snd (match m w1 with
                           | (inl e, w') => (inl e, w')
                           | (inr a, w') =>
                               match sleep a w' with
                               | (inl e, w'') => (inl e, w'')
                               | (inr _, w'') => http_get net req w''
                               end
                           end)) = metas w).
    { intros m Hm. specialize (Hm w1).
      destruct (m w1) as [[e|a] w2]; simpl in *; subst w2.
      - split; [|exact M1]. apply (advances_weaken _ _ 1 0); [exact A1 | lia | lia].
      - destruct (sleep_advances a w1) as (A2 & M2).
        destruct (sleep a w1) as [[e|u] w3]; simpl in *.
        + split; [|congruence].
          apply (advances_weaken _ _ (1 + 0) (0 + 1)); [|lia|lia].
          eapply advances_trans; eassumption.
        + destruct (http_get_advances net req w3) as (A3 & M3 & _).
          split; [|congruence].
          apply (advances_weaken _ _ (1 + (0 + 1)) (0 + (1 + 0))); [|lia|lia].
          eapply advances_trans; [exact A1|].
          eapply advances_trans; eassumption. }
    destruct (retry_after r) as [[n|]|]; apply Hw; intros w0; reflexivity.
Qed.

End ExportFrames.

Section ExportLoops.
Import Figma.

Lemma In_set {V : Type} (k : string) (v : V) (d : list (string * V)) (n : string) (p : V) :
  In (n, p) (Dict.set k v d) -> (n = k /\ p = v) \/ In (n, p) d.
Proof.
  induction d as [|[k' v'] d IH]; simpl.
  - intros [[= <- <-] | []]. auto.
  - destruct (String.eqb k' k) eqn:E; simpl.
    + apply String.eqb_eq in E. subst k'.
      intros [[= <- <-] | H]; auto.
    + intros [H | H]; [auto|]. destruct (IH H); auto.
Qed.

Lemma write_figma_png_advances (name : string) (b : list byte) (w : World) :
  advances w (snd (write_figma_png name b w)) 0 0 /\
  metas (snd (write_figma_png name b w)) = metas w /\
  figma_files (files (snd (write_figma_png name b w))) name = Some b.
Proof.
  unfold write_figma_png, advances; simpl. rewrite String.eqb_refl.
  repeat split; auto.
  - intros n H. destruct (String.eqb n name); [discriminate | exact H].
  - exists []. rewrite app_nil_r. auto.
  - exists []. rewrite app_nil_r. auto.
Qed.

Lemma download_spec (net : Network) (images : list (string * option string)) :
  forall (ids exported : list (string * string)) (w : World),
    advances w (snd (download net images ids exported w)) (length ids) 0 /\
    metas (snd (download net images ids exported w)) = metas w /\
    forall exported',
      fst (download net images ids exported w) = inr exported' ->
      forall name path, In (name, path) exported' ->
        In (name, path) exported \/
        (In name (map fst ids) /\ path = path_str (FigmaPng name) /\
         figma_files (files (snd (download net images ids exported w))) name <> None).
Proof.
  induction ids as [|[screen_name nid] rest IH]; intros exported w.
  - simpl. split; [apply advances_refl|]. split; [reflexivity|].
    intros exported' [= <-] name path H. left. exact H.
  - cbn [download].
    assert (Skip : advances w (snd (download net images rest exported w)) (length ((screen_name, nid) :: rest)) 0 /\
                   metas (snd (download net images rest exported w)) = metas w /\
                   forall exported',
                     fst (download net images rest exported w) = inr exported' ->
                     forall name path, In (name, path) exported' ->
                       In (name, path) exported \/
                       (In name (map fst ((screen_name, nid) :: rest)) /\
                        path = path_str (FigmaPng name) /\
                        figma_files (files (snd (download net images rest exported w))) name <> None)).
    { destruct (IH exported w) as (A & Mt & P).
      split; [apply (advances_weaken _ _ _ _ _ _ A); simpl; lia|].
      split; [exact Mt|].
      intros exported' E name path H.
      destruct (P exported' E name path H) as [H1 | (H1 & H2 & H3)]; [auto|].
      right. split; [right; exact H1 | auto]. }
    destruct (Dict.get nid images) as [[[|c u]|]|]; try exact Skip. clear Skip.
    unfold bind.
    destruct (http_get_advances net {| url := String c u; headers := []; params := [] |} w)
      as (A1 & M1 & _).
    destruct (http_get net _ w) as [[e|img_r] w1]; cbn [fst snd] in *.
    { split; [apply (advances_weaken _ _ _ _ _ _ A1); simpl; lia|].
      split; [exact M1|]. intros exported' E; discriminate. }
    destruct (raise_for_status img_r w1) as [[e|u0] w1'] eqn:ER;
      pose proof (raise_for_status_same img_r w1) as R; rewrite ER in R; cbn [snd] in R;
      subst w1'.
    { cbn [fst snd]. split; [apply (advances_weaken _ _ _ _ _ _ A1); simpl; lia|].
      split; [exact M1|]. intros exported' E; discriminate. }
    destruct (write_figma_png_advances screen_name (content img_r) w1) as (A2 & M2 & F2).
    destruct (write_figma_png screen_name (content img_r) w1) as [[e|u1] w2] eqn:Ew;
      [unfold write_figma_png in Ew; discriminate|]. cbn [fst snd] in *.
    set (out_path := (FIGMA_DIR ++ "/" ++ screen_name ++ ".png")%string).
    destruct (IH (Dict.set screen_name out_path exported) w2) as (A3 & M3 & P).
    split.
    { apply (advances_weaken _ _ (1 + (0 + length rest)) (0 + (0 + 0))); [|simpl; lia|lia].
      eapply advances_trans; [exact A1|]. eapply advances_trans; [exact A2 | exact A3]. }
    split; [congruence|].
    intros exported' E name path H.
    destruct (P exported' E name path H) as [H1 | (H1 & H2 & H3)].
    + apply In_set in H1. destruct H1 as [[-> ->] | H1]; [|auto].
      right. split; [left; reflexivity|]. split; [reflexivity|].
      destruct A3 as (_ & Fm & _). apply Fm. rewrite F2. discriminate.
    + right. split; [right; exact H1 | auto].
Qed.

Lemma match_page_keys (pg : PageNode) (targets : list (string * ScreenInfo)) :
  forall ids,
    NoDup (map fst ids) ->
    NoDup (map fst (match_page pg targets ids)) /\
    forall k, In k (map fst (match_page pg targets ids)) ->
              In k (map fst ids) \/ In k (map fst targets).
Proof.
  unfold match_page. induction targets as [|t rest IH]; intros ids N; simpl.
  - split; [exact N | auto].
  - set (ids1 := if String.eqb (page_name pg) (page (snd t))
                 then match page_children pg with
                      | first :: _ => Dict.set (fst t) first ids
                      | [] => Dict.set (fst t) (page_id pg) ids
                      end
                 else ids).
    assert (H1 : NoDup (map fst ids1) /\
                 forall k, In k (map fst ids1) -> In k (map fst ids) \/ k = fst t).
    { unfold ids1. destruct (String.eqb _ _); [|split; [exact N | auto]].
      destruct (page_children pg); rewrite keys_set;
        (split; [apply add_key_NoDup; exact N | intros k; apply add_key_In]). }
    destruct H1 as [N1 I1]. destruct (IH ids1 N1) as [N2 I2].
    split; [exact N2|].
    intros k Hk. destruct (I2 k Hk) as [H | H]; [|auto].
    destruct (I1 k H) as [H' | ->]; auto.
Qed.

Lemma find_nodes_keys (pages : list PageNode) (targets : list (string * ScreenInfo)) :
  NoDup (map fst (find_nodes pages targets)) /\
  forall k, In k (map fst (find_nodes pages targets)) -> In k (map fst targets).
Proof.
  unfold find_nodes.
  assert (G : forall ids,
             NoDup (map fst ids) ->
             (forall k, In k (map fst ids) -> In k (map fst targets)) ->
             NoDup (map fst (fold_left (fun ids pg => match_page pg targets ids) pages ids)) /\
             forall k, In k (map fst (fold_left (fun ids pg => match_page pg targets ids) pages ids)) ->
                       In k (map fst targets)).
  { induction pages as [|pg rest IH]; intros ids N I; simpl; [auto|].
    destruct (match_page_keys pg targets ids N) as [N1 I1].
    apply IH; [exact N1|]. intros k Hk. destruct (I1 k Hk); auto. }
  apply G; [constructor | intros k []].
Qed.

Lemma find_nodes_length (pages : list PageNode) (targets : list (string * ScreenInfo)) :
  (length (find_nodes pages targets) <= length targets)%nat.
Proof.
  destruct (find_nodes_keys pages targets) as [N I].
  rewrite <- (length_map fst (find_nodes pages targets)), <- (length_map fst targets).
  apply NoDup_incl_length; [exact N | exact I].
Qed.

Lemma export_targets_length (screens : option (list string)) :
  (length (export_targets screens) <= 3)%nat.
Proof.
  unfold export_targets. destruct screens as [[|s r]|]; try (simpl; lia).
  apply (filter_length_le _ SCREEN_MAP).
Qed.

Lemma export_targets_keys (screens : option (list string)) (k : string) :
  In k (map fst (export_targets screens)) ->
  In k (map fst SCREEN_MAP) /\
  forall s r, screens = Some (s :: r) -> In k (s :: r).
Proof.
  unfold export_targets. intros H.
  destruct screens as [[|s r]|]; try (split; [exact H | intros; discriminate]).
  apply in_map_iff in H. destruct H as ([k' v] & <- & H).
  apply filter_In in H. destruct H as [H1 H2].
  split; [apply (in_map fst _ _ H1)|].
  intros s0 r0 [= <- <-].
  apply existsb_exists in H2. destruct H2 as (x & Hx & E).
  apply String.eqb_eq in E. cbn [fst] in E. subst x. exact Hx.
Qed.

End ExportLoops.

Section ExportRun.
Import Figma.

Lemma write_meta_advances (meta : ExportMeta) (w : World) :
  advances w (snd (write_meta meta w)) 0 0 /\
  metas (snd (write_meta meta w)) = metas w ++ [meta] /\
  files (snd (write_meta meta w)) = files w.
Proof.
  unfold write_meta, advances; simpl. repeat split; auto.
  - exists []. rewrite app_nil_r. auto.
  - exists []. rewrite app_nil_r. auto.
Qed.

(** Everything one run of the export does. *)
Lemma export_run (net : Network) (now token : string)
  (screens : option (list string)) (scale : Z) (w : World) :
  let out := export_figma_screens net now token screens scale w in
  advances w (snd out) (4 + length (export_targets screens)) 2 /\
  (forall e, fst out = inl e -> metas (snd out) = metas w) /\
  (forall exported, fst out = inr exported ->
     ((exported = [] /\ metas (snd out) = metas w) \/
      metas (snd out) = metas w ++ [meta_of now scale exported]) /\
     forall name path, In (name, path) exported ->
       In name (map fst (export_targets screens)) /\
       path = path_str (FigmaPng name) /\
       figma_files (files (snd out)) name <> None).
Proof.
  intros out.
  pose (P := fun o : (Abort + list (string * string)) * World =>
    advances w (snd o) (4 + length (export_targets screens)) 2 /\
    (forall e, fst o = inl e -> metas (snd o) = metas w) /\
    (forall exported, fst o = inr exported ->
       ((exported = [] /\ metas (snd o) = metas w) \/
        metas (snd o) = metas w ++ [meta_of now scale exported]) /\
       forall name path, In (name, path) exported ->
         In name (map fst (export_targets screens)) /\
         path = path_str (FigmaPng name) /\
         figma_files (files (snd o)) name <> None)).
  change (P out).
  assert (Early : forall w1 n s e,
            advances w w1 n s -> (n <= 4 + length (export_targets screens))%nat ->
            (s <= 2)%nat -> metas w1 = metas w -> P (inl e, w1)).
  { intros w1 n s e A Hn Hs Mt. unfold P. cbn [fst snd].
    split; [apply (advances_weaken _ _ _ _ _ _ A); assumption|].
    split; [intros; exact Mt | intros exported E; discriminate]. }
  assert (Empty : forall w1 n s,
            advances w w1 n s -> (n <= 4 + length (export_targets screens))%nat ->
            (s <= 2)%nat -> metas w1 = metas w -> P (inr [], w1)).
  { intros w1 n s A Hn Hs Mt. unfold P. cbn [fst snd].
    split; [apply (advances_weaken _ _ _ _ _ _ A); assumption|].
    split; [intros e0 E; discriminate|].
    intros exported [= <-]. split; [left; auto | intros name path []]. }
  subst out. unfold export_figma_screens.
  destruct (export_targets screens) as [|t ts] eqn:ET.
  { apply (Empty w 0%nat 0%nat (advances_refl w)); [lia | lia | reflexivity]. }
  set (T := t :: ts) in *. cbv zeta.
  unfold bind at 1.
  destruct (get_retrying_advances net (file_request token) w) as (A1 & M1).
  destruct (get_retrying net (file_request token) w) as [[e|r] w1]; cbn [fst snd] in A1, M1.
  { apply (Early w1 2%nat 1%nat e A1); [lia | lia | exact M1]. }
  unfold bind at 1.
  destruct (raise_for_status r w1) as [[e|u] w1'] eqn:ER;
    pose proof (raise_for_status_same r w1) as R; rewrite ER in R; cbn [snd] in R; subst w1'.
  { apply (Early w1 2%nat 1%nat e A1); [lia | lia | exact M1]. }
  unfold bind at 1.
  destruct (body r) as [pages| | |];
    try (apply (Early w1 2%nat 1%nat BadResponse A1); [lia | lia | exact M1]).
  unfold ret at 1.
  pose proof (find_nodes_length pages T) as HL.
  destruct (find_nodes_keys pages T) as [_ HK].
  destruct (find_nodes pages T) as [|nd nds] eqn:EN.
  { apply (Empty w1 2%nat 1%nat A1); [lia | lia | exact M1]. }
  rewrite <- EN in *. clear EN nd nds.
  set (ids := find_nodes pages T) in *.
  unfold bind at 1.
  destruct (get_retrying_advances net
              (images_request token (join_comma (Dict.values ids)) scale) w1) as (A2 & M2).
  destruct (get_retrying net _ w1) as [[e|r2] w2]; cbn [fst snd] in A2, M2.
  { apply (Early w2 (2 + 2)%nat (1 + 1)%nat e (advances_trans _ _ _ _ _ _ _ A1 A2));
      [lia | lia | congruence]. }
  pose proof (advances_trans _ _ _ _ _ _ _ A1 A2) as A12.
  unfold bind at 1.
  destruct (raise_for_status r2 w2) as [[e|u2] w2'] eqn:ER2;
    pose proof (raise_for_status_same r2 w2) as R2; rewrite ER2 in R2; cbn [snd] in R2; subst w2'.
  { apply (Early w2 (2 + 2)%nat (1 + 1)%nat e A12); [lia | lia | congruence]. }
  assert (Rest : forall images,
    P (bind (download net images ids [])
         (fun exported =>
            bind (write_meta {| exported_at := now; file_key := FIGMA_FILE_KEY;
                                meta_scale := scale; meta_screens := exported |})
                 (fun _ => ret exported)) w2)).
  { intros images. unfold bind at 1.
    destruct (download_spec net images ids [] w2) as (A3 & M3 & P3).
    destruct (download net images ids [] w2) as [[e|exported] w3]; cbn [fst snd] in A3, M3, P3.
    { apply (Early w3 (2 + 2 + length ids)%nat (1 + 1 + 0)%nat e
               (advances_trans _ _ _ _ _ _ _ A12 A3)); [lia | lia | congruence]. }
    unfold bind, ret.
    destruct (write_meta_advances {| exported_at := now; file_key := FIGMA_FILE_KEY;
                                     meta_scale := scale; meta_screens := exported |} w3)
      as (A4 & M4 & F4).
    destruct (write_meta _ w3) as [[e|u4] w4] eqn:EW; [unfold write_meta in EW; discriminate|].
    cbn [fst snd] in *. unfold P. cbn [fst snd].
    split.
    { apply (advances_weaken _ _ (2 + 2 + length ids + 0) (1 + 1 + 0 + 0)); [|lia|lia].
      eapply advances_trans; [|exact A4]. eapply advances_trans; [exact A12 | exact A3]. }
    split; [intros e E; discriminate|].
    intros exported' [= <-]. split.
    { right. rewrite M4. unfold meta_of. congruence. }
    intros name path H.
    destruct (P3 exported eq_refl name path H) as [[] | (H1 & H2 & H3)].
    split; [apply HK; exact H1|]. split; [exact H2|]. rewrite F4. exact H3. }
  unfold bind at 1.
  destruct (body r2) as [pages2|images| |]; unfold ret at 1;
    try apply Rest.
  unfold throw. apply (Early w2 (2 + 2)%nat (1 + 1)%nat BadResponse A12); [lia | lia | congruence].
Qed.

End ExportRun.

Section ExportTheorems.
Import Figma.

(** X13: whatever the network answers, one export makes at most seven
    requests and takes at most two sleeps, leaves the captured screenshots
    untouched and removes no reference image. *)
Theorem export_requests_bounded (net : Network) (now token : string)
  (screens : option (list string)) (scale : Z) (w : World) :
  advances w (snd (export_figma_screens net now token screens scale w)) 7 2.
Proof.
  destruct (export_run net now token screens scale w) as (A & _).
  pose proof (export_targets_length screens).
  apply (advances_weaken _ _ _ _ _ _ A); lia.
Qed.

(** X14: when screens are asked for and none of them is configured in
    [SCREEN_MAP], the export returns the empty dictionary without a request,
    a sleep or a file written. *)
Theorem export_offline_for_unknown_screens (net : Network) (now token : string)
  (s : string) (r : list string) (scale : Z) (w : World) :
  (forall x, In x (s :: r) -> ~ In x (map fst SCREEN_MAP)) ->
  export_figma_screens net now token (Some (s :: r)) scale w = (inr [], w).
Proof.
  intros H. unfold export_figma_screens.
  assert (E : export_targets (Some (s :: r)) = []).
  { destruct (export_targets (Some (s :: r))) as [|[k v] l] eqn:ET; [reflexivity|].
    exfalso.
    destruct (export_targets_keys (Some (s :: r)) k) as [H1 H2].
    { rewrite ET. left. reflexivity. }
    apply (H k); [apply (H2 s r eq_refl) | exact H1]. }
  rewrite E. reflexivity.
Qed.

(** X15: every screen a successful export returns is a configured screen
    (and one of those asked for), its path is the reference path that
    [compare_screens] reads, the file exists afterwards, and a comparison
    run on the resulting files never records it as "missing_figma"; the
    captured screenshots are untouched. *)
Theorem exported_screens_are_comparable (net : Network) (now token : string)
  (screens : option (list string)) (scale : Z) (w : World)
  (exported : list (string * string)) :
  fst (export_figma_screens net now token screens scale w) = inr exported ->
  let w' := snd (export_figma_screens net now token screens scale w) in
  unity_files (files w') = unity_files (files w) /\
  forall name path, In (name, path) exported ->
    In name (map fst SCREEN_MAP) /\
    (forall s r, screens = Some (s :: r) -> In name (s :: r)) /\
    path = path_str (FigmaPng name) /\
    exists_ (files w') (FigmaPng name) = true /\
    forall (Ext : Externals) ws,
      compare_screen (files w') name <> ok (Missing "missing_figma", ws).
Proof.
  intros E w'.
  destruct (export_run net now token screens scale w) as ((U & _) & _ & S).
  destruct (S exported E) as (_ & Hfiles).
  split; [exact U|].
  intros name path Hin. destruct (Hfiles name path Hin) as (H1 & H2 & H3).
  destruct (export_targets_keys screens name H1) as [K1 K2].
  fold w' in H3.
  assert (X : exists_ (files w') (FigmaPng name) = true).
  { unfold exists_. simpl. destruct (figma_files (files w') name); [reflexivity | congruence]. }
  repeat (split; [assumption|]).
  intros Ext ws. unfold compare_screen. rewrite X. simpl.
  destruct (negb (exists_ (files w') (UnityPng name))); [discriminate|].
  destruct (pixel_diff (files w') (UnityPng name) (FigmaPng name)) as [e|r0]; [discriminate|].
  simpl. destruct (fingerprint (files w') (UnityPng name)); [discriminate|]. simpl.
  destruct (fingerprint (files w') (FigmaPng name)); [discriminate|]. simpl.
  destruct (fst r0); discriminate.
Qed.

(** X16: an export that fails writes no metadata file; one that succeeds
    either returns the empty dictionary without writing one, or writes
    exactly one, holding the time, the file key, the scale and the very
    dictionary it returns. *)
Theorem export_metadata (net : Network) (now token : string)
  (screens : option (list string)) (scale : Z) (w : World) :
  let out := export_figma_screens net now token screens scale w in
  (forall e, fst out = inl e -> metas (snd out) = metas w) /\
  (forall exported, fst out = inr exported ->
     (exported = [] /\ metas (snd out) = metas w) \/
     metas (snd out) = metas w ++ [meta_of now scale exported]).
Proof.
  intros out.
  destruct (export_run net now token screens scale w) as (_ & F & S).
  split; [exact F|]. intros exported E. apply (S exported E).
Qed.

Lemma get_retrying_429 (net : Network) (req : Request) (w : World) (r1 : Response) :
  net (sent w) req = Some r1 ->
  status_code r1 = 429%Z ->
  (asked_wait r1 = None ->
   get_retrying net req w =
     (inl ValueError,
      {| files := files w; sent := sent w ++ [req]; slept := slept w; metas := metas w |})) /\
  (forall wait r2,
     asked_wait r1 = Some wait -> (0 <= wait)%Z ->
     net (sent w ++ [req]) req = Some r2 ->
     get_retrying net req w =
       (inr r2,
        {| files := files w; sent := sent w ++ [req; req];
           slept := slept w ++ [wait]; metas := metas w |})).
Proof.
  intros H1 S1. unfold get_retrying, bind, http_get. cbv beta zeta.
  rewrite H1, S1. cbn [Z.eqb Pos.eqb]. unfold asked_wait.
  split.
  - destruct (retry_after r1) as [[n|]|]; try discriminate. intros _. reflexivity.
  - intros wait r2 Hw Hpos H2.
    assert (Hlt : (wait <? 0)%Z = false) by (apply Z.ltb_ge; exact Hpos).
    destruct (retry_after r1) as [[n|]|]; try discriminate;
      injection Hw as ->; unfold ret, sleep; rewrite Hlt; cbn [sent files slept metas];
      rewrite H2, <- app_assoc; reflexivity.
Qed.

(** X17: when the file request is answered with 429, the export sleeps for
    the time asked (30 seconds without a [Retry-After] header) and repeats
    the request once; a second 429 is not retried: the export fails with the
    HTTP error after exactly two requests and one sleep.  A [Retry-After]
    that is not an integer makes it fail at once, after one request. *)
Theorem rate_limit_is_retried_once (net : Network) (now token : string)
  (screens : option (list string)) (scale : Z) (w : World) (r1 : Response) :
  export_targets screens <> [] ->
  net (sent w) (file_request token) = Some r1 ->
  status_code r1 = 429%Z ->
  let req := file_request token in
  let out := export_figma_screens net now token screens scale w in
  (asked_wait r1 = None ->
   out = (inl ValueError,
          {| files := files w; sent := sent w ++ [req];
             slept := slept w; metas := metas w |})) /\
  (forall wait r2,
     asked_wait r1 = Some wait -> (0 <= wait)%Z ->
     net (sent w ++ [req]) req = Some r2 ->
     status_code r2 = 429%Z ->
     out = (inl (HTTPError 429),
            {| files := files w; sent := sent w ++ [req; req];
               slept := slept w ++ [wait]; metas := metas w |})).
Proof.
  intros HT H1 S1 req out. subst out req.
  destruct (get_retrying_429 net (file_request token) w r1 H1 S1) as [G1 G2].
  unfold export_figma_screens.
  destruct (export_targets screens) as [|t ts]; [congruence|].
  cbv zeta.
  split.
  - intros Hw. unfold bind at 1. rewrite (G1 Hw). reflexivity.
  - intros wait r2 Hw Hpos H2 S2. unfold bind at 1. rewrite (G2 wait r2 Hw Hpos H2).
    unfold bind at 1. unfold raise_for_status. rewrite S2. reflexivity.
Qed.

End ExportTheorems.

Section NodeSelection.
Import Figma.

Lemma match_page_get (pg : PageNode) (k : string) (info : ScreenInfo) :
  forall (targets : list (string * ScreenInfo)) (ids : list (string * string)),
    NoDup (map fst targets) ->
    (In (k, info) targets ->
     Dict.get k (match_page pg targets ids) =
       if String.eqb (page_name pg) (page info) then Some (node_of pg)
       else Dict.get k ids) /\
    (~ In k (map fst targets) ->
     Dict.get k (match_page pg targets ids) = Dict.get k ids).
Proof.
  unfold match_page.
  induction targets as [|[k' i'] rest IH]; intros ids N; simpl.
  - split; [intros [] | reflexivity].
  - inversion N as [|? ? Hk' N']; subst.
    set (ids1 := if String.eqb (page_name pg) (page i')
                 then match page_children pg with
                      | first :: _ => Dict.set k' first ids
                      | [] => Dict.set k' (page_id pg) ids
                      end
                 else ids).
    destruct (IH ids1 N') as [IH1 IH2].
    assert (Other : k <> k' -> Dict.get k ids1 = Dict.get k ids).
    { intros Hne. unfold ids1.
      destruct (String.eqb (page_name pg) (page i')); [|reflexivity].
      destruct (page_children pg); apply get_set_other; exact Hne. }
    split.
    + intros [[= -> ->] | Hin].
      * rewrite IH2 by exact Hk'. unfold ids1, node_of.
        destruct (String.eqb (page_name pg) (page info)); [|reflexivity].
        destruct (page_children pg); apply get_set_same.
      * rewrite (IH1 Hin). destruct (String.eqb (page_name pg) (page info)); [reflexivity|].
        apply Other. intros ->. apply Hk'. apply (in_map fst _ _ Hin).
    + intros Hn. simpl in Hn.
      rewrite IH2 by (intros H; apply Hn; right; exact H).
      apply Other. intros ->. apply Hn. left. reflexivity.
Qed.

Lemma find_nodes_snoc (pages : list PageNode) (pg : PageNode)
  (targets : list (string * ScreenInfo)) :
  find_nodes (pages ++ [pg]) targets = match_page pg targets (find_nodes pages targets).
Proof. unfold find_nodes. rewrite fold_left_app. reflexivity. Qed.

(** X18: the node requested for a screen is taken from the last page of
    the document that bears the screen's configured page name: its first
    child, or the page itself when it has no children; a screen whose page
    is absent is not requested.  The [node_id] of [SCREEN_MAP] plays no
    part. *)
Theorem exported_node_is_from_last_matching_page
  (pages : list PageNode) (targets : list (string * ScreenInfo))
  (k : string) (info : ScreenInfo) :
  NoDup (map fst targets) -> In (k, info) targets ->
  Dict.get k (find_nodes pages targets) =
    option_map node_of (last_page_named (page info) pages).
Proof.
  intros N Hin. unfold last_page_named.
  induction pages as [|pg pages IH] using rev_ind.
  - reflexivity.
  - rewrite find_nodes_snoc, rev_app_distr. simpl.
    rewrite (proj1 (match_page_get pg k info targets _ N) Hin).
    destruct (String.eqb (page_name pg) (page info)); [reflexivity | exact IH].
Qed.

End NodeSelection.

(** X14 at a screen that is not configured. *)
Lemma export_offline_for_unknown_screens_witness :
  Figma.export_figma_screens SampleNet.net "2026-01-01T09:00:00" "token"
    (Some ["HomeScreen"%string]) 2 SampleNet.world
  = (inr [], SampleNet.world).
Proof.
  apply (export_offline_for_unknown_screens SampleNet.net "2026-01-01T09:00:00" "token"
           "HomeScreen" [] 2 SampleNet.world).
  intros x [<- | []] H. simpl in H.
  destruct H as [H | [H | [H | []]]]; discriminate H.
Defined.

(** X15 on the sample network: the logo screen is exported. *)
Lemma exported_screens_are_comparable_witness :
  let out := Figma.export_figma_screens SampleNet.net "2026-01-01T09:00:00" "token"
               None 2 SampleNet.world in
  fst out = inr [("LogoScreen"%string, "QA/Screenshots/Figma/LogoScreen.png"%string)] /\
  exists_ (Figma.files (snd out)) (FigmaPng "LogoScreen") = true.
Proof.
  intros out.
  assert (E : fst out = inr [("LogoScreen"%string, "QA/Screenshots/Figma/LogoScreen.png"%string)])
    by (vm_compute; reflexivity).
  split; [exact E|].
  destruct (exported_screens_are_comparable SampleNet.net "2026-01-01T09:00:00" "token"
              None 2 SampleNet.world _ E) as (_ & H).
  destruct (H "LogoScreen"%string "QA/Screenshots/Figma/LogoScreen.png"%string
              (or_introl eq_refl)) as (_ & _ & _ & X & _).
  exact X.
Defined.

(** X17 on a server that always answers 429 without a [Retry-After]. *)
Lemma rate_limit_is_retried_once_witness :
  Figma.export_figma_screens SampleNet.busy "2026-01-01T09:00:00" "token" None 2 SampleNet.world
  = (inl (HTTPError 429),
     {| Figma.files := Figma.files SampleNet.world;
        Figma.sent := [Figma.file_request "token"; Figma.file_request "token"];
        Figma.slept := [30%Z];
        Figma.metas := [] |}).
Proof.
  apply (proj2 (rate_limit_is_retried_once SampleNet.busy "2026-01-01T09:00:00" "token"
                  None 2 SampleNet.world
                  (Figma.mkResponse 429 None Figma.RawBody [])
                  ltac:(discriminate) eq_refl eq_refl)
               30%Z (Figma.mkResponse 429 None Figma.RawBody [])
               eq_refl ltac:(lia) eq_refl eq_refl).
Defined.

(** X18 on a document with two pages named "Logo". *)
Lemma exported_node_is_from_last_matching_page_witness :
  Dict.get "LogoScreen"
    (Figma.find_nodes
       (SampleNet.pages ++ [Figma.mkPageNode "Logo" "9:1" []]) Figma.SCREEN_MAP)
  = Some "9:1"%string.
Proof.
  apply (exported_node_is_from_last_matching_page
           (SampleNet.pages ++ [Figma.mkPageNode "Logo" "9:1" []]) Figma.SCREEN_MAP
           "LogoScreen" (Figma.mkScreenInfo "Logo" "2622:843")).
  - repeat constructor; simpl; intuition discriminate.
  - left. reflexivity.
Defined.
